(** * LinkedIn AI scraper: scoring, deduplication, ranking and job control

    A shallow embedding of the profile pipeline ([utils.py],
    [data_processor.py]), of the scraper ([linkedin_scraper.py]), of the job
    controller ([web_app.py]) and of the command-line run ([main.py]), with
    the properties of the specification and further properties of the code
    stated and proved over it.

    Conventions of the embedding.
    - A Python [dict] with string keys is a [gmap string _]; a list of dicts
      that the code mutates in place is a list of addresses into a heap of
      dict objects.
    - Python floats are exact rationals ([Qc]): the development states what the
      arithmetic of the source says, not its IEEE rounding.  The float
      [nan] is a separate value; infinities are not modelled.
    - Python [str] is [string] (a sequence of one-byte characters); case
      folding and whitespace are those of the ASCII range.
    - A Python call that can raise returns a [result]. *)

From Stdlib Require Import Ascii String QArith Qcanon.
From stdpp Require Import numbers strings pretty gmap fin_maps sorting list.

Local Open Scope Qc_scope.

(** ** Python values *)

Module Py.

(** An exception: its class name and [str(e)]. *)
Inductive exn := Exn (kind : string) (msg : string).

Definition exn_str (e : exn) : string := let 'Exn _ m := e in m.

Inductive result (A : Type) :=
| Ok (a : A)
| Raise (e : exn).
Arguments Ok {A} a.
Arguments Raise {A} e.

#[export] Instance exn_eq_dec : EqDecision exn.
Proof. solve_decision. Defined.
#[export] Instance result_eq_dec `{EqDecision A} : EqDecision (result A).
Proof. solve_decision. Defined.

Definition bind {A B} (m : result A) (k : A → result B) : result B :=
  match m with
  | Ok a => k a
  | Raise e => Raise e
  end.


Definition TypeError : exn := Exn "TypeError" "unsupported operand type(s)".
Definition AttributeError : exn := Exn "AttributeError" "object has no attribute".
Definition KeyError (k : string) : exn := Exn "KeyError" k.

(** The values a profile dict or a JSON request body holds. *)
Inductive pyval :=
| VNone
| VStr (s : string)
| VInt (n : Z)
| VFloat (q : Qc)
| VNaN.

#[export] Instance pyval_eq_dec : EqDecision pyval.
Proof. solve_decision. Defined.

(** A rational from a numerator and a denominator. *)
Definition qc (n : Z) (d : positive) : Qc := Q2Qc (n # d).

Definition Qc_of_nat (n : nat) : Qc := Qc_of_Z (Z.of_nat n).

(** [bool(v)]. *)
Definition truthy (v : pyval) : bool :=
  match v with
  | VNone => false
  | VStr s => negb (String.eqb s "")
  | VInt n => negb (n =? 0)%Z
  | VFloat q => negb (bool_decide (q = 0))
  | VNaN => true
  end.

(** [c.isspace()] for a character of the ASCII range. *)
Definition isspace (c : ascii) : bool :=
  let n := nat_of_ascii c in
  ((9 <=? n) && (n <=? 13) || (28 <=? n) && (n <=? 32))%nat.

(** [s.lstrip()], [s.rstrip()] and [s.strip()]. *)
Fixpoint lstrip (s : string) : string :=
  match s with
  | EmptyString => EmptyString
  | String c s' => if isspace c then lstrip s' else s
  end.

Fixpoint rstrip (s : string) : string :=
  match s with
  | EmptyString => EmptyString
  | String c s' =>
      match rstrip s' with
      | EmptyString => if isspace c then EmptyString else String c EmptyString
      | t => String c t
      end
  end.

Definition strip (s : string) : string := rstrip (lstrip s).

(** [bool(str(v).strip())].  [str] of [None], of a number or of [nan] is
    ["None"], a numeral or ["nan"]: it always keeps a character. *)
Definition str_strip_truthy (v : pyval) : bool :=
  match v with
  | VStr s => negb (String.eqb (strip s) "")
  | _ => true
  end.

(** [c.lower()] and [s.lower()]. *)
Definition lower_ascii (c : ascii) : ascii :=
  let n := nat_of_ascii c in
  if ((65 <=? n) && (n <=? 90))%nat then ascii_of_nat (n + 32) else c.

Fixpoint lower (s : string) : string :=
  match s with
  | EmptyString => EmptyString
  | String c s' => String (lower_ascii c) (lower s')
  end.

(** [s.startswith(p)] and [n in h]. *)
Fixpoint startswith (s p : string) : bool :=
  match p, s with
  | EmptyString, _ => true
  | String a p', String b s' => Ascii.eqb a b && startswith s' p'
  | String _ _, EmptyString => false
  end.

Fixpoint contains (h n : string) : bool :=
  startswith h n ||
  match h with
  | EmptyString => false
  | String _ h' => contains h' n
  end.

(** A [for] loop whose body can raise. *)
Fixpoint for_each {A S} (body : S → A → result S) (s : S) (l : list A) : result S :=
  match l with
  | [] => Ok s
  | x :: l' =>
      match body s x with
      | Ok s' => for_each body s' l'
      | Raise e => Raise e
      end
  end.

(** The rational a Python number denotes ([None] for [nan] and for values
    that are not numbers). *)
Definition as_number (v : pyval) : option Qc :=
  match v with
  | VInt n => Some (Qc_of_Z n)
  | VFloat q => Some q
  | _ => None
  end.

(** [a + b]: numbers add (an [int] only from two [int]s, [nan] absorbs),
    strings concatenate, anything else is a [TypeError]. *)
Definition py_add (a b : pyval) : result pyval :=
  match a, b with
  | VInt m, VInt n => Ok (VInt (m + n))
  | VInt m, VFloat q => Ok (VFloat (Qc_of_Z m + q))
  | VFloat p, VInt n => Ok (VFloat (p + Qc_of_Z n))
  | VFloat p, VFloat q => Ok (VFloat (p + q))
  | VNaN, (VInt _ | VFloat _ | VNaN) => Ok VNaN
  | (VInt _ | VFloat _), VNaN => Ok VNaN
  | VStr s, VStr t => Ok (VStr (s ++ t))
  | _, _ => Raise TypeError
  end.

(** [a < b] and [a >= b]: numbers compare by value ([nan] compares false
    with everything), strings lexicographically, anything else is a
    [TypeError]. *)
Definition py_lt (a b : pyval) : result bool :=
  match a, b with
  | (VInt _ | VFloat _ | VNaN), (VInt _ | VFloat _ | VNaN) =>
      match as_number a, as_number b with
      | Some p, Some q => Ok (bool_decide (p < q))
      | _, _ => Ok false
      end
  | VStr s, VStr t => Ok (String.ltb s t)
  | _, _ => Raise TypeError
  end.

Definition py_ge (a b : pyval) : result bool :=
  match a, b with
  | (VInt _ | VFloat _ | VNaN), (VInt _ | VFloat _ | VNaN) =>
      match as_number a, as_number b with
      | Some p, Some q => Ok (bool_decide (q ≤ p))
      | _, _ => Ok false
      end
  | VStr s, VStr t => Ok (String.leb t s)
  | _, _ => Raise TypeError
  end.

(** [min(a, b)]: the first of the smallest arguments. *)
Definition py_min (a b : Qc) : Qc := if bool_decide (b < a) then b else a.

(** *** Digits and replacement *)

Definition ValueError : exn := Exn "ValueError" "invalid literal for int() with base 10".

(** [c.isdigit()] for a character of the ASCII range. *)
Definition isdigit (c : ascii) : bool :=
  let n := nat_of_ascii c in
  ((48 <=? n) && (n <=? 57))%nat.

(** [s.replace(old, new)] for a one-character [old]. *)
Fixpoint replace_char (old : ascii) (new : string) (s : string) : string :=
  match s with
  | EmptyString => EmptyString
  | String c s' =>
      if Ascii.eqb c old then (new ++ replace_char old new s')%string
      else String c (replace_char old new s')
  end.

(** [int(s)] for a string of decimal digits; the signs, blanks and
    underscores that [int] also reads are a [ValueError] here. *)
Fixpoint int_digits (acc : Z) (s : string) : option Z :=
  match s with
  | EmptyString => Some acc
  | String c s' =>
      if isdigit c then int_digits (10 * acc + (Z.of_nat (nat_of_ascii c) - 48)) s'
      else None
  end.

Definition py_int (s : string) : result Z :=
  match s with
  | EmptyString => Raise ValueError
  | _ =>
      match int_digits 0 s with
      | Some n => Ok n
      | None => Raise ValueError
      end
  end.

End Py.
Export Py.

Notation "x ← m ; k" := (Py.bind m (λ x, k))
  (at level 20, m at level 100, k at level 200, only parsing).

(** ** The part of [re] the helpers use

    Regular expressions over one-byte characters, with one capturing group
    at most ([Group]); [Digit] is [\d] and [Space] is [\s] on the ASCII
    range.  The quantifiers are the greedy ones of Python. *)

Module Re.

Inductive regex :=
| Chr (c : ascii)
| Lit (s : string)
| Digit
| Space
| Seq (r1 r2 : regex)
| Repeat (lo hi : nat) (r : regex)
| Star (r : regex)
| Group (r : regex).

Definition Plus (r : regex) : regex := Seq r (Star r).
Definition Opt (r : regex) : regex := Repeat 0 1 r.

Fixpoint after_prefix (p s : string) : option string :=
  match p, s with
  | EmptyString, _ => Some s
  | String a p', String b s' => if Ascii.eqb a b then after_prefix p' s' else None
  | String _ _, EmptyString => None
  end.

(** The loops of the greedy quantifiers: [body] is tried first, and what
    follows the quantifier ([k]) only when every way through [body] fails. *)
Fixpoint repeat_loop {A}
    (body : option string → string → (option string → string → option A) → option A)
    (lo hi : nat) (k : option string → string → option A)
    (g : option string) (s : string) : option A :=
  match hi with
  | O => if lo is O then k g s else None
  | S hi' =>
      match body g s (repeat_loop body (pred lo) hi' k) with
      | Some a => Some a
      | None => if lo is O then k g s else None
      end
  end.

Fixpoint star_loop {A}
    (body : option string → string → (option string → string → option A) → option A)
    (n : nat) (k : option string → string → option A)
    (g : option string) (s : string) : option A :=
  match n with
  | O => k g s
  | S n' =>
      match body g s (star_loop body n' k) with
      | Some a => Some a
      | None => k g s
      end
  end.

(** A backtracking matcher: [exec r g s k] matches [r] at the start of [s]
    and hands the group captured so far and the rest of [s] to [k]; the
    alternatives are tried in the order of Python's [re]. *)
Fixpoint exec {A} (r : regex) (g : option string) (s : string)
    (k : option string → string → option A) : option A :=
  match r with
  | Chr c =>
      match s with
      | String c' s' => if Ascii.eqb c c' then k g s' else None
      | EmptyString => None
      end
  | Lit p =>
      match after_prefix p s with
      | Some s' => k g s'
      | None => None
      end
  | Digit =>
      match s with
      | String c s' => if isdigit c then k g s' else None
      | EmptyString => None
      end
  | Space =>
      match s with
      | String c s' => if isspace c then k g s' else None
      | EmptyString => None
      end
  | Seq r1 r2 => exec r1 g s (λ g' s', exec r2 g' s' k)
  | Repeat lo hi r' => repeat_loop (exec r') lo hi k g s
  | Star r' => star_loop (exec r') (String.length s) k g s
  | Group r' =>
      exec r' g s
        (λ _ s', k (Some (substring 0 (String.length s - String.length s') s)) s')
  end.

Definition match_at (r : regex) (s : string) : option (option string * string) :=
  exec r None s (λ g rest, Some (g, rest)).

Fixpoint search (r : regex) (s : string) : option (option string * string) :=
  match match_at r s with
  | Some m => Some m
  | None =>
      match s with
      | EmptyString => None
      | String _ s' => search r s'
      end
  end.

Fixpoint sub_from (r : regex) (repl : string) (skip : nat) (s : string) : string :=
  match s with
  | EmptyString =>
      match skip, match_at r s with
      | O, Some _ => repl
      | _, _ => EmptyString
      end
  | String c s' =>
      match skip with
      | S n => sub_from r repl n s'
      | O =>
          match match_at r s with
          | Some (_, rest) =>
              match (String.length s - String.length rest)%nat with
              | O => (repl ++ String c (sub_from r repl 0 s'))%string
              | S n => (repl ++ sub_from r repl n s')%string
              end
          | None => String c (sub_from r repl 0 s')
          end
      end
  end.

Definition sub (r : regex) (repl s : string) : string := sub_from r repl 0 s.

End Re.

(** ** [utils.py] *)

Module Utils.

(** The test [profile_data.get(field) and str(profile_data[field]).strip()]
    of the two loops of [calculate_profile_completeness]. *)
Definition field_counts (profile_data : gmap string pyval) (field : string) : bool :=
  match profile_data !! field with
  | Some v => truthy v && str_strip_truthy v
  | None => false
  end.

Definition required_fields : list string :=
  ["name"; "headline"; "location"; "profile_url"].
Definition optional_fields : list string :=
  ["company"; "follower_count"].

Definition calculate_profile_completeness (profile_data : gmap string pyval) : Qc :=
  let score := 0 in
  let total_fields := (length required_fields + length optional_fields)%nat in
  let score :=
    foldl (λ score field,
             if field_counts profile_data field then score + 1 else score)
          score required_fields in
  let score :=
    foldl (λ score field,
             if field_counts profile_data field then score + qc 1 2 else score)
          score optional_fields in
  score / Qc_of_nat total_fields.

(** [profile_data.get('headline', '').lower()] raises [AttributeError] when
    the stored value is not a [str]. *)
Definition calculate_confidence_score
    (profile_data : gmap string pyval) (keyword_matched : string) : result Qc :=
  let base_score := qc 1 2 in
  let completeness := calculate_profile_completeness profile_data in
  let base_score := base_score + completeness * qc 3 10 in
  let base_score :=
    if truthy (default VNone (profile_data !! "follower_count"))
    then base_score + qc 1 10 else base_score in
  headline ← match default (VStr "") (profile_data !! "headline") with
             | VStr s => Ok (lower s)
             | _ => Raise AttributeError
             end;
  let base_score :=
    if contains headline (lower keyword_matched)
    then base_score + qc 1 10 else base_score in
  Ok (py_min base_score 1).

(** *** Text helpers *)

Import Re.

Definition follower_patterns : list regex :=
  let number := Group (Seq (Repeat 1 3 Digit) (Star (Seq (Chr ",") (Repeat 3 3 Digit)))) in
  [ Seq number (Seq (Star Space) (Seq (Lit "follower") (Opt (Chr "s"))));
    Seq number (Seq (Star Space) (Seq (Lit "connection") (Opt (Chr "s"))));
    Seq number (Seq (Star Space) (Seq (Lit "member") (Opt (Chr "s")))) ].

Fixpoint extract_from (patterns : list regex) (text : string) : result (option Z) :=
  match patterns with
  | [] => Ok None
  | pattern :: patterns' =>
      match search pattern (lower text) with
      | Some (group1, _) =>
          match group1 with
          | Some g =>
              let count_str := replace_char "," "" g in
              match py_int count_str with
              | Ok n => Ok (Some n)
              | Raise _ => extract_from patterns' text
              end
          | None => Raise AttributeError
          end
      | None => extract_from patterns' text
      end
  end.

Definition extract_follower_count (text : string) : result (option Z) :=
  if String.eqb text "" then Ok None else extract_from follower_patterns text.

(** The double quote, and the two of them that stand for one in a CSV
    field. *)
Definition quote : ascii := ascii_of_nat 34.
Definition doubled_quote : string := String quote (String quote "").

Definition clean_text (text : string) : string :=
  if String.eqb text "" then ""%string
  else
    let text := sub (Plus Space) " " (strip text) in
    replace_char quote doubled_quote text.

Definition generate_search_url (keyword : string) (page : Z) : string :=
  let encoded_keyword := replace_char " " "%20" keyword in
  "https://www.linkedin.com/search/results/people/?keywords=" +:+ encoded_keyword
    +:+ "&origin=GLOBAL_SEARCH_HEADER&page=" +:+ pretty page.

Definition linkedin_patterns : list regex :=
  [ Lit "linkedin.com/in/"; Lit "linkedin.com/pub/" ].

Definition is_valid_profile_url (url : string) : bool :=
  if String.eqb url "" then false
  else existsb (λ pattern, bool_decide (is_Some (search pattern url))) linkedin_patterns.

(** [min_followers <= count <= max_followers], [None] being no count. *)
Definition validate_follower_count (count : pyval) (min_followers max_followers : Z)
    : result bool :=
  match count with
  | VNone => Ok false
  | _ =>
      above ← py_ge count (VInt min_followers);
      if above then py_ge (VInt max_followers) count else Ok false
  end.

End Utils.
Export Utils.

(** ** The heap of dict objects

    [List[Dict]] arguments are lists of references: [sort_by_quality] writes
    into the dicts it is given, and the caller sees the writes. *)

Module Heap.

Definition deref (σ : gmap nat (gmap string pyval)) (a : nat) : gmap string pyval :=
  default ∅ (σ !! a).

(** Allocation of fresh dict objects, one per row. *)
Fixpoint alloc_all (σ : gmap nat (gmap string pyval)) (rows : list (gmap string pyval))
    : list nat * gmap nat (gmap string pyval) :=
  match rows with
  | [] => ([], σ)
  | r :: rows' =>
      let a := fresh (dom σ) in
      let '(refs, σ') := alloc_all (<[a := r]> σ) rows' in
      (a :: refs, σ')
  end.

End Heap.
Export Heap.

(** ** The part of pandas the pipeline uses

    A [DataFrame] is its set of column labels and its rows, each row a dict
    over the columns.  Cells carry the values of the dicts they come from and a
    missing cell is [nan]; the coercions of column dtypes (an [int] column
    turning to [float] next to a missing cell) are not modelled. *)

Module Pandas.

Record DataFrame := mkDataFrame {
  df_columns : gset string;
  df_rows : list (gmap string pyval)
}.

Definition reindex (cols : gset string) (row : gmap string pyval) : gmap string pyval :=
  row ∪ gset_to_gmap VNaN cols.

(** [pd.DataFrame(data)] for a list of dicts, and [pd.DataFrame()]. *)
Definition DataFrame_of_records (data : list (gmap string pyval)) : DataFrame :=
  let cols := ⋃ (dom <$> data) in
  mkDataFrame cols (reindex cols <$> data).

Definition DataFrame_empty : DataFrame := mkDataFrame ∅ [].

(** [df.empty]: one of the two axes has length zero. *)
Definition empty (df : DataFrame) : bool :=
  bool_decide (df_rows df = []) || bool_decide (df_columns df = ∅).

(** [pd.concat([a, b], ignore_index=True)]. *)
Definition concat (a b : DataFrame) : DataFrame :=
  let cols := df_columns a ∪ df_columns b in
  mkDataFrame cols (reindex cols <$> (df_rows a ++ df_rows b)).

(** [df.drop_duplicates(subset=[k], keep='first')]: a row is dropped when
    an earlier row has the same value in column [k]. *)
Fixpoint first_occurrences (k : string) (seen : list pyval)
    (rows : list (gmap string pyval)) : list (gmap string pyval) :=
  match rows with
  | [] => []
  | r :: rows' =>
      let v := default VNaN (r !! k) in
      if bool_decide (v ∈ seen) then first_occurrences k seen rows'
      else r :: first_occurrences k (v :: seen) rows'
  end.

Definition drop_duplicates (df : DataFrame) (k : string) : result DataFrame :=
  if bool_decide (k ∈ df_columns df)
  then Ok (mkDataFrame (df_columns df) (first_occurrences k [] (df_rows df)))
  else Raise (KeyError k).

(** [df.to_dict('records')]. *)
Definition to_dict_records (df : DataFrame) : list (gmap string pyval) := df_rows df.

(** [df[k]], a column as a sequence of cells. *)
Definition column (df : DataFrame) (k : string) : list pyval :=
  (λ r, default VNaN (r !! k)) <$> df_rows df.

Definition isna (v : pyval) : bool :=
  match v with
  | VNone | VNaN => true
  | _ => false
  end.

(** [series.dropna()]. *)
Definition dropna (series : list pyval) : list pyval :=
  filter (λ v, isna v = false) series.

(** [series.nunique()]: the number of distinct values that are not null. *)
Definition nunique (series : list pyval) : nat :=
  length (remove_dups (dropna series)).

(** [series.mean()]: nulls are skipped, the mean of nothing is [nan], a
    value that is not a number is a [TypeError]. *)
Definition mean (series : list pyval) : result pyval :=
  total ← for_each (λ acc v, match as_number v with
                             | Some q => Ok (acc + q)
                             | None => Raise TypeError
                             end) 0 (dropna series);
  Ok (match dropna series with
      | [] => VNaN
      | _ => VFloat (total / Qc_of_nat (length (dropna series)))
      end).

(** [series.value_counts().to_dict()]: the occurrences of each value that
    is not null.  The dict is listed by first appearance; its key order
    is not modelled. *)
Definition value_counts (series : list pyval) : list (pyval * nat) :=
  (λ v, (v, length (filter (λ w, w = v) (dropna series)))) <$>
    reverse (remove_dups (reverse (dropna series))).

(** [len(series[(series >= lo) & (series < hi)])] and its closed variant. *)
Definition count_between (series : list pyval) (lo hi : Z) (closed : bool) : result nat :=
  for_each (λ n v,
              a ← py_ge v (VInt lo);
              b ← (if closed then py_ge (VInt hi) v else py_lt v (VInt hi));
              Ok (if a && b then S n else n)) 0%nat series.

End Pandas.
Export Pandas.

(** ** [data_processor.py] *)

Module DataProcessor.

(** [self]: the processor knows the path of its CSV file. *)
Record t := mk { output_file : string }.

(** What [os.path.exists] and [pd.read_csv] answer for a path: no file,
    a frame, or an exception. *)
Definition filesystem := string → option (result DataFrame).

Definition load_existing_profiles (fs : filesystem) (self : t) : DataFrame :=
  match fs (output_file self) with
  | Some (Ok df) => df
  | Some (Raise _) => DataFrame_empty
  | None => DataFrame_empty
  end.

Definition deduplicate_profiles (fs : filesystem) (self : t)
    (σ : gmap nat (gmap string pyval)) (new_profiles : list nat)
    (existing_df : option DataFrame)
    : result (list nat * gmap nat (gmap string pyval)) :=
  if bool_decide (new_profiles = []) then Ok ([], σ)
  else
    let new_df := DataFrame_of_records (deref σ <$> new_profiles) in
    let existing_df :=
      match existing_df with
      | None => load_existing_profiles fs self
      | Some df => df
      end in
    let combined_df :=
      if negb (empty existing_df) then concat existing_df new_df else new_df in
    deduplicated_df ← drop_duplicates combined_df "profile_url";
    let deduplicated_profiles := to_dict_records deduplicated_df in
    Ok (alloc_all σ deduplicated_profiles).

Definition filter_by_quality (σ : gmap nat (gmap string pyval)) (profiles : list nat)
    (min_confidence min_completeness : Qc) : result (list nat) :=
  if bool_decide (profiles = []) then Ok []
  else
    for_each
      (λ filtered_profiles profile,
         let confidence := default (VInt 0) (deref σ profile !! "confidence_score") in
         let completeness := default (VInt 0) (deref σ profile !! "profile_completeness") in
         c1 ← py_ge confidence (VFloat min_confidence);
         c ← (if c1 then py_ge completeness (VFloat min_completeness) else Ok false);
         Ok (if c then filtered_profiles ++ [profile] else filtered_profiles))
      [] profiles.

(** [sorted(profiles, key=key, reverse=True)].  Python's sort is stable,
    also in reverse, and compares keys with [<] only; on keys that are
    totally ordered every stable sort returns the same list, here the
    one of insertion. *)
Fixpoint insert_desc (key : nat → pyval) (x : nat) (l : list nat) : result (list nat) :=
  match l with
  | [] => Ok [x]
  | y :: l' =>
      b ← py_lt (key x) (key y);
      if b then (r ← insert_desc key x l'; Ok (y :: r)) else Ok (x :: y :: l')
  end.

Fixpoint sorted_desc (key : nat → pyval) (l : list nat) : result (list nat) :=
  match l with
  | [] => Ok []
  | x :: l' => s ← sorted_desc key l'; insert_desc key x s
  end.

Definition sort_by_quality (σ : gmap nat (gmap string pyval)) (profiles : list nat)
    : result (list nat * gmap nat (gmap string pyval)) :=
  if bool_decide (profiles = []) then Ok ([], σ)
  else
    σ ← for_each
          (λ σ profile,
             let confidence := default (VInt 0) (deref σ profile !! "confidence_score") in
             let completeness := default (VInt 0) (deref σ profile !! "profile_completeness") in
             quality ← py_add confidence completeness;
             Ok (<[profile := <["quality_score" := quality]> (deref σ profile)]> σ))
          σ profiles;
    sorted_profiles ←
      sorted_desc (λ x, default (VInt 0) (deref σ x !! "quality_score")) profiles;
    Ok (sorted_profiles, σ).

(** The values of the summary dict. *)
Inductive sumval :=
| SVal (v : pyval)
| SCounts (d : list (pyval * nat))
| SRanges (d : list (string * nat)).

#[export] Instance sumval_eq_dec : EqDecision sumval.
Proof. solve_decision. Defined.

Definition generate_summary_report (σ : gmap nat (gmap string pyval)) (profiles : list nat)
    : result (gmap string sumval) :=
  if bool_decide (profiles = []) then Ok ∅
  else
    let df := DataFrame_of_records (deref σ <$> profiles) in
    let has k := bool_decide (k ∈ df_columns df) in
    avg_confidence_score ←
      (if has "confidence_score" then mean (column df "confidence_score") else Ok (VInt 0));
    avg_profile_completeness ←
      (if has "profile_completeness" then mean (column df "profile_completeness")
       else Ok (VInt 0));
    avg_follower_count ←
      (if has "follower_count" then mean (column df "follower_count") else Ok (VInt 0));
    let summary : gmap string sumval :=
      {[ "total_profiles" := SVal (VInt (Z.of_nat (length profiles)));
         "unique_companies" :=
           SVal (VInt (if has "company" then Z.of_nat (nunique (column df "company")) else 0));
         "unique_locations" :=
           SVal (VInt (if has "location" then Z.of_nat (nunique (column df "location")) else 0));
         "avg_confidence_score" := SVal avg_confidence_score;
         "avg_profile_completeness" := SVal avg_profile_completeness;
         "avg_follower_count" := SVal avg_follower_count;
         "keyword_distribution" :=
           SCounts (if has "keyword_matched"
                    then value_counts (column df "keyword_matched") else []) ]} in
    if has "follower_count" then
      let follower_counts := dropna (column df "follower_count") in
      r1 ← count_between follower_counts 1000 2000 false;
      r2 ← count_between follower_counts 2000 5000 false;
      r3 ← count_between follower_counts 5000 10000 true;
      Ok (<["follower_ranges" := SRanges [("1k-2k", r1); ("2k-5k", r2); ("5k-10k", r3)]]>
            summary)
    else Ok summary.

(** The statistics [export_summary_report] reads off a summary, each with
    the default of its [summary.get]; their formatting as text and the
    write to the file are not modelled. *)
Record report := mkReport {
  rep_total_profiles : sumval;
  rep_unique_companies : sumval;
  rep_unique_locations : sumval;
  rep_avg_confidence_score : sumval;
  rep_avg_profile_completeness : sumval;
  rep_avg_follower_count : sumval;
  rep_follower_ranges : sumval;
  rep_keyword_distribution : sumval
}.

#[export] Instance report_eq_dec : EqDecision report.
Proof. solve_decision. Defined.

Definition export_summary_report (summary : gmap string sumval) : report :=
  let get k d := default d (summary !! k) in
  mkReport (get "total_profiles" (SVal (VInt 0)))
           (get "unique_companies" (SVal (VInt 0)))
           (get "unique_locations" (SVal (VInt 0)))
           (get "avg_confidence_score" (SVal (VInt 0)))
           (get "avg_profile_completeness" (SVal (VInt 0)))
           (get "avg_follower_count" (SVal (VInt 0)))
           (get "follower_ranges" (SRanges []))
           (get "keyword_distribution" (SCounts [])).

End DataProcessor.
Export DataProcessor.

(** ** [config.py] *)

Module Config.

Definition SEARCH_KEYWORDS : list string :=
  ["AI agent"; "automation specialist"; "workflow automation";
   "RPA"; "process automation"; "business automation";
   "Zapier"; "Make.com"; "n8n"; "automation consultant";
   "AI automation"; "workflow optimization"; "automation expert";
   "no-code automation"; "low-code automation"; "automation engineer";
   "workflow specialist"; "process optimization"; "business process automation";
   "digital transformation"; "automation architect"; "workflow consultant"].

Definition TARGET_COMPANIES : list string :=
  ["Zapier"; "Make.com"; "n8n"; "Microsoft"; "Google"; "Amazon";
   "Salesforce"; "HubSpot"; "Notion"; "Airtable"; "Monday.com";
   "Asana"; "Trello"; "Slack"; "Discord"; "Figma"; "Canva"].

Definition OUTPUT_CSV : string := "ai_agent_profiles.csv".
Definition MIN_PROFILE_COMPLETENESS : Qc := qc 6 10.
Definition CONFIDENCE_THRESHOLD : Qc := qc 7 10.

Definition MAX_SEARCHES_PER_HOUR : nat := 100.
Definition MAX_PROFILES_PER_SEARCH : nat := 50.
Definition MIN_FOLLOWERS : Z := 1000.
Definition MAX_FOLLOWERS : Z := 10000.

End Config.

(** ** [linkedin_scraper.py]

    The browser is the outside world: an element of a result page answers a
    CSS selector with the text (or the link) of the first element it
    selects, or with an exception; a page load answers with the elements of
    the page.  The pauses of the scraper ([random_delay]) and its log lines
    change neither the scraper nor what it returns: they are left out. *)

Module Scraper.

Record element := mkElement {
  find_text : string → result string;
  find_href : string → result pyval
}.

Definition NoSuchElementException : exn :=
  Exn "NoSuchElementException" "no such element".

(** [except NoSuchElementException]. *)
Definition is_no_such_element (e : exn) : bool :=
  let 'Exn kind _ := e in String.eqb kind "NoSuchElementException".

Definition follower_selectors : list string :=
  [".entity-result__secondary-subtitle"; ".entity-result__metadata";
   ".search-result__info"; ".entity-result__tertiary-subtitle"].

(** The loop of [_extract_follower_count_from_element]: a selector that
    selects nothing is skipped, and so is a count of 0. *)
Fixpoint follower_count_from (element : element) (selectors : list string)
    : result (option Z) :=
  match selectors with
  | [] => Ok None
  | selector :: selectors' =>
      match (text ← find_text element selector; extract_follower_count text) with
      | Ok (Some follower_count) =>
          if (follower_count =? 0)%Z then follower_count_from element selectors'
          else Ok (Some follower_count)
      | Ok None => follower_count_from element selectors'
      | Raise e =>
          if is_no_such_element e then follower_count_from element selectors'
          else Raise e
      end
  end.

Definition _extract_follower_count_from_element (element : element) : option Z :=
  match follower_count_from element follower_selectors with
  | Ok follower_count => follower_count
  | Raise _ => None
  end.

(** The record [_extract_single_profile] makes of what it has read: the
    dict of the eight fields, then the two scores, each computed on the dict
    as it stands. *)
Definition scored_profile (name headline location : string) (profile_url : pyval)
    (company : string) (follower_count : option Z) (keyword now : string)
    : result (gmap string pyval) :=
  let profile_data : gmap string pyval :=
    {[ "name" := VStr name;
       "headline" := VStr headline;
       "location" := VStr location;
       "profile_url" := profile_url;
       "company" := VStr company;
       "follower_count" := from_option VInt VNone follower_count;
       "keyword_matched" := VStr keyword;
       "scraped_date" := VStr now ]} in
  let profile_data :=
    <["profile_completeness" := VFloat (calculate_profile_completeness profile_data)]>
      profile_data in
  confidence_score ← calculate_confidence_score profile_data keyword;
  Ok (<["confidence_score" := VFloat confidence_score]> profile_data).

(** [_extract_single_profile(element, keyword)], [now] being what
    [format_timestamp()] reads.  Any exception but a missing company is
    answered by [None]. *)
Definition _extract_single_profile (element : element) (keyword now : string)
    : option (gmap string pyval) :=
  match
    (name ← find_text element ".entity-result__title-text";
     let name := clean_text name in
     headline ← find_text element ".entity-result__primary-subtitle";
     let headline := clean_text headline in
     location ← find_text element ".entity-result__secondary-subtitle";
     let location := clean_text location in
     profile_url ← find_href element "a[href*='/in/']";
     company ← match find_text element ".entity-result__tertiary-subtitle" with
               | Ok text => Ok (clean_text text)
               | Raise e => if is_no_such_element e then Ok ""%string else Raise e
               end;
     let follower_count := _extract_follower_count_from_element element in
     scored_profile name headline location profile_url company follower_count keyword now)
  with
  | Ok profile_data => Some profile_data
  | Raise _ => None
  end.

(** [is_valid_profile_url] on whatever the record holds: a value that is not
    a string and that Python takes as true is a [TypeError] of [re.search]. *)
Definition valid_url (url : pyval) : result bool :=
  match url with
  | VStr s => Ok (is_valid_profile_url s)
  | _ => if truthy url then Raise TypeError else Ok false
  end.

Definition _validate_profile (profile_data : gmap string pyval) : result bool :=
  url_ok ← valid_url (default (VStr "") (profile_data !! "profile_url"));
  if negb url_ok then Ok false
  else
    let follower_count := default VNone (profile_data !! "follower_count") in
    count_ok ← validate_follower_count follower_count
                 Config.MIN_FOLLOWERS Config.MAX_FOLLOWERS;
    if negb count_ok then Ok false
    else
      incomplete ← py_lt (default (VInt 0) (profile_data !! "profile_completeness"))
                      (VFloat Config.MIN_PROFILE_COMPLETENESS);
      if incomplete then Ok false
      else
        unsure ← py_lt (default (VInt 0) (profile_data !! "confidence_score"))
                   (VFloat Config.CONFIDENCE_THRESHOLD);
        if unsure then Ok false else Ok true.

(** [_extract_profiles_from_page(keyword)] on the answer of
    [driver.find_elements]; [clock i] is the time when element [i] is read.
    An element whose extraction or validation raises is skipped. *)
Definition _extract_profiles_from_page (elements : result (list element))
    (keyword : string) (clock : nat → string) : list (gmap string pyval) :=
  match elements with
  | Raise _ => []
  | Ok elements =>
      foldl
        (λ profiles '(i, element),
           match _extract_single_profile element keyword (clock i) with
           | Some profile_data =>
               match _validate_profile profile_data with
               | Ok true => profiles ++ [profile_data]
               | _ => profiles
               end
           | None => profiles
           end)
        [] (imap pair (take Config.MAX_PROFILES_PER_SEARCH elements))
  end.

(** What a page load answers: [driver.get] or the wait for the results
    raises (a [TimeoutException] leaves the loop by [break], any other
    exception by the [except] clause: both return the profiles found so
    far), or the page is there with its elements. *)
Inductive page_load :=
| Fails (e : exn)
| Loaded (elements : result (list element)) (clock : nat → string).

(** The browser: what the [n]-th page load of the scraper answers. *)
Definition browser := nat → string → page_load.

(** [self]: the searches completed, and the page loads made so far. *)
Record scraper := mkScraper {
  searches_completed : nat;
  loads : nat
}.

Fixpoint search_pages (driver : browser) (keyword : string) (pages : list Z)
    (self : scraper) (profiles : list (gmap string pyval))
    : list (gmap string pyval) * scraper :=
  match pages with
  | [] => (profiles, self)
  | page :: pages' =>
      if bool_decide (Config.MAX_SEARCHES_PER_HOUR ≤ searches_completed self)%nat
      then (profiles, self)
      else
        let search_url := generate_search_url keyword page in
        match driver (loads self) search_url with
        | Fails _ => (profiles, mkScraper (searches_completed self) (S (loads self)))
        | Loaded elements clock =>
            let page_profiles := _extract_profiles_from_page elements keyword clock in
            search_pages driver keyword pages'
              (mkScraper (S (searches_completed self)) (S (loads self)))
              (profiles ++ page_profiles)
        end
  end.

(** [search_profiles(keyword, max_pages)]: the pages are [range(1, max_pages + 1)]. *)
Definition search_profiles (driver : browser) (self : scraper) (keyword : string)
    (max_pages : nat) : list (gmap string pyval) * scraper :=
  search_pages driver keyword (Z.of_nat <$> seq 1 max_pages) self [].

Definition search_by_company (driver : browser) (self : scraper) (company : string)
    : list (gmap string pyval) * scraper :=
  let keyword := ("current company:" +:+ company)%string in
  search_profiles driver self keyword 2.

(** [run_comprehensive_search()] of the scraper: every keyword, then every
    company, with no check between two searches. *)
Definition run_comprehensive_search (driver : browser) (self : scraper)
    : list (gmap string pyval) * scraper :=
  let after_keywords :=
    foldl (λ '(all_profiles, self) keyword,
             let '(profiles, self) := search_profiles driver self keyword 2 in
             (all_profiles ++ profiles, self))
          ([], self) Config.SEARCH_KEYWORDS in
  foldl (λ '(all_profiles, self) company,
           let '(profiles, self) := search_by_company driver self company in
           (all_profiles ++ profiles, self))
        after_keywords Config.TARGET_COMPANIES.

End Scraper.
Export Scraper.

(** ** [web_app.py]: the job controller

    The worker [run_scraping] is a program over the shared [job_status], its
    own local variables and the outside world; the request handlers are
    functions on the shared state.  A handler is served between two steps of
    a worker: the interleaving of the statements of a handler with those of a
    worker is not modelled. *)

Module WebApp.

Record JobStatus := mkJobStatus {
  running : bool;
  progress : Qc;
  message : string;
  total_profiles : nat;
  found_profiles : nat;
  start_time : option string;
  end_time : option string;
  error : option string
}.

#[export] Instance JobStatus_eq_dec : EqDecision JobStatus.
Proof. solve_decision. Defined.

(** The module-level [job_status] before any job. *)
Definition job_status_initial : JobStatus :=
  mkJobStatus false 0 "" 0 0 None None None.

(** An assignment [job_status[key] = value] of the worker. *)
Inductive write :=
| WRunning (b : bool)
| WProgress (q : Qc)
| WMessage (s : string)
| WTotal (n : nat)
| WFound (n : nat)
| WError (s : string)
| WEndTime (t : string).

Definition apply_write (w : write) (st : JobStatus) : JobStatus :=
  match w with
  | WRunning b =>
      mkJobStatus b (progress st) (message st) (total_profiles st) (found_profiles st)
        (start_time st) (end_time st) (error st)
  | WProgress q =>
      mkJobStatus (running st) q (message st) (total_profiles st) (found_profiles st)
        (start_time st) (end_time st) (error st)
  | WMessage s =>
      mkJobStatus (running st) (progress st) s (total_profiles st) (found_profiles st)
        (start_time st) (end_time st) (error st)
  | WTotal n =>
      mkJobStatus (running st) (progress st) (message st) n (found_profiles st)
        (start_time st) (end_time st) (error st)
  | WFound n =>
      mkJobStatus (running st) (progress st) (message st) (total_profiles st) n
        (start_time st) (end_time st) (error st)
  | WError s =>
      mkJobStatus (running st) (progress st) (message st) (total_profiles st)
        (found_profiles st) (start_time st) (end_time st) (Some s)
  | WEndTime t =>
      mkJobStatus (running st) (progress st) (message st) (total_profiles st)
        (found_profiles st) (start_time st) (Some t) (error st)
  end.

(** What the worker asks of the outside world and cannot fail: the clock, a
    pause, the files as pandas sees them. *)
Inductive query : Type → Type :=
| Now : query string
| Sleep (seconds : nat) : query unit
| FileSystem : query filesystem.

(** The calls that can raise: the process environment, the scraper (the
    collaborator) and the writes to files. *)
Inductive call : Type → Type :=
| PutEnv (key value : string) : call unit
| NewScraper : call unit
| Login : call bool
| SearchProfiles (keyword : string) (max_pages : nat) : call (list (gmap string pyval))
| SearchByCompany (company : string) : call (list (gmap string pyval))
| Close : call unit
| ToCsv (path : string) (rows : list (gmap string pyval)) : call unit
| WriteSummary (rep : report) : call unit.

(** Worker programs.  [GetRunning] reads [job_status['running']], [Put] is
    an assignment to [job_status], [BindScraper] binds the local variable
    [scraper] and [GetScraper] tells whether it is bound. *)
Inductive prog (A : Type) : Type :=
| Ret (a : A)
| Throw (e : exn)
| GetRunning (k : bool → prog A)
| Put (w : write) (k : prog A)
| BindScraper (k : prog A)
| GetScraper (k : bool → prog A)
| Ask {X : Type} (q : query X) (k : X → prog A)
| Call {X : Type} (c : call X) (k : result X → prog A).
Arguments Ret {A} a.
Arguments Throw {A} e.
Arguments GetRunning {A} k.
Arguments Put {A} w k.
Arguments BindScraper {A} k.
Arguments GetScraper {A} k.
Arguments Ask {A X} q k.
Arguments Call {A X} c k.

Fixpoint pbind {A B} (p : prog A) (f : A → prog B) : prog B :=
  match p with
  | Ret a => f a
  | Throw e => Throw e
  | GetRunning k => GetRunning (λ b, pbind (k b) f)
  | Put w k => Put w (pbind k f)
  | BindScraper k => BindScraper (pbind k f)
  | GetScraper k => GetScraper (λ b, pbind (k b) f)
  | Ask q k => Ask q (λ x, pbind (k x) f)
  | Call c k => Call c (λ r, pbind (k r) f)
  end.

(** [try: p / except Exception as e: h e]. *)
Fixpoint try_except {A} (p : prog A) (h : exn → prog A) : prog A :=
  match p with
  | Ret a => Ret a
  | Throw e => h e
  | GetRunning k => GetRunning (λ b, try_except (k b) h)
  | Put w k => Put w (try_except k h)
  | BindScraper k => BindScraper (try_except k h)
  | GetScraper k => GetScraper (λ b, try_except (k b) h)
  | Ask q k => Ask q (λ x, try_except (k x) h)
  | Call c k => Call c (λ r, try_except (k r) h)
  end.

(** [try: p / finally: final]: [final] runs when [p] returns and when it
    raises, and the exception of [p] goes on after it. *)
Fixpoint try_finally {A} (p : prog A) (final : prog unit) : prog A :=
  match p with
  | Ret a => pbind final (λ _, Ret a)
  | Throw e => pbind final (λ _, Throw e)
  | GetRunning k => GetRunning (λ b, try_finally (k b) final)
  | Put w k => Put w (try_finally k final)
  | BindScraper k => BindScraper (try_finally k final)
  | GetScraper k => GetScraper (λ b, try_finally (k b) final)
  | Ask q k => Ask q (λ x, try_finally (k x) final)
  | Call c k => Call c (λ r, try_finally (k r) final)
  end.

(** A value or an exception of a pure computation, inside a worker. *)
Definition lift {A} (r : result A) : prog A :=
  match r with
  | Ok a => Ret a
  | Raise e => Throw e
  end.

Definition put (w : write) : prog unit := Put w (Ret tt).
Definition ask {X} (q : query X) : prog X := Ask q Ret.
Definition call_ {X} (c : call X) : prog X := Call c lift.

Notation "'let*' x ':=' m 'in' k" := (pbind m (λ x, k))
  (at level 10, x name, m at level 100, k at level 200, only parsing).
Notation "m ;; k" := (pbind m (λ _, k))
  (at level 100, k at level 200, right associativity, only parsing).

Definition ZeroDivisionError : exn := Exn "ZeroDivisionError" "division by zero".
Definition UnboundLocalError : exn :=
  Exn "UnboundLocalError" "cannot access local variable 'scraper'".

(** [os.environ[key] = value] needs a [str]. *)
Definition set_environ (key : string) (value : pyval) : prog unit :=
  match value with
  | VStr s => call_ (PutEnv key s)
  | _ => Throw (Exn "TypeError" "str expected")
  end.

(** The local variables of the search loops. *)
Record locals := mkLocals {
  all_profiles : list (gmap string pyval);
  current_search : nat
}.

(** [10 + (current_search / total_keywords) * 70]. *)
Definition search_progress (current_search total_keywords : nat) : result Qc :=
  if bool_decide (total_keywords = 0%nat) then Raise ZeroDivisionError
  else Ok (qc 10 1 + Qc_of_nat current_search / Qc_of_nat total_keywords * qc 70 1).

(** The body of both search loops after the check of the flag. *)
Definition search_iteration (total_keywords : nat) (notice : string)
    (search : call (list (gmap string pyval))) (ℓ : locals)
    (continue : locals → prog locals) : prog locals :=
  put (WMessage notice);;
  let* profiles := call_ search in
  let all_profiles := all_profiles ℓ ++ profiles in
  let current_search := S (current_search ℓ) in
  let* p := lift (search_progress current_search total_keywords) in
  put (WProgress p);;
  put (WFound (length all_profiles));;
  ask (Sleep 2);;
  continue (mkLocals all_profiles current_search).

(** [for keyword in config.SEARCH_KEYWORDS: ...]. *)
Fixpoint keyword_loop (total_keywords : nat) (keywords : list string) (ℓ : locals)
    : prog locals :=
  match keywords with
  | [] => Ret ℓ
  | keyword :: keywords' =>
      GetRunning (λ running,
        if negb running then Ret ℓ
        else search_iteration total_keywords ("Searching: " +:+ keyword)
               (SearchProfiles keyword 2) ℓ (keyword_loop total_keywords keywords'))
  end.

(** [for company in config.TARGET_COMPANIES: ...]. *)
Fixpoint company_loop (total_keywords : nat) (companies : list string) (ℓ : locals)
    : prog locals :=
  match companies with
  | [] => Ret ℓ
  | company :: companies' =>
      GetRunning (λ running,
        if negb running then Ret ℓ
        else search_iteration total_keywords ("Searching company: " +:+ company)
               (SearchByCompany company) ℓ (company_loop total_keywords companies'))
  end.

(** [data_processor.save_profiles_to_csv(profiles)]: nothing is written for
    an empty list, and a failed write is caught and answered by [False]. *)
Definition save_profiles_to_csv (self : DataProcessor.t)
    (σ : gmap nat (gmap string pyval)) (profiles : list nat) : prog bool :=
  if bool_decide (profiles = []) then Ret false
  else Call (ToCsv (output_file self) (deref σ <$> profiles))
         (λ r, Ret (match r with Ok _ => true | Raise _ => false end)).

(** The statements of the worker after the two loops.  The dicts the scraper
    returned are distinct objects. *)
Definition process_profiles (data_processor : DataProcessor.t)
    (all_profiles : list (gmap string pyval)) : prog unit :=
  put (WMessage "Processing and saving profiles...");;
  put (WProgress (qc 80 1));;
  if bool_decide (all_profiles = []) then put (WError "No profiles found during search")
  else
    let '(refs, σ) := alloc_all ∅ all_profiles in
    let* fs := ask FileSystem in
    let existing_df := load_existing_profiles fs data_processor in
    let* deduplicated := lift (deduplicate_profiles fs data_processor σ refs (Some existing_df)) in
    let* filtered_profiles :=
      lift (filter_by_quality deduplicated.2 deduplicated.1
              Config.CONFIDENCE_THRESHOLD Config.MIN_PROFILE_COMPLETENESS) in
    let* sorted := lift (sort_by_quality deduplicated.2 filtered_profiles) in
    let sorted_profiles := sorted.1 in
    let* success := save_profiles_to_csv data_processor sorted.2 sorted_profiles in
    if success then
      let* summary := lift (generate_summary_report sorted.2 sorted_profiles) in
      Call (WriteSummary (export_summary_report summary)) (λ _, Ret tt);;
      put (WMessage ("Successfully saved " +:+ pretty (length sorted_profiles)
                     +:+ " profiles!"));;
      put (WTotal (length sorted_profiles));;
      put (WProgress (qc 100 1))
    else put (WError "Failed to save profiles to CSV").

(** The two loops and what follows them, from any point of the keyword loop
    and of the company loop. *)
Definition from_companies (data_processor : DataProcessor.t) (total_keywords : nat)
    (companies : list string) (ℓ : locals) : prog unit :=
  let* ℓ := company_loop total_keywords companies ℓ in
  process_profiles data_processor (all_profiles ℓ).

Definition from_keywords (data_processor : DataProcessor.t) (total_keywords : nat)
    (keywords : list string) (ℓ : locals) : prog unit :=
  let* ℓ := keyword_loop total_keywords keywords ℓ in
  from_companies data_processor total_keywords Config.TARGET_COMPANIES ℓ.

(** The same, from an iteration whose check of the flag has passed. *)
Definition from_company_search (data_processor : DataProcessor.t) (total_keywords : nat)
    (company : string) (companies : list string) (ℓ : locals) : prog unit :=
  let* ℓ := search_iteration total_keywords ("Searching company: " +:+ company)
              (SearchByCompany company) ℓ (company_loop total_keywords companies) in
  process_profiles data_processor (all_profiles ℓ).

Definition from_keyword_search (data_processor : DataProcessor.t) (total_keywords : nat)
    (keyword : string) (keywords : list string) (ℓ : locals) : prog unit :=
  let* ℓ := search_iteration total_keywords ("Searching: " +:+ keyword)
              (SearchProfiles keyword 2) ℓ (keyword_loop total_keywords keywords) in
  from_companies data_processor total_keywords Config.TARGET_COMPANIES ℓ.

(** The [try] block of [run_scraping]. *)
Definition run_scraping_body (email password : pyval) : prog unit :=
  set_environ "LINKEDIN_EMAIL" email;;
  set_environ "LINKEDIN_PASSWORD" password;;
  call_ NewScraper;;
  BindScraper (Ret tt);;
  let data_processor := DataProcessor.mk Config.OUTPUT_CSV in
  put (WMessage "Logging into LinkedIn...");;
  let* logged_in := call_ Login in
  if negb logged_in then
    put (WError "Failed to login to LinkedIn. Check credentials.");;
    put (WRunning false)
  else
    put (WMessage "Starting comprehensive search...");;
    put (WProgress (qc 10 1));;
    let total_keywords :=
      (length Config.SEARCH_KEYWORDS + length Config.TARGET_COMPANIES)%nat in
    from_keywords data_processor total_keywords Config.SEARCH_KEYWORDS (mkLocals [] 0).

(** [except Exception as e:] and [finally:] of [run_scraping]. *)
Definition run_scraping_except (e : exn) : prog unit :=
  put (WError ("Scraping failed: " +:+ exn_str e)).

Definition run_scraping_finally : prog unit :=
  put (WRunning false);;
  let* now := ask Now in
  put (WEndTime now);;
  GetScraper (λ bound, if bound then call_ Close else Throw UnboundLocalError).

(** A [try] block of the worker under its handlers. *)
Definition guarded (body : prog unit) : prog unit :=
  try_finally (try_except body run_scraping_except) run_scraping_finally.

Definition run_scraping (email password : pyval) : prog unit :=
  guarded (run_scraping_body email password).

(** A worker thread: the rest of its program and whether its local
    [scraper] is bound. *)
Record thread := mkThread {
  code : prog unit;
  scraper_bound : bool
}.

(** The process: the shared status and the threads started so far. *)
Record sys := mkSys {
  job_status : JobStatus;
  threads : list thread
}.

Inductive response :=
| Success (msg : string)
| BadRequest (err : string).

#[export] Instance response_eq_dec : EqDecision response.
Proof. solve_decision. Defined.

(** [POST /start_scraping] with the JSON object [data], at time [now]. *)
Definition start_scraping (data : gmap string pyval) (now : string) (s : sys)
    : response * sys :=
  if running (job_status s) then (BadRequest "Job already running", s)
  else
    let email := default VNone (data !! "email") in
    let password := default VNone (data !! "password") in
    if negb (truthy email) || negb (truthy password)
    then (BadRequest "Email and password required", s)
    else
      (Success "Scraping started successfully",
       mkSys (mkJobStatus true 0 "Initializing scraper..." 0 0 (Some now) None None)
             (threads s ++ [mkThread (run_scraping email password) false])).

(** [GET /status]. *)
Definition get_status (s : sys) : JobStatus := job_status s.

(** [POST /stop_scraping], on the shared status. *)
Definition stop_scraping (st : JobStatus) : response * JobStatus :=
  if running st
  then (Success "Stopping scraper...",
        apply_write (WMessage "Stopping scraper...") (apply_write (WRunning false) st))
  else (BadRequest "No job running", st).

(** The outside world: what it answers at each step of a worker. *)
Record env := mkEnv {
  answer_query : nat → ∀ X, query X → X;
  answer_call : nat → ∀ X, call X → result X
}.

(** A call of a worker with its answer. *)
Inductive obs :=
| Called {X : Type} (c : call X) (r : result X).

(** One step of a worker at step count [n]. *)
Definition step (e : env) (n : nat) (st : JobStatus) (t : thread)
    : JobStatus * thread * list obs :=
  match code t with
  | Ret _ | Throw _ => (st, t, [])
  | GetRunning k => (st, mkThread (k (running st)) (scraper_bound t), [])
  | Put w k => (apply_write w st, mkThread k (scraper_bound t), [])
  | BindScraper k => (st, mkThread k true, [])
  | GetScraper k => (st, mkThread (k (scraper_bound t)) (scraper_bound t), [])
  | Ask q k => (st, mkThread (k (answer_query e n _ q)) (scraper_bound t), [])
  | Call c k =>
      (st, mkThread (k (answer_call e n _ c)) (scraper_bound t),
       [Called c (answer_call e n _ c)])
  end.

(** The state a worker ends in. *)
Record final (A : Type) := mkFinal {
  fin_status : JobStatus;
  fin_outcome : result A;
  fin_bound : bool;
  fin_steps : nat;
  fin_log : list obs
}.
Arguments mkFinal {A} _ _ _ _ _.
Arguments fin_status {A} _.
Arguments fin_outcome {A} _.
Arguments fin_bound {A} _.
Arguments fin_steps {A} _.
Arguments fin_log {A} _.

(** The status a step of a worker finds: [stops n] tells that a stop request
    is served just before step [n]. *)
Definition interfere (stops : nat → bool) (n : nat) (st : JobStatus) : JobStatus :=
  if stops n then (stop_scraping st).2 else st.

(** A worker run to its end. *)
Fixpoint finish {A} (e : env) (stops : nat → bool) (p : prog A) (bound : bool)
    (st : JobStatus) (n : nat) (log : list obs) : final A :=
  let st' := interfere stops n st in
  match p with
  | Ret a => mkFinal st (Ok a) bound n log
  | Throw ex => mkFinal st (Raise ex) bound n log
  | GetRunning k => finish e stops (k (running st')) bound st' (S n) log
  | Put w k => finish e stops k bound (apply_write w st') (S n) log
  | BindScraper k => finish e stops k true st' (S n) log
  | GetScraper k => finish e stops (k bound) bound st' (S n) log
  | Ask q k => finish e stops (k (answer_query e n _ q)) bound st' (S n) log
  | Call c k =>
      finish e stops (k (answer_call e n _ c)) bound st' (S n)
        (log ++ [Called c (answer_call e n _ c)])
  end.

(** The requests and the scheduling of a run of the process. *)
Inductive event :=
| Start (data : gmap string pyval) (now : string)
| Stop
| Step (i : nat).

(** The process after an event, at step count [n] of the outside world. *)
Definition handle (e : env) (n : nat) (ev : event) (s : sys) : sys :=
  match ev with
  | Start data now => (start_scraping data now s).2
  | Stop => mkSys (stop_scraping (job_status s)).2 (threads s)
  | Step i =>
      match threads s !! i with
      | Some t =>
          let '(st, t', _) := step e n (job_status s) t in
          mkSys st (<[i := t']> (threads s))
      | None => s
      end
  end.

Fixpoint run (e : env) (n : nat) (evs : list event) (s : sys) : sys :=
  match evs with
  | [] => s
  | ev :: evs' => run e (S n) evs' (handle e n ev s)
  end.

Definition sys_initial : sys := mkSys job_status_initial [].

End WebApp.
Export WebApp.

(** ** [main.py]: the command-line run

    The methods of [LinkedInScrapingOrchestrator] as programs over the same
    outside world as the worker of the web application; [self.scraper] is the
    scraper variable of the programs.  The pauses between two searches
    ([random_delay]) and the log lines change neither the state nor the
    result: they are left out. *)

Module Orchestrator.

(** [self.initialize()]. *)
Definition initialize : prog bool :=
  try_except
    (call_ NewScraper;;
     BindScraper (Ret tt);;
     let* logged_in := call_ Login in
     if negb logged_in then Ret false else Ret true)
    (λ _, Ret false).

(** The two loops of [self.run_comprehensive_search()]. *)
Fixpoint keyword_searches (keywords : list string)
    (all_profiles : list (gmap string pyval)) : prog (list (gmap string pyval)) :=
  match keywords with
  | [] => Ret all_profiles
  | keyword :: keywords' =>
      let* profiles := call_ (SearchProfiles keyword 2) in
      keyword_searches keywords' (all_profiles ++ profiles)
  end.

Fixpoint company_searches (companies : list string)
    (all_profiles : list (gmap string pyval)) : prog (list (gmap string pyval)) :=
  match companies with
  | [] => Ret all_profiles
  | company :: companies' =>
      let* profiles := call_ (SearchByCompany company) in
      company_searches companies' (all_profiles ++ profiles)
  end.

Definition run_comprehensive_search : prog (list (gmap string pyval)) :=
  try_except
    (let* all_profiles := keyword_searches Config.SEARCH_KEYWORDS [] in
     company_searches Config.TARGET_COMPANIES all_profiles)
    (λ _, Ret []).

(** [self.process_and_save_profiles(profiles)].  The dicts the scraper
    returned are distinct objects. *)
Definition process_and_save_profiles (data_processor : DataProcessor.t)
    (profiles : list (gmap string pyval)) : prog bool :=
  try_except
    (if bool_decide (profiles = []) then Ret false
     else
       let '(refs, σ) := alloc_all ∅ profiles in
       let* fs := ask FileSystem in
       let existing_df := load_existing_profiles fs data_processor in
       let* deduplicated :=
         lift (deduplicate_profiles fs data_processor σ refs (Some existing_df)) in
       let* filtered_profiles :=
         lift (filter_by_quality deduplicated.2 deduplicated.1
                 Config.CONFIDENCE_THRESHOLD Config.MIN_PROFILE_COMPLETENESS) in
       let* sorted := lift (sort_by_quality deduplicated.2 filtered_profiles) in
       let sorted_profiles := sorted.1 in
       let* success := save_profiles_to_csv data_processor sorted.2 sorted_profiles in
       if success then
         let* summary := lift (generate_summary_report sorted.2 sorted_profiles) in
         Call (WriteSummary (export_summary_report summary)) (λ _, Ret true)
       else Ret false)
    (λ _, Ret false).

(** [if self.scraper: self.scraper.close()]. *)
Definition cleanup : prog unit :=
  GetScraper (λ bound, if bound then call_ Close else Ret tt).

(** [self.run()]. *)
Definition run : prog bool :=
  let data_processor := DataProcessor.mk Config.OUTPUT_CSV in
  try_except
    (let* initialized := initialize in
     if negb initialized then Ret false
     else
       let* profiles := run_comprehensive_search in
       if bool_decide (profiles = []) then Ret false
       else
         let* success := process_and_save_profiles data_processor profiles in
         cleanup;;
         Ret success)
    (λ _, cleanup;; Ret false).

End Orchestrator.

(** ** Records and runs the properties are tried on *)

Module Examples.

(** A record with every scored field present and the keyword in its headline. *)
Definition r_full : gmap string pyval :=
  {[ "name" := VStr "Ada"; "headline" := VStr "AI Agent builder";
     "location" := VStr "London";
     "profile_url" := VStr "https://www.linkedin.com/in/ada";
     "company" := VStr "Zapier"; "follower_count" := VInt 1500 ]}.

(** A record that only has its identity key. *)
Definition url_only (s : string) : gmap string pyval := {[ "profile_url" := VStr s ]}.

(** The new records [{url: "b"}, {url: "c"}] as dict objects 0 and 1. *)
Definition heap_bc : gmap nat (gmap string pyval) :=
  {[ 0%nat := url_only "b"; 1%nat := url_only "c" ]}.

(** Three records to filter with the thresholds 0.7 and 0.6: confidence 0.69
    and completeness 0.9; confidence 0.7 and completeness 0.6; no score. *)
Definition scored (confidence completeness : Qc) : gmap string pyval :=
  {[ "confidence_score" := VFloat confidence;
     "profile_completeness" := VFloat completeness ]}.

Definition heap_filter : gmap nat (gmap string pyval) :=
  {[ 0%nat := scored (qc 69 100) (qc 9 10);
     1%nat := scored (qc 7 10) (qc 6 10);
     2%nat := url_only "c" ]}.

(** Records A, B, C (objects 0, 1, 2) of quality 1.2, 1.2 and 0.9. *)
Definition heap_rank : gmap nat (gmap string pyval) :=
  {[ 0%nat := scored (qc 7 10) (qc 5 10);
     1%nat := scored (qc 6 10) (qc 6 10);
     2%nat := scored (qc 5 10) (qc 4 10) ]}.

(** A scraped record as the scraper returns it, with its two scores. *)
Definition r_scored : gmap string pyval :=
  <["profile_completeness" := VFloat (qc 5 6)]>
    (<["confidence_score" := VFloat (qc 19 20)]>
       (<["keyword_matched" := VStr "AI agent"]> r_full)).

(** An outside world where every call succeeds: each keyword search finds
    [r_scored], the company searches find nothing, there is no CSV file yet
    and the clock reads the same time. *)
Definition world : env :=
  mkEnv
    (λ _ X q,
       match q in query X return X with
       | Now => "2024-01-01T00:00:10"%string
       | Sleep _ => tt
       | FileSystem => λ _, None
       end)
    (λ _ X c,
       match c in call X return result X with
       | PutEnv _ _ => Ok tt
       | NewScraper => Ok tt
       | Login => Ok true
       | SearchProfiles _ _ => Ok [r_scored]
       | SearchByCompany _ => Ok []
       | Close => Ok tt
       | ToCsv _ _ => Ok tt
       | WriteSummary _ => Ok tt
       end).

Definition credentials : gmap string pyval :=
  {[ "email" := VStr "ada@example.com"; "password" := VStr "secret" ]}.

(** A job is started, the worker runs through its first keyword, a stop
    request is served and the worker runs to its end. *)
Definition stopped_run : list event :=
  [Start credentials "2024-01-01T00:00:00"] ++ replicate 14 (Step 0)
    ++ [Stop] ++ replicate 20 (Step 0).

(** The status of a job that has searched its first keyword. *)
Definition status_searching : JobStatus :=
  mkJobStatus true (qc 460 39) "Searching: AI agent" 0 1
    (Some "2024-01-01T00:00:00"%string) None None.

(** The same outside world with a scraper whose login raises. *)
Definition world_login_raises : env :=
  mkEnv (answer_query world)
    (λ n X c,
       match c in call X return result X with
       | Login => Raise (Exn "WebDriverException" "chrome not reachable")
       | c' => answer_call world n _ c'
       end).

(** Two scraped records as dict objects 0 and 1. *)
Definition heap_scraped : gmap nat (gmap string pyval) :=
  {[ 0%nat := r_scored;
     1%nat := <["profile_url" := VStr "https://www.linkedin.com/in/bob"]>
                (<["follower_count" := VInt 5000]> r_scored) ]}.

Definition processor : DataProcessor.t := DataProcessor.mk "ai_agent_profiles.csv".

Definition no_file : filesystem := λ _, None.

(** *** A result page *)

(** An element of a result page: a name with stray blanks, a headline, a
    location, a count of followers in its metadata, and no company. *)
Definition ada_element : element :=
  mkElement
    (λ selector,
       if String.eqb selector ".entity-result__title-text" then Ok "  Ada   Lovelace "%string
       else if String.eqb selector ".entity-result__primary-subtitle"
            then Ok "AI agent builder"%string
       else if String.eqb selector ".entity-result__secondary-subtitle" then Ok "London"%string
       else if String.eqb selector ".entity-result__metadata" then Ok "1,500 followers"%string
       else Raise NoSuchElementException)
    (λ _, Ok (VStr "https://www.linkedin.com/in/ada")).

(** The record the scraper makes of it. *)
Definition ada_profile : gmap string pyval :=
  default ∅ (_extract_single_profile ada_element "AI agent" "2024-01-01 00:00:00").

(** A browser whose every page shows this one element. *)
Definition ada_browser : browser :=
  λ _ _, Loaded (Ok [ada_element]) (λ _, "2024-01-01 00:00:00"%string).

(** *** A worker at a check of its flag *)

(** A job that has searched its first keyword: its worker is at the check
    of the flag before the second keyword. *)
Definition sys_at_check : sys :=
  run world 0 ([Start credentials "2024-01-01T00:00:00"] ++ replicate 14 (Step 0))
    sys_initial.

(** What this worker does once it has read the flag. *)
Definition after_check (running : bool) : prog unit :=
  guarded
    (let* ℓ := (if negb running then Ret (mkLocals [r_scored] 1)
                else search_iteration 39 ("Searching: " +:+ "automation specialist")
                       (SearchProfiles "automation specialist" 2) (mkLocals [r_scored] 1)
                       (keyword_loop 39 (drop 2 Config.SEARCH_KEYWORDS))) in
     from_companies (DataProcessor.mk Config.OUTPUT_CSV) 39 Config.TARGET_COMPANIES ℓ).

End Examples.
Export Examples.

(** ** The vocabulary of the specification

    The notions the properties are stated with.  They are defined apart from
    the code: the lemmas of the next part relate them to what the code
    computes. *)

Module Vocabulary.

(** *** Scoring *)

(** A string is blank when it is empty or made of whitespace only. *)
Definition blank (s : string) : Prop :=
  Forall (λ c, isspace c = true) (list_ascii_of_string s).

(** A value that Python takes as true: not [None], not zero, not the empty
    string. *)
Definition has_value (v : pyval) : Prop :=
  match v with
  | VNone => False
  | VStr s => s ≠ ""%string
  | VInt n => n ≠ 0%Z
  | VFloat q => q ≠ 0
  | VNaN => True
  end.

Definition not_blank (v : pyval) : Prop :=
  match v with
  | VStr s => ¬ blank s
  | _ => True
  end.

(** A field is non-empty when the record holds a value for it that Python
    takes as true and that is not a blank string. *)
Definition non_empty_field (r : gmap string pyval) (f : string) : Prop :=
  match r !! f with
  | Some v => has_value v ∧ not_blank v
  | None => False
  end.

#[export] Instance has_value_dec v : Decision (has_value v).
Proof. destruct v; simpl; apply _. Defined.

#[export] Instance not_blank_dec v : Decision (not_blank v).
Proof. destruct v; simpl; unfold blank; apply _. Defined.

#[export] Instance non_empty_field_dec r f : Decision (non_empty_field r f).
Proof. unfold non_empty_field. destruct (r !! f); apply _. Defined.

(** The number of non-empty fields among [fields]. *)
Definition count_non_empty (r : gmap string pyval) (fields : list string) : nat :=
  length (filter (non_empty_field r) fields).






(** *** Deduplication *)

(** The identity key of a record. *)
Definition profile_url (r : gmap string pyval) : option pyval := r !! "profile_url".

(** The precondition of the deduplicator: a non-empty [profile_url]. *)
Definition has_url (r : gmap string pyval) : Prop :=
  ∃ s, profile_url r = Some (VStr s) ∧ s ≠ ""%string.

(** [r] is in [l] and no record before it has its [profile_url]. *)
Definition first_seen (l : list (gmap string pyval)) (r : gmap string pyval) : Prop :=
  ∃ i, l !! i = Some r ∧
       ∀ j r', (j < i)%nat → l !! j = Some r' → profile_url r' ≠ profile_url r.

(** [out] is [l] with only the first record of each [profile_url] kept, in
    the order of [l]. *)
Definition first_seen_wins (l out : list (gmap string pyval)) : Prop :=
  out `sublist_of` l
  ∧ NoDup (profile_url <$> out)
  ∧ (∀ r, r ∈ out → first_seen l r)
  ∧ (∀ r, r ∈ l → ∃ r', r' ∈ out ∧ profile_url r' = profile_url r).

(** The records have the same fields, as the rows of one frame do. *)
Definition same_fields (l : list (gmap string pyval)) : Prop :=
  ∀ r r', r ∈ l → r' ∈ l → dom r = dom r'.

(** *** Quality filter and ranking *)

(** The score stored under [k], a missing score being 0. *)
Definition score_or_zero (r : gmap string pyval) (k : string) : Qc :=
  default 0 (r !! k ≫= as_number).

(** The score under [k] is missing or a number. *)
Definition numeric_score (r : gmap string pyval) (k : string) : Prop :=
  r !! k = None ∨ ∃ v q, r !! k = Some v ∧ as_number v = Some q.

Definition numeric_scores (r : gmap string pyval) : Prop :=
  numeric_score r "confidence_score" ∧ numeric_score r "profile_completeness".

(** A record passes when both scores reach their thresholds. *)
Definition passes (min_confidence min_completeness : Qc) (r : gmap string pyval) : Prop :=
  min_confidence ≤ score_or_zero r "confidence_score"
  ∧ min_completeness ≤ score_or_zero r "profile_completeness".

#[export] Instance passes_dec c p r : Decision (passes c p r).
Proof. unfold passes. apply _. Defined.

(** The quality of a record once ranked: the number under [quality_score]. *)
Definition quality (σ : gmap nat (gmap string pyval)) (a : nat) : Qc :=
  score_or_zero (deref σ a) "quality_score".

(** *** Job controller *)

(** No stop request during the run of a worker. *)
Definition never : nat → bool := λ _, false.

Definition stop_notice : string := "Stopping scraper...".

(** The messages the worker writes after its loops. *)
Definition saved_message (s : string) : Prop :=
  s = "Processing and saving profiles..."%string
  ∨ ∃ k : nat, s = ("Successfully saved " +:+ pretty k +:+ " profiles!")%string.

(** A call that is not a search of the scraper. *)
Definition not_search (X : Type) (c : call X) : Prop :=
  match c with
  | SearchProfiles _ _ | SearchByCompany _ => False
  | _ => True
  end.

Definition obs_in (C : ∀ X, call X → Prop) (o : obs) : Prop :=
  match o with
  | Called c _ => C _ c
  end.

(** A worker stopped at a check of its flag, once through its handlers:
    the flag is down, the count of found profiles is the one of [st], the
    end time is set, the message is one of a saved job and the calls made
    since [log] are no searches. *)
Definition stopped_exit (e : env) (st : JobStatus) (log : list obs) (r : final unit)
    : Prop :=
  running (fin_status r) = false
  ∧ found_profiles (fin_status r) = found_profiles st
  ∧ (∃ m, end_time (fin_status r) = Some (answer_query e m _ Now))
  ∧ saved_message (message (fin_status r))
  ∧ ∃ new, fin_log r = log ++ new ∧ Forall (obs_in not_search) new.

(** The count of found profiles after the search in flight: the search adds
    what it finds, unless it raises (or the progress cannot be computed). *)
Definition found_after (total : nat) (ℓ : locals) (st : JobStatus)
    (answer : result (list (gmap string pyval))) : nat :=
  match answer with
  | Ok profiles =>
      if bool_decide (total = 0%nat) then found_profiles st
      else length (all_profiles ℓ ++ profiles)
  | Raise _ => found_profiles st
  end.

(** *** Notions of the proofs *)

(** The cell of a row in column [k]. *)
Definition cell (k : string) (r : gmap string pyval) : pyval := default VNaN (r !! k).

(** The value the loop of [sort_by_quality] stores into a record. *)
Definition quality_of (r : gmap string pyval) : pyval :=
  match py_add (default (VInt 0) (r !! "confidence_score"))
               (default (VInt 0) (r !! "profile_completeness")) with
  | Ok v => v
  | Raise _ => VNone
  end.

Definition augment (r : gmap string pyval) : gmap string pyval :=
  <["quality_score" := quality_of r]> r.

(** [p] only makes writes of [W] and calls of [C] on the paths it takes
    when every read of the flag finds it false. *)
Fixpoint within {A} (W : write → Prop) (C : ∀ X, call X → Prop) (p : prog A) : Prop :=
  match p with
  | Ret _ | Throw _ => True
  | GetRunning k => within W C (k false)
  | Put w k => W w ∧ within W C k
  | BindScraper k => within W C k
  | GetScraper k => ∀ b, within W C (k b)
  | Ask q k => ∀ x, within W C (k x)
  | Call c k => C _ c ∧ ∀ r, within W C (k r)
  end.

(** The writes of the worker after its loops, before its [finally] block. *)
Definition late_write (w : write) : Prop :=
  match w with
  | WMessage s => saved_message s
  | WProgress _ | WTotal _ | WError _ => True
  | WRunning _ | WFound _ | WEndTime _ => False
  end.

(** The status and the step count after the [try] block and its [except]
    clause. *)
Definition after_except (stops : nat → bool) (rb : final unit) : JobStatus :=
  match fin_outcome rb with
  | Ok _ => fin_status rb
  | Raise ex =>
      apply_write (WError ("Scraping failed: " +:+ exn_str ex))
        (interfere stops (fin_steps rb) (fin_status rb))
  end.

Definition steps_after_except (rb : final unit) : nat :=
  match fin_outcome rb with
  | Ok _ => fin_steps rb
  | Raise _ => S (fin_steps rb)
  end.

(** What a worker that is past its loops leaves, the flag being down. *)
Definition stopped_end (st : JobStatus) (log : list obs) (r : final unit) : Prop :=
  running (fin_status r) = false
  ∧ found_profiles (fin_status r) = found_profiles st
  ∧ end_time (fin_status r) = end_time st
  ∧ saved_message (message (fin_status r))
  ∧ ∃ new, fin_log r = log ++ new ∧ Forall (obs_in not_search) new.

(** *** Text, counts and patterns *)

Import Re.

(** *** Text *)

(** A string of decimal digits, and a string without one. *)
Definition digits (s : string) : Prop :=
  Forall (λ c, isdigit c = true) (list_ascii_of_string s).

Definition digit_free (s : string) : Prop :=
  Forall (λ c, isdigit c = false) (list_ascii_of_string s).

(** The number a string of digits writes. *)
Definition decimal (s : string) : Z :=
  foldl (λ n c, 10 * n + (Z.of_nat (nat_of_ascii c) - 48))%Z 0%Z (list_ascii_of_string s).

(** The strings of a list, one after the other. *)
Definition chain (ws : list string) : string := foldr String.append ""%string ws.

(** A count written with separators: a first group [d] and the groups
    [groups], each after a comma. *)
Definition grouped (d : string) (groups : list string) : string :=
  (d ++ chain ((λ g, String "," g) <$> groups))%string.

(** The words a regular expression matches. *)
Fixpoint lang (r : regex) (w : string) : Prop :=
  match r with
  | Chr c => w = String c ""
  | Lit p => w = p
  | Digit => ∃ c, isdigit c = true ∧ w = String c ""
  | Space => ∃ c, isspace c = true ∧ w = String c ""
  | Seq r1 r2 => ∃ w1 w2, w = (w1 ++ w2)%string ∧ lang r1 w1 ∧ lang r2 w2
  | Repeat lo hi r' =>
      ∃ ws, w = chain ws ∧ (lo ≤ length ws ≤ hi)%nat ∧ Forall (lang r') ws
  | Star r' => ∃ ws, w = chain ws ∧ Forall (lang r') ws
  | Group r' => lang r' w
  end.

(** A regular expression without a capturing group. *)
Fixpoint groupless (r : regex) : bool :=
  match r with
  | Group _ => false
  | Seq r1 r2 => groupless r1 && groupless r2
  | Repeat _ _ r' | Star r' => groupless r'
  | _ => true
  end.

(** The count of the three patterns, and the pattern of a unit. *)
Definition count_digits : regex :=
  Seq (Repeat 1 3 Digit) (Star (Seq (Chr ",") (Repeat 3 3 Digit))).

Definition unit_suffix (unit : string) : regex :=
  Seq (Star Space) (Seq (Lit unit) (Opt (Chr "s"))).

Definition count_pattern (unit : string) : regex :=
  Seq (Group count_digits) (unit_suffix unit).

(** What a successful run of a matcher tells: it has consumed a word of the
    language, and the continuation has succeeded on the rest. *)
Definition consumes {A}
    (body : option string → string → (option string → string → option A) → option A)
    (L : string → Prop) (keeps : bool) : Prop :=
  ∀ (g : option string) (s : string) (k : option string → string → option A) (a : A),
    body g s k = Some a →
    ∃ w s' g', s = (w ++ s')%string ∧ L w ∧ k g' s' = Some a ∧ (keeps = true → g' = g).

(** The first character of [s] satisfies [P]. *)
Definition head_is (P : ascii → bool) (s : string) : bool :=
  match s with
  | String c _ => P c
  | EmptyString => false
  end.

(** A string of digits and commas. *)
Definition numeral (s : string) : Prop :=
  Forall (λ c, isdigit c = true ∨ c = ","%char) (list_ascii_of_string s).

(** A group of three digits. *)
Definition triple (s : string) : Prop := digits s ∧ String.length s = 3%nat.

(** The text with its whitespace taken out. *)
Fixpoint unspaced (s : string) : string :=
  match s with
  | EmptyString => EmptyString
  | String c s' => if isspace c then unspaced s' else String c (unspaced s')
  end.

(** Every whitespace character is a space that a character which is not
    whitespace follows. *)
Fixpoint spaced (s : string) : Prop :=
  match s with
  | EmptyString => True
  | String c s' =>
      (isspace c = true → c = " "%char ∧ head_is (λ c', negb (isspace c')) s' = true)
      ∧ spaced s'
  end.

(** [re.sub(r'\s+', ' ', s)], by recursion on [s]: of a run of whitespace
    the last character is kept, as a space. *)
Fixpoint squeeze (s : string) : string :=
  match s with
  | EmptyString => EmptyString
  | String c s' =>
      if isspace c
      then if head_is isspace s' then squeeze s' else String " " (squeeze s')
      else String c (squeeze s')
  end.

(** The characters of a string. *)
Definition chars (s : string) : list ascii := list_ascii_of_string s.

(** *** Records of the scraper *)

(** The follower count of a record is an integer of the target range. *)
Definition count_in_range (r : gmap string pyval) : Prop :=
  ∃ n, r !! "follower_count" = Some (VInt n)
       ∧ (Config.MIN_FOLLOWERS ≤ n ≤ Config.MAX_FOLLOWERS)%Z.

(** The record holds both scores, as floats. *)
Definition scored_record (r : gmap string pyval) : Prop :=
  ∃ c p, r !! "confidence_score" = Some (VFloat c)
         ∧ r !! "profile_completeness" = Some (VFloat p).

(** The ten fields of a record of the scraper. *)
Definition scraped_fields : gset string :=
  {[ "name"; "headline"; "location"; "profile_url"; "company"; "follower_count";
     "keyword_matched"; "confidence_score"; "profile_completeness"; "scraped_date" ]}%string.

(** A record the scraper lets through: the ten fields, the keyword of its
    search, a LinkedIn profile URL, a follower count of the target range and
    scores that reach the thresholds. *)
Definition target_profile (keyword : string) (p : gmap string pyval) : Prop :=
  dom p = scraped_fields
  ∧ p !! "keyword_matched" = Some (VStr keyword)
  ∧ (∃ url, p !! "profile_url" = Some (VStr url) ∧ is_valid_profile_url url = true)
  ∧ count_in_range p
  ∧ scored_record p
  ∧ passes Config.CONFIDENCE_THRESHOLD Config.MIN_PROFILE_COMPLETENESS p.

(** *** The rows of the file *)

(** What a call hands to the CSV writer: the path and the rows. *)
Definition csv_rows (o : obs) : option (string * list (gmap string pyval)) :=
  match o with
  | Called c _ =>
      match c with
      | ToCsv path rows => Some (path, rows)
      | _ => None
      end
  end.

(** The sum of the two scores of a record, a missing score being 0. *)
Definition total_score (r : gmap string pyval) : Qc :=
  score_or_zero r "confidence_score" + score_or_zero r "profile_completeness".

(** Rows fit for the file: there is one at least, no two of them have the
    same [profile_url], each reaches the two thresholds of the configuration
    and they come by decreasing sum of their scores. *)
Definition clean_rows (rows : list (gmap string pyval)) : Prop :=
  rows ≠ []
  ∧ NoDup (cell "profile_url" <$> rows)
  ∧ Forall (passes Config.CONFIDENCE_THRESHOLD Config.MIN_PROFILE_COMPLETENESS) rows
  ∧ StronglySorted (λ r1 r2, total_score r2 ≤ total_score r1) rows.

(** *** The summary *)

(** The value under [k] is a number or is null: the field is missing, or
    holds [None] or [nan]. *)
Definition number_or_null (r : gmap string pyval) (k : string) : Prop :=
  match r !! k with
  | Some v => isna v = true ∨ is_Some (as_number v)
  | None => True
  end.

(** A number from [lo] to [hi], [hi] included when [closed]. *)
Definition number_in (lo hi : Z) (closed : bool) (v : pyval) : bool :=
  match as_number v with
  | Some q =>
      bool_decide (Qc_of_Z lo ≤ q)
      && (if closed then bool_decide (q ≤ Qc_of_Z hi) else bool_decide (q < Qc_of_Z hi))
  | None => false
  end.

(** The follower count of a record is a number from [lo] to [hi], both
    included. *)
Definition followers_within (lo hi : Z) (r : gmap string pyval) : Prop :=
  number_in lo hi true (cell "follower_count" r) = true.

#[export] Instance followers_within_dec lo hi r : Decision (followers_within lo hi r).
Proof. unfold followers_within. apply _. Defined.

(** *** The command-line run *)

(** A search of the scraper, and a call that does not close it. *)
Definition search_call (X : Type) (c : call X) : Prop :=
  match c with
  | SearchProfiles _ _ | SearchByCompany _ => True
  | _ => False
  end.

Definition not_close (X : Type) (c : call X) : Prop :=
  match c with
  | Close => False
  | _ => True
  end.

(** A call that neither writes the CSV file nor closes the scraper. *)
Definition no_write_no_close (X : Type) (c : call X) : Prop :=
  match c with
  | Close | ToCsv _ _ => False
  | _ => True
  end.

End Vocabulary.
Export Vocabulary.

(** * Properties *)

(** ** Strings *)

Section strings.

Lemma blank_nil : blank "".
Proof. constructor. Qed.

Lemma blank_cons c s : blank (String c s) ↔ isspace c = true ∧ blank s.
Proof. unfold blank. simpl. apply (Forall_cons (λ c, isspace c = true)). Qed.

Lemma lstrip_blank s : blank (lstrip s) ↔ blank s.
Proof.
  induction s as [|c s IH]; simpl; [done|].
  destruct (isspace c) eqn:Hc; [|done].
  rewrite IH, blank_cons. tauto.
Qed.

Lemma rstrip_empty s : rstrip s = "" ↔ blank s.
Proof.
  induction s as [|c s IH]; simpl.
  - split; [intros _; apply blank_nil|done].
  - rewrite blank_cons, <-IH.
    destruct (rstrip s); destruct (isspace c); intuition congruence.
Qed.

Lemma strip_empty s : strip s = "" ↔ blank s.
Proof. unfold strip. by rewrite rstrip_empty, lstrip_blank. Qed.



End strings.

(** ** Scoring ([utils.py]) *)

Section scoring.

Implicit Types (r : gmap string pyval) (v : pyval).

Lemma truthy_has_value v : truthy v = true ↔ has_value v.
Proof.
  destruct v; simpl; try done.
  - rewrite negb_true_iff, <-not_true_iff_false, String.eqb_eq. done.
  - rewrite negb_true_iff, Z.eqb_neq. done.
  - rewrite negb_true_iff, bool_decide_eq_false. done.
Qed.

Lemma field_counts_spec r f : field_counts r f = true ↔ non_empty_field r f.
Proof.
  unfold field_counts, non_empty_field.
  destruct (r !! f) as [v|]; [|done].
  rewrite andb_true_iff, truthy_has_value.
  assert (str_strip_truthy v = true ↔ not_blank v) as ->; [|done].
  destruct v; simpl; try done.
  by rewrite negb_true_iff, <-not_true_iff_false, String.eqb_eq, strip_empty.
Qed.

Lemma count_non_empty_cons r f fields :
  count_non_empty r (f :: fields) =
    ((if field_counts r f then 1 else 0) + count_non_empty r fields)%nat.
Proof.
  unfold count_non_empty. rewrite filter_cons.
  destruct (decide (non_empty_field r f)) as [H|H].
  - apply field_counts_spec in H as ->. done.
  - rewrite <-field_counts_spec in H. apply not_true_is_false in H as ->. done.
Qed.




End scoring.

Lemma completeness_formula (r : gmap string pyval) :
  calculate_profile_completeness r =
    (Qc_of_nat (count_non_empty r required_fields) * 1 +
     Qc_of_nat (count_non_empty r optional_fields) * qc 1 2) / Qc_of_nat 6
  ∧ 0 ≤ calculate_profile_completeness r ≤ qc 5 6.
Proof.
  unfold calculate_profile_completeness, required_fields, optional_fields.
  rewrite !count_non_empty_cons. unfold count_non_empty. rewrite filter_nil.
  cbn [foldl length].
  destruct (field_counts r "name"), (field_counts r "headline"),
    (field_counts r "location"), (field_counts r "profile_url"),
    (field_counts r "company"), (field_counts r "follower_count");
    (split; [|split]); compute_done.
Qed.

Lemma completeness_of_counts (r : gmap string pyval) (b : bool) :
  (∀ f, f ∈ required_fields ++ optional_fields → field_counts r f = b) →
  calculate_profile_completeness r = if b then qc 5 6 else 0.
Proof.
  intros H. unfold calculate_profile_completeness, required_fields, optional_fields.
  cbn [foldl length].
  rewrite !H by (unfold required_fields, optional_fields; set_solver).
  destruct b; compute_done.
Qed.

(** C3, as amended.  The completeness of a record is the number of its
    non-empty required fields (name, headline, location, profile_url) plus
    half the number of its non-empty optional fields (company,
    follower_count), over 6, a field being non-empty when its value is taken
    as true by Python and is not a blank string.  It lies between 0 and 1; it
    is 0 for a record with no non-empty field and 5/6 for a record with all
    six.  The function is a function of the record only. *)
Theorem completeness_spec (r : gmap string pyval) :
  calculate_profile_completeness r =
    (Qc_of_nat (count_non_empty r required_fields) * 1 +
     Qc_of_nat (count_non_empty r optional_fields) * qc 1 2) / Qc_of_nat 6
  ∧ 0 ≤ calculate_profile_completeness r ≤ 1
  ∧ ((∀ f, f ∈ required_fields ++ optional_fields → ¬ non_empty_field r f) →
     calculate_profile_completeness r = 0)
  ∧ ((∀ f, f ∈ required_fields ++ optional_fields → non_empty_field r f) →
     calculate_profile_completeness r = qc 5 6).
Proof.
  destruct (completeness_formula r) as (Hf & H0 & H1). split_and!; [done|done| | |].
  - trans (qc 5 6); [done|compute_done].
  - intros H. apply (completeness_of_counts r false). intros f Hf'.
    apply not_true_is_false. rewrite field_counts_spec. by apply H.
  - intros H. apply (completeness_of_counts r true). intros f Hf'.
    rewrite field_counts_spec. by apply H.
Qed.

Lemma completeness_spec_witness :
  (∀ f, f ∈ required_fields ++ optional_fields → ¬ non_empty_field ∅ f)
  ∧ calculate_profile_completeness ∅ = 0
  ∧ (∀ f, f ∈ required_fields ++ optional_fields → non_empty_field r_full f)
  ∧ calculate_profile_completeness r_full = qc 5 6.
Proof.
  assert (∀ f, f ∈ required_fields ++ optional_fields → ¬ non_empty_field ∅ f) as Hnone.
  { apply Forall_forall. compute_done. }
  assert (∀ f, f ∈ required_fields ++ optional_fields → non_empty_field r_full f) as Hall.
  { apply Forall_forall. compute_done. }
  split_and!; [done| |done|].
  - exact (proj1 (proj2 (proj2 (completeness_spec ∅))) Hnone).
  - exact (proj2 (proj2 (proj2 (completeness_spec r_full))) Hall).
Defined.

(** C3 as stated fails: a record with all six fields present has
    completeness 5/6, not 1. *)
Lemma completeness_full_is_not_one :
  (∀ f, f ∈ required_fields ++ optional_fields → non_empty_field r_full f)
  ∧ calculate_profile_completeness r_full = qc 5 6
  ∧ calculate_profile_completeness r_full ≠ 1.
Proof.
  split_and!; [|compute_done..].
  apply Forall_forall. compute_done.
Qed.



(** ** Deduplication ([DataProcessor.deduplicate_profiles]) *)

Section dedup.

Implicit Types (r : gmap string pyval) (σ : gmap nat (gmap string pyval)).

Lemma alloc_all_spec σ rows refs σ' :
  alloc_all σ rows = (refs, σ') →
  σ ⊆ σ' ∧ deref σ' <$> refs = rows ∧ (∀ a, a ∈ refs → σ !! a = None).
Proof.
  revert σ refs σ'. induction rows as [|r rows IH]; intros σ refs σ'; simpl.
  - intros [= <- <-]. split_and!; [done..|]. by intros a Ha%elem_of_nil.
  - destruct (alloc_all _ rows) as [refs0 σ0] eqn:Ha. intros [= <- <-].
    destruct (IH _ _ _ Ha) as (Hsub & Hrows & Hfresh).
    assert (σ !! fresh (dom σ) = None) as Hnew.
    { apply not_elem_of_dom, is_fresh. }
    split_and!.
    + trans (<[fresh (dom σ) := r]> σ); [by apply insert_subseteq|done].
    + rewrite fmap_cons, Hrows. f_equal. unfold deref.
      by rewrite (lookup_weaken _ _ _ _ (lookup_insert_eq σ _ r) Hsub).
    + intros a [->|Ha']%elem_of_cons; [done|].
      specialize (Hfresh a Ha'). by apply lookup_insert_None in Hfresh as [? _].
Qed.

Lemma reindex_lookup_Some cols r k v : r !! k = Some v → reindex cols r !! k = Some v.
Proof. intros H. unfold reindex. by apply lookup_union_Some_l. Qed.

Lemma reindex_reindex cols cols' r :
  cols' ⊆ cols → reindex cols (reindex cols' r) = reindex cols r.
Proof.
  intros Hsub. unfold reindex. rewrite <-(assoc_L (∪)). f_equal.
  apply map_eq. intros k. rewrite lookup_union, !lookup_gset_to_gmap.
  destruct (decide (k ∈ cols')) as [Hk|Hk].
  - rewrite !option_guard_True by set_solver. done.
  - rewrite (option_guard_False (k ∈ cols')) by done. by rewrite (left_id_L None _).
Qed.

Lemma reindex_id cols r : dom r = cols → reindex cols r = r.
Proof.
  intros <-. unfold reindex. apply map_eq. intros k. rewrite lookup_union.
  rewrite lookup_gset_to_gmap. destruct (r !! k) as [v|] eqn:Hk; simpl.
  - by destruct (guard _).
  - rewrite option_guard_False; [done|]. by apply not_elem_of_dom.
Qed.

Lemma has_url_reindex cols r : has_url r → has_url (reindex cols r).
Proof.
  intros (s & Hs & ?). exists s. split; [|done]. by apply reindex_lookup_Some.
Qed.

(** The combined frame of the deduplicator is the frame of [existing ++ new]. *)
Lemma combined_frame (existing news : list (gmap string pyval)) :
  Forall has_url existing →
  (if negb (empty (DataFrame_of_records existing))
   then concat (DataFrame_of_records existing) (DataFrame_of_records news)
   else DataFrame_of_records news)
  = DataFrame_of_records (existing ++ news).
Proof.
  intros He. unfold DataFrame_of_records, concat, empty. cbn [df_rows df_columns].
  destruct existing as [|e existing].
  - rewrite bool_decide_eq_true_2 by done. done.
  - rewrite bool_decide_eq_false_2 by done.
    rewrite bool_decide_eq_false_2.
    2:{ apply Forall_cons_1 in He as [(s & Hs & _) _].
        rewrite fmap_cons, union_list_cons.
        assert ("profile_url"%string ∈ dom e) by (apply elem_of_dom; eauto).
        set_solver. }
    cbn [negb orb]. rewrite (fmap_app dom), union_list_app_L. f_equal.
    rewrite !fmap_app, <-!list_fmap_compose. f_equal.
    + apply list_fmap_ext. intros _ r _. simpl. apply reindex_reindex, union_subseteq_l.
    + apply list_fmap_ext. intros _ r _. simpl. apply reindex_reindex, union_subseteq_r.
Qed.

Lemma first_occurrences_spec k seen rows :
  first_occurrences k seen rows `sublist_of` rows
  ∧ NoDup (cell k <$> first_occurrences k seen rows)
  ∧ (∀ r, r ∈ first_occurrences k seen rows → cell k r ∉ seen)
  ∧ (∀ r, r ∈ first_occurrences k seen rows →
       ∃ i, rows !! i = Some r ∧
            ∀ j r', (j < i)%nat → rows !! j = Some r' → cell k r' ≠ cell k r)
  ∧ (∀ r, r ∈ rows →
       cell k r ∈ seen ∨ ∃ r', r' ∈ first_occurrences k seen rows ∧ cell k r' = cell k r).
Proof.
  revert seen. induction rows as [|r0 rows IH]; intros seen; simpl.
  { split_and!; [done|constructor|by intros ? ?%elem_of_nil..]. }
  fold (cell k r0). case_bool_decide as Hseen.
  - destruct (IH seen) as (Hsub & Hnd & Hout & Hfirst & Hcov). split_and!.
    + by apply sublist_cons.
    + done.
    + done.
    + intros r Hr. destruct (Hfirst r Hr) as (i & Hi & Hbefore).
      exists (S i). split; [done|]. intros [|j] r' Hj Hr'; simpl in Hr'.
      * injection Hr' as <-. intros Heq. apply (Hout r Hr). by rewrite <-Heq.
      * apply (Hbefore j); [lia|done].
    + intros r [->|Hr]%elem_of_cons; [by left|by apply Hcov].
  - destruct (IH (cell k r0 :: seen)) as (Hsub & Hnd & Hout & Hfirst & Hcov). split_and!.
    + by apply sublist_skip.
    + rewrite fmap_cons. constructor; [|done].
      intros (r & Heq & Hr)%list_elem_of_fmap. apply (Hout r Hr). rewrite <-Heq. by left.
    + intros r [->|Hr]%elem_of_cons; [done|].
      intros Hin. apply (Hout r Hr). by right.
    + intros r [->|Hr]%elem_of_cons.
      * exists 0%nat. split; [done|]. intros; lia.
      * destruct (Hfirst r Hr) as (i & Hi & Hbefore).
        exists (S i). split; [done|]. intros [|j] r' Hj Hr'; simpl in Hr'.
        -- injection Hr' as <-. intros Heq. apply (Hout r Hr). rewrite <-Heq. by left.
        -- apply (Hbefore j); [lia|done].
    + intros r [->|Hr]%elem_of_cons.
      * right. exists r0. split; [by left|done].
      * destruct (Hcov r Hr) as [[Heq|Hin]%elem_of_cons|(r' & Hr' & Heq)].
        -- right. exists r0. split; [by left|done].
        -- by left.
        -- right. exists r'. split; [by right|done].
Qed.

Lemma has_url_cell r : has_url r → profile_url r = Some (cell "profile_url" r).
Proof. intros (s & Hs & _). unfold cell, profile_url in *. by rewrite Hs. Qed.

Lemma first_occurrences_first_seen_wins rows :
  Forall has_url rows →
  first_seen_wins rows (first_occurrences "profile_url" [] rows).
Proof.
  intros Hurl.
  destruct (first_occurrences_spec "profile_url" [] rows)
    as (Hsub & Hnd & _ & Hfirst & Hcov).
  assert (∀ r, r ∈ rows → has_url r) as Hrows by (by apply Forall_forall).
  assert (∀ r, r ∈ first_occurrences "profile_url" [] rows → has_url r) as Hout.
  { intros r Hr. by eapply Hrows, elem_of_sublist. }
  unfold first_seen_wins. split_and!.
  - done.
  - rewrite (list_fmap_ext profile_url (Some ∘ cell "profile_url") _).
    + rewrite list_fmap_compose. apply (NoDup_fmap_2 _). done.
    + intros i r Hr. simpl. apply has_url_cell, Hout. by eapply list_elem_of_lookup_2.
  - intros r Hr. destruct (Hfirst r Hr) as (i & Hi & Hbefore). exists i. split; [done|].
    intros j r' Hj Hr'. rewrite (has_url_cell r) by auto.
    rewrite (has_url_cell r') by (eapply Hrows, list_elem_of_lookup_2; eauto).
    intros [= Heq]. by apply (Hbefore j r').
  - intros r Hr. destruct (Hcov r Hr) as [Hin%elem_of_nil|(r' & Hr' & Heq)]; [done|].
    exists r'. split; [done|]. rewrite !has_url_cell by auto. by f_equal.
Qed.

Lemma same_fields_of_dom l (cols : gset string) :
  Forall (λ r, dom r = cols) l → same_fields l.
Proof.
  intros H r r' Hr Hr'. rewrite Forall_forall in H. by rewrite (H r), (H r').
Qed.

Lemma same_fields_rows l : same_fields l → df_rows (DataFrame_of_records l) = l.
Proof.
  intros Hl. unfold DataFrame_of_records. cbn [df_rows].
  trans (id <$> l); [|apply list_fmap_id]. apply list_fmap_ext. intros i r Hr. simpl.
  apply reindex_id. apply list_elem_of_lookup_2 in Hr.
  apply set_eq. intros k. rewrite elem_of_union_list. split.
  - intros Hk. exists (dom r). split; [|done]. apply list_elem_of_fmap. eauto.
  - intros (X & (r' & -> & Hr')%list_elem_of_fmap & Hk). by rewrite (Hl r r').
Qed.


Lemma frame_rows_has_url l :
  Forall has_url l → Forall has_url (df_rows (DataFrame_of_records l)).
Proof.
  intros H. unfold DataFrame_of_records. cbn [df_rows]. apply Forall_fmap.
  eapply Forall_impl; [exact H|]. intros r Hr. by apply has_url_reindex.
Qed.


(** One run of the deduplicator on a non-empty list of new records. *)
Lemma dedup_run fs self σ (new_profiles : list nat) (existing : list (gmap string pyval)) :
  new_profiles ≠ [] →
  Forall has_url (existing ++ (deref σ <$> new_profiles)) →
  ∃ out σ',
    deduplicate_profiles fs self σ new_profiles (Some (DataFrame_of_records existing))
      = Ok (out, σ')
    ∧ σ ⊆ σ'
    ∧ deref σ' <$> out =
        first_occurrences "profile_url" []
          (df_rows (DataFrame_of_records (existing ++ (deref σ <$> new_profiles)))).
Proof.
  intros Hne Hurl. unfold deduplicate_profiles.
  rewrite bool_decide_eq_false_2 by done.
  rewrite combined_frame by (by apply Forall_app in Hurl as [? _]).
  unfold drop_duplicates. rewrite bool_decide_eq_true_2.
  2:{ destruct new_profiles as [|a new_profiles]; [done|].
      apply Forall_app in Hurl as [_ [(s & Hs & _) _]%Forall_cons_1].
      unfold DataFrame_of_records. cbn [df_columns].
      rewrite fmap_app, union_list_app_L, !fmap_cons, union_list_cons.
      assert ("profile_url"%string ∈ dom (deref σ a)) by (apply elem_of_dom; eauto).
      do 2 (apply elem_of_union; try (by left); right). }
  cbn [bind to_dict_records df_rows].
  destruct (alloc_all σ _) as [out σ'] eqn:Ha.
  destruct (alloc_all_spec _ _ _ _ Ha) as (Hsub & Hrows & _).
  by exists out, σ'.
Qed.





End dedup.

(** ** Quality filter ([DataProcessor.filter_by_quality]) *)

Section quality.

Implicit Types (r : gmap string pyval) (σ : gmap nat (gmap string pyval)).

Lemma py_ge_score r k (m : Qc) :
  numeric_score r k →
  py_ge (default (VInt 0) (r !! k)) (VFloat m) = Ok (bool_decide (m ≤ score_or_zero r k)).
Proof.
  unfold score_or_zero. intros [->|(v & q & -> & Hq)]; simpl.
  - by rewrite Z2Qc_inj_0.
  - destruct v; simplify_eq/=; done.
Qed.

Lemma filter_loop σ (min_confidence min_completeness : Qc) profiles acc :
  (∀ a, a ∈ profiles → numeric_scores (deref σ a)) →
  for_each
    (λ filtered_profiles profile,
       let confidence := default (VInt 0) (deref σ profile !! "confidence_score") in
       let completeness := default (VInt 0) (deref σ profile !! "profile_completeness") in
       c1 ← py_ge confidence (VFloat min_confidence);
       c ← (if c1 then py_ge completeness (VFloat min_completeness) else Ok false);
       Ok (if c then filtered_profiles ++ [profile] else filtered_profiles))
    acc profiles
  = Ok (acc ++ filter (λ a, passes min_confidence min_completeness (deref σ a)) profiles).
Proof.
  revert acc. induction profiles as [|a profiles IH]; intros acc Hnum; simpl.
  { by rewrite app_nil_r. }
  destruct (Hnum a) as [Hc Hp]; [by left|].
  rewrite (py_ge_score _ _ _ Hc). cbn [bind].
  rewrite filter_cons. unfold passes at 2.
  case_bool_decide as Hconf.
  - rewrite (py_ge_score _ _ _ Hp). cbn [bind]. case_bool_decide as Hcomp.
    + rewrite decide_True by done. rewrite IH by (intros; apply Hnum; by right).
      by rewrite <-app_assoc.
    + rewrite decide_False by tauto. apply IH. intros; apply Hnum; by right.
  - cbn [bind]. rewrite decide_False by tauto. apply IH. intros; apply Hnum; by right.
Qed.

End quality.

(** ** Ranking ([DataProcessor.sort_by_quality]) *)

Section ranking.

Implicit Types (r : gmap string pyval) (σ : gmap nat (gmap string pyval)).

Lemma score_or_zero_number r k :
  numeric_score r k → as_number (default (VInt 0) (r !! k)) = Some (score_or_zero r k).
Proof.
  unfold score_or_zero. intros [->|(v & q & -> & Hq)]; simpl.
  - by rewrite Z2Qc_inj_0.
  - by rewrite Hq.
Qed.

Lemma py_add_numbers v w p q :
  as_number v = Some p → as_number w = Some q →
  ∃ x, py_add v w = Ok x ∧ as_number x = Some (p + q).
Proof.
  intros Hv Hw. destruct v, w; simplify_eq/=; eexists; (split; [done|]); simpl; try done.
  by rewrite Z2Qc_inj_add.
Qed.

Lemma quality_of_number r :
  numeric_scores r →
  py_add (default (VInt 0) (r !! "confidence_score"))
         (default (VInt 0) (r !! "profile_completeness")) = Ok (quality_of r)
  ∧ as_number (quality_of r) =
      Some (score_or_zero r "confidence_score" + score_or_zero r "profile_completeness").
Proof.
  intros [Hc Hp]. unfold quality_of.
  destruct (py_add_numbers _ _ _ _ (score_or_zero_number _ _ Hc) (score_or_zero_number _ _ Hp))
    as (x & Hadd & Hx).
  rewrite Hadd. by split.
Qed.

Lemma augment_scores r k : k ≠ "quality_score"%string → augment r !! k = r !! k.
Proof. intros Hk. unfold augment. by rewrite lookup_insert_ne. Qed.

Lemma quality_of_augment r : quality_of (augment r) = quality_of r.
Proof. unfold quality_of. by rewrite !augment_scores. Qed.

Lemma augment_augment r : augment (augment r) = augment r.
Proof. unfold augment at 1. rewrite quality_of_augment. apply insert_insert_eq. Qed.

Lemma numeric_scores_augment r : numeric_scores r → numeric_scores (augment r).
Proof. unfold numeric_scores, numeric_score. by rewrite !augment_scores. Qed.

Lemma deref_insert σ a b r :
  deref (<[a := r]> σ) b = if decide (a = b) then r else deref σ b.
Proof. unfold deref. rewrite lookup_insert. by case_decide. Qed.

(** The loop that stores the quality scores. *)
Lemma quality_loop σ profiles :
  (∀ a, a ∈ profiles → numeric_scores (deref σ a)) →
  ∃ σ',
    for_each
      (λ σ profile,
         let confidence := default (VInt 0) (deref σ profile !! "confidence_score") in
         let completeness := default (VInt 0) (deref σ profile !! "profile_completeness") in
         quality ← py_add confidence completeness;
         Ok (<[profile := <["quality_score" := quality]> (deref σ profile)]> σ))
      σ profiles = Ok σ'
    ∧ (∀ a, a ∈ profiles → deref σ' a = augment (deref σ a))
    ∧ (∀ a, a ∉ profiles → σ' !! a = σ !! a).
Proof.
  revert σ. induction profiles as [|a profiles IH]; intros σ Hnum; simpl.
  { exists σ. split_and!; [done| |done]. by intros a ?%elem_of_nil. }
  destruct (quality_of_number (deref σ a)) as [-> _]; [apply Hnum; by left|].
  cbn [bind]. fold (augment (deref σ a)).
  destruct (IH (<[a := augment (deref σ a)]> σ)) as (σ' & Hrun & Hin & Hout).
  { intros b Hb. rewrite deref_insert. case_decide as Hab.
    - subst. apply numeric_scores_augment, Hnum. by left.
    - apply Hnum. by right. }
  exists σ'. split_and!; [exact Hrun| |].
  - intros b Hb. destruct (decide (b ∈ profiles)) as [Hb'|Hb'].
    + rewrite (Hin b Hb'), deref_insert. case_decide as Hab; [|done].
      subst. apply augment_augment.
    + apply elem_of_cons in Hb as [->|?]; [|done].
      unfold deref at 1. rewrite (Hout a Hb'), lookup_insert_eq. done.
  - intros b Hb. apply not_elem_of_cons in Hb as [Hab Hb].
    by rewrite (Hout b Hb), lookup_insert_ne.
Qed.

(** Insertion into a list sorted by decreasing key: a permutation, sorted, and
    the new element ahead of the elements of equal key. *)
Lemma insert_desc_spec (key : nat → pyval) (nk : nat → Qc) x l :
  (∀ a, a ∈ x :: l → as_number (key a) = Some (nk a)) →
  ∃ out,
    insert_desc key x l = Ok out
    ∧ out ≡ₚ x :: l
    ∧ (StronglySorted (λ a b, nk b ≤ nk a) l → StronglySorted (λ a b, nk b ≤ nk a) out)
    ∧ ∀ q, filter (λ a, nk a = q) out = filter (λ a, nk a = q) (x :: l).
Proof.
  induction l as [|y l IH]; intros Hkey; simpl.
  { exists [x]. split_and!; [done|done| |done]. intros _. repeat constructor. }
  assert (py_lt (key x) (key y) = Ok (bool_decide (nk x < nk y))) as ->.
  { pose proof (Hkey x ltac:(by left)) as Hx.
    pose proof (Hkey y ltac:(right; by left)) as Hy.
    revert Hx Hy. generalize (nk x), (nk y). intros p q Hx Hy.
    unfold py_lt. destruct (key x), (key y); simplify_eq/=; done. }
  cbn [bind]. case_bool_decide as Hlt.
  - destruct IH as (out & -> & Hperm & Hsorted & Hstable).
    { intros a [->|Ha]%elem_of_cons; apply Hkey; [by left|by do 2 right]. }
    cbn [bind]. exists (y :: out). split_and!; [done| | |].
    + rewrite Hperm. apply Permutation_swap.
    + intros [Hl Hy]%StronglySorted_inv. constructor; [by apply Hsorted|].
      rewrite Hperm. constructor; [by apply Qclt_le_weak|done].
    + intros q. rewrite !filter_cons, Hstable, filter_cons.
      destruct (decide (nk y = q)) as [Hy|Hy]; [|done].
      destruct (decide (nk x = q)) as [Hx|Hx]; [|done].
      exfalso. rewrite Hx, Hy in Hlt. by apply Qclt_not_eq in Hlt.
  - exists (x :: y :: l). split_and!; [done|done| |done].
    intros Hs. constructor; [done|].
    apply Qcnot_lt_le in Hlt. constructor; [done|].
    apply StronglySorted_inv in Hs as [_ Hy].
    eapply Forall_impl; [exact Hy|]. intros z Hz. simpl in *. by trans (nk y).
Qed.

Lemma sorted_desc_spec (key : nat → pyval) (nk : nat → Qc) l :
  (∀ a, a ∈ l → as_number (key a) = Some (nk a)) →
  ∃ out,
    sorted_desc key l = Ok out
    ∧ out ≡ₚ l
    ∧ StronglySorted (λ a b, nk b ≤ nk a) out
    ∧ ∀ q, filter (λ a, nk a = q) out = filter (λ a, nk a = q) l.
Proof.
  induction l as [|x l IH]; intros Hkey; simpl.
  { exists []. split_and!; [done|done|constructor|done]. }
  destruct IH as (s & -> & Hperm & Hsorted & Hstable).
  { intros a Ha. apply Hkey. by right. }
  cbn [bind].
  destruct (insert_desc_spec key nk x s) as (out & -> & Hperm' & Hsorted' & Hstable').
  { intros a Ha. apply Hkey. by rewrite <-Hperm. }
  exists out. split_and!; [done| | |].
  - by rewrite Hperm', Hperm.
  - by apply Hsorted'.
  - intros q. by rewrite Hstable', !filter_cons, Hstable.
Qed.

Lemma sort_by_quality_run σ profiles :
  profiles ≠ [] →
  (∀ a, a ∈ profiles → numeric_scores (deref σ a)) →
  ∃ out σ',
    sort_by_quality σ profiles = Ok (out, σ')
    ∧ (∀ a, a ∈ profiles → deref σ' a = augment (deref σ a))
    ∧ (∀ a, a ∉ profiles → σ' !! a = σ !! a)
    ∧ (∀ a, a ∈ profiles →
         as_number (default (VInt 0) (deref σ' a !! "quality_score"))
         = Some (quality σ' a))
    ∧ out ≡ₚ profiles
    ∧ StronglySorted (λ a b, quality σ' b ≤ quality σ' a) out
    ∧ (∀ q, filter (λ a, quality σ' a = q) out = filter (λ a, quality σ' a = q) profiles).
Proof.
  intros Hne Hnum.
  destruct (quality_loop σ profiles Hnum) as (σ' & Hloop & Hin & Hout).
  assert (∀ a, a ∈ profiles →
            as_number (default (VInt 0) (deref σ' a !! "quality_score"))
            = Some (quality σ' a)) as Hkey.
  { intros a Ha. unfold quality, score_or_zero. rewrite (Hin a Ha). unfold augment.
    rewrite lookup_insert_eq. simpl.
    destruct (quality_of_number (deref σ a) (Hnum a Ha)) as [_ ->]. done. }
  destruct (sorted_desc_spec _ (quality σ') profiles Hkey)
    as (out & Hsort & Hperm & Hsorted & Hstable).
  exists out, σ'. split_and!; [|done..].
  unfold sort_by_quality. rewrite bool_decide_eq_false_2 by done.
  cbv zeta in Hloop |- *. rewrite Hloop. cbn [bind]. by rewrite Hsort.
Qed.

End ranking.

(** ** The job controller ([web_app.py]) *)

Section controller.

Implicit Types (st : JobStatus) (e : env) (stops : nat → bool).

Lemma finish_pbind {A B} e stops (p : prog A) (f : A → prog B) b st n log :
  finish e stops (pbind p f) b st n log =
    match fin_outcome (finish e stops p b st n log) with
    | Ok a =>
        finish e stops (f a) (fin_bound (finish e stops p b st n log))
          (fin_status (finish e stops p b st n log))
          (fin_steps (finish e stops p b st n log))
          (fin_log (finish e stops p b st n log))
    | Raise ex =>
        mkFinal (fin_status (finish e stops p b st n log)) (Raise ex)
          (fin_bound (finish e stops p b st n log))
          (fin_steps (finish e stops p b st n log))
          (fin_log (finish e stops p b st n log))
    end.
Proof. revert b st n log. induction p; intros; simpl; auto. Qed.

Lemma finish_try_except {A} e stops (p : prog A) (h : exn → prog A) b st n log :
  finish e stops (try_except p h) b st n log =
    match fin_outcome (finish e stops p b st n log) with
    | Ok a => finish e stops p b st n log
    | Raise ex =>
        finish e stops (h ex) (fin_bound (finish e stops p b st n log))
          (fin_status (finish e stops p b st n log))
          (fin_steps (finish e stops p b st n log))
          (fin_log (finish e stops p b st n log))
    end.
Proof. revert b st n log. induction p; intros; simpl; auto. Qed.

Lemma finish_try_finally {A} e stops (p : prog A) (final : prog unit) b st n log :
  finish e stops (try_finally p final) b st n log =
    let r := finish e stops p b st n log in
    let rf := finish e stops final (fin_bound r) (fin_status r) (fin_steps r) (fin_log r) in
    mkFinal (fin_status rf)
      (match fin_outcome rf with
       | Ok _ => fin_outcome r
       | Raise ex => Raise ex
       end)
      (fin_bound rf) (fin_steps rf) (fin_log rf).
Proof.
  revert b st n log. induction p; intros; simpl; auto.
  - rewrite finish_pbind. by destruct (fin_outcome _).
  - rewrite finish_pbind. by destruct (fin_outcome _).
Qed.

(** A run to the end is a step followed by a run to the end. *)
Lemma finish_step e (p : prog unit) b st n log :
  finish e never p b st n log =
    match p with
    | Ret _ | Throw _ => finish e never p b st n log
    | _ =>
        finish e never (code (step e n st (mkThread p b)).1.2)
          (scraper_bound (step e n st (mkThread p b)).1.2)
          (step e n st (mkThread p b)).1.1 (S n)
          (log ++ (step e n st (mkThread p b)).2)
    end.
Proof. destruct p; cbn [finish step code scraper_bound fst snd]; by rewrite ?app_nil_r. Qed.

Lemma interfere_idle stops n st : running st = false → interfere stops n st = st.
Proof.
  intros H. unfold interfere, stop_scraping. rewrite H. by destruct (stops n).
Qed.

Lemma interfere_never n st : interfere never n st = st.
Proof. done. Qed.

(** A stop request changes [running] and [message] only. *)
Lemma interfere_frame stops n st :
  progress (interfere stops n st) = progress st
  ∧ total_profiles (interfere stops n st) = total_profiles st
  ∧ found_profiles (interfere stops n st) = found_profiles st
  ∧ start_time (interfere stops n st) = start_time st
  ∧ end_time (interfere stops n st) = end_time st
  ∧ error (interfere stops n st) = error st.
Proof.
  unfold interfere, stop_scraping. destruct (stops n), (running st); done.
Qed.

(** The [finally] block: what it leaves in the status and how it ends. *)
Lemma finish_finally e stops b st n log :
  running (fin_status (finish e stops run_scraping_finally b st n log)) = false
  ∧ end_time (fin_status (finish e stops run_scraping_finally b st n log))
    = Some (answer_query e (S n) _ Now)
  ∧ error (fin_status (finish e stops run_scraping_finally b st n log)) = error st
  ∧ found_profiles (fin_status (finish e stops run_scraping_finally b st n log))
    = found_profiles st
  ∧ fin_bound (finish e stops run_scraping_finally b st n log) = b
  ∧ (b = true →
     fin_log (finish e stops run_scraping_finally b st n log)
       = log ++ [Called Close (answer_call e (4 + n) _ Close)]
     ∧ fin_outcome (finish e stops run_scraping_finally b st n log)
       = answer_call e (4 + n) _ Close)
  ∧ (b = false →
     fin_log (finish e stops run_scraping_finally b st n log) = log
     ∧ fin_outcome (finish e stops run_scraping_finally b st n log)
       = Raise UnboundLocalError).
Proof.
  unfold run_scraping_finally, put, ask, call_. cbn [pbind finish].
  set (st1 := apply_write (WRunning false) (interfere stops n st)).
  assert (running st1 = false) as H1 by done.
  rewrite !(interfere_idle stops _ st1 H1).
  set (st2 := apply_write (WEndTime (answer_query e (S n) _ Now)) st1).
  assert (running st2 = false) as H2 by done.
  rewrite !(interfere_idle stops _ st2 H2).
  destruct (interfere_frame stops n st) as (_ & _ & Hfound & _ & _ & Herr).
  destruct b; cbn [pbind finish lift].
  - rewrite ?(interfere_idle stops _ st2 H2).
    destruct (answer_call e (S (S (S (S n)))) unit Close) as [[]|ex] eqn:Hclose;
      cbn [finish fin_status fin_bound fin_log fin_outcome];
      (split_and!; [done|done|exact Herr|exact Hfound|done| |done]);
      intros _; simpl; by rewrite Hclose.
  - cbn [finish fin_status fin_bound fin_log fin_outcome].
    split_and!; [done|done|exact Herr|exact Hfound|done|done|done].
Qed.

(** Without a stop request the [finally] block only writes [running] and
    [end_time]. *)
Lemma finish_finally_never e b st n log :
  fin_status (finish e never run_scraping_finally b st n log)
  = apply_write (WEndTime (answer_query e (S n) _ Now)) (apply_write (WRunning false) st).
Proof.
  unfold run_scraping_finally, put, ask, call_. cbn [pbind finish].
  rewrite !interfere_never. destruct b; cbn [pbind finish lift]; [|done].
  by destruct (answer_call e (S (S (S (S n)))) unit Close).
Qed.

Lemma within_pbind {A B} W C (p : prog A) (f : A → prog B) :
  within W C p → (∀ a, within W C (f a)) → within W C (pbind p f).
Proof.
  induction p as [a|ex|k IH|w k IH|k IH|k IH|X q k IH|X c k IH]; simpl; intros Hp Hf; auto.
  - destruct Hp. auto.
  - destruct Hp. auto.
Qed.

Lemma within_lift {A} W C (r : result A) : within W C (lift r).
Proof. by destruct r. Qed.

Lemma within_put W C w : W w → within W C (put w).
Proof. done. Qed.

Lemma within_try_except {A} W C (p : prog A) h :
  within W C p → (∀ ex, within W C (h ex)) → within W C (try_except p h).
Proof.
  induction p as [a|ex|k IH|w k IH|k IH|k IH|X q k IH|X c k IH]; simpl; intros Hp Hh; auto.
  - destruct Hp. auto.
  - destruct Hp. auto.
Qed.

(** A run that starts with the flag down and stays [within] writes that keep
    an invariant [I] implying that the flag is down: [I] holds at the end
    and the calls made are in [C]. *)
Lemma finish_within {A} W C (I : JobStatus → Prop) e stops (p : prog A) b st n log :
  (∀ w st, W w → I st → I (apply_write w st)) →
  (∀ st, I st → running st = false) →
  within W C p → I st →
  I (fin_status (finish e stops p b st n log))
  ∧ ∃ new, fin_log (finish e stops p b st n log) = log ++ new ∧ Forall (obs_in C) new.
Proof.
  intros HW HI. revert b st n log.
  induction p as [a|ex|k IH|w k IH|k IH|k IH|X q k IH|X c k IH];
    intros b st n log Hp Hst; cbn [finish];
    rewrite ?(interfere_idle stops n st (HI st Hst)).
  - split; [done|]. exists []. by rewrite app_nil_r.
  - split; [done|]. exists []. by rewrite app_nil_r.
  - rewrite (HI st Hst). by apply IH.
  - destruct Hp as [Hw Hk]. apply IH; [done|]. by apply HW.
  - by apply IH.
  - by apply IH.
  - by apply IH.
  - destruct Hp as [Hc Hk].
    destruct (IH (answer_call e n X c) b st (S n)
                (log ++ [Called c (answer_call e n X c)]) (Hk _) Hst)
      as (HIf & new & Hlog & Hnew).
    split; [done|]. exists (Called c (answer_call e n X c) :: new). split.
    + by rewrite Hlog, <-app_assoc.
    + by constructor.
Qed.

Lemma within_keyword_loop W C total keywords ℓ :
  within W C (keyword_loop total keywords ℓ).
Proof. by destruct keywords. Qed.

Lemma within_company_loop W C total companies ℓ :
  within W C (company_loop total companies ℓ).
Proof. by destruct companies. Qed.

Lemma within_process_profiles data_processor all :
  within late_write not_search (process_profiles data_processor all).
Proof.
  unfold process_profiles.
  apply within_pbind; [apply within_put; by left|intros _].
  apply within_pbind; [by apply within_put|intros _].
  case_bool_decide; [by apply within_put|].
  destruct (alloc_all ∅ all) as [refs σ].
  apply within_pbind; [done|intros fs].
  apply within_pbind; [apply within_lift|intros deduplicated].
  apply within_pbind; [apply within_lift|intros filtered_profiles].
  apply within_pbind; [apply within_lift|intros sorted].
  apply within_pbind.
  { unfold save_profiles_to_csv. by case_bool_decide. }
  intros [|]; [|by apply within_put].
  apply within_pbind; [apply within_lift|intros summary].
  apply within_pbind; [done|intros _].
  apply within_pbind; [apply within_put; right; eauto|intros _].
  apply within_pbind; [by apply within_put|intros _].
  by apply within_put.
Qed.

Lemma within_from_companies data_processor total companies ℓ :
  within late_write not_search (from_companies data_processor total companies ℓ).
Proof.
  apply within_pbind; [apply within_company_loop|intros ?; apply within_process_profiles].
Qed.

Lemma within_from_keywords data_processor total keywords ℓ :
  within late_write not_search (from_keywords data_processor total keywords ℓ).
Proof.
  apply within_pbind; [apply within_keyword_loop|intros ?; apply within_from_companies].
Qed.

Lemma finish_guarded e stops body b st n log :
  finish e stops (guarded body) b st n log =
    let rb := finish e stops body b st n log in
    let rf := finish e stops run_scraping_finally (fin_bound rb)
                (after_except stops rb) (steps_after_except rb) (fin_log rb) in
    mkFinal (fin_status rf)
      (match fin_outcome rf with
       | Ok _ => Ok tt
       | Raise ex => Raise ex
       end)
      (fin_bound rf) (fin_steps rf) (fin_log rf).
Proof.
  unfold guarded, after_except, steps_after_except.
  rewrite finish_try_finally, finish_try_except. cbn zeta.
  destruct (fin_outcome (finish e stops body b st n log)) as [[]|ex] eqn:Hb.
  - rewrite Hb. done.
  - unfold run_scraping_except, put. cbn [finish fin_status fin_outcome fin_bound fin_steps fin_log].
    done.
Qed.

Lemma keyword_loop_stopped e stops total keywords ℓ b st n log :
  running st = false →
  finish e stops (keyword_loop total keywords ℓ) b st n log
  = mkFinal st (Ok ℓ) b (if keywords is [] then n else S n) log.
Proof.
  intros Hst. destruct keywords as [|keyword keywords]; [done|].
  cbn [keyword_loop finish]. rewrite (interfere_idle _ _ _ Hst), Hst. done.
Qed.

Lemma company_loop_stopped e stops total companies ℓ b st n log :
  running st = false →
  finish e stops (company_loop total companies ℓ) b st n log
  = mkFinal st (Ok ℓ) b (if companies is [] then n else S n) log.
Proof.
  intros Hst. destruct companies as [|company companies]; [done|].
  cbn [company_loop finish]. rewrite (interfere_idle _ _ _ Hst), Hst. done.
Qed.

Lemma finish_put e stops w b st n log :
  finish e stops (put w) b st n log
  = mkFinal (apply_write w (interfere stops n st)) (Ok tt) b (S n) log.
Proof. done. Qed.

Lemma finish_process_stopped e stops data_processor all b st n log :
  running st = false →
  stopped_end st log (finish e stops (process_profiles data_processor all) b st n log).
Proof.
  intros Hst. pose proof (within_process_profiles data_processor all) as Hw.
  unfold process_profiles in *. destruct Hw as [_ Hw].
  rewrite finish_pbind, finish_put. cbn [fin_outcome fin_status fin_bound fin_steps fin_log].
  rewrite (interfere_idle _ _ _ Hst).
  set (st1 := apply_write (WMessage "Processing and saving profiles...") st).
  set (I := λ s, running s = false ∧ found_profiles s = found_profiles st
                 ∧ end_time s = end_time st ∧ saved_message (message s)).
  assert (∀ w s, late_write w → I s → I (apply_write w s)) as HW.
  { intros w s Hw' (H1 & H2 & H3 & H4). destruct w; simpl in *; done. }
  assert (∀ s, I s → running s = false) as HI by (by intros s (H1 & _)).
  assert (I st1) as Hst1 by (split_and!; [done..|by left]).
  destruct (finish_within late_write not_search I e stops _ b st1 (S n) log HW HI Hw Hst1)
    as ((H1 & H2 & H3 & H4) & Hlog).
  split_and!; [exact H1|exact H2|exact H3|exact H4|exact Hlog].
Qed.

Lemma finish_from_companies_stopped e stops data_processor total companies ℓ b st n log :
  running st = false →
  stopped_end st log
    (finish e stops (from_companies data_processor total companies ℓ) b st n log).
Proof.
  intros Hst. unfold from_companies. rewrite finish_pbind, company_loop_stopped by done.
  cbn [fin_outcome fin_status fin_bound fin_steps fin_log].
  by apply finish_process_stopped.
Qed.

Lemma finish_from_keywords_stopped e stops data_processor total keywords ℓ b st n log :
  running st = false →
  stopped_end st log
    (finish e stops (from_keywords data_processor total keywords ℓ) b st n log).
Proof.
  intros Hst. unfold from_keywords. rewrite finish_pbind, keyword_loop_stopped by done.
  cbn [fin_outcome fin_status fin_bound fin_steps fin_log].
  by apply finish_from_companies_stopped.
Qed.

(** The handlers of the worker after its [try] block, without a stop
    request: the flag is down, the end time is set, the count of found
    profiles and the message are those the block left, and no search is
    made. *)
Lemma guarded_frame e body b st n log :
  running (fin_status (finish e never (guarded body) b st n log)) = false
  ∧ (∃ m, end_time (fin_status (finish e never (guarded body) b st n log))
          = Some (answer_query e m _ Now))
  ∧ found_profiles (fin_status (finish e never (guarded body) b st n log))
    = found_profiles (fin_status (finish e never body b st n log))
  ∧ message (fin_status (finish e never (guarded body) b st n log))
    = message (fin_status (finish e never body b st n log))
  ∧ ∃ new, fin_log (finish e never (guarded body) b st n log)
           = fin_log (finish e never body b st n log) ++ new
           ∧ Forall (obs_in not_search) new.
Proof.
  rewrite finish_guarded. cbn zeta.
  set (rb := finish e never body b st n log).
  destruct (finish_finally e never (fin_bound rb) (after_except never rb)
              (steps_after_except rb) (fin_log rb))
    as (Hrun' & Hend & _ & Hfound' & _ & Hclose & Hunbound).
  pose proof (finish_finally_never e (fin_bound rb) (after_except never rb)
                (steps_after_except rb) (fin_log rb)) as Hst.
  assert (found_profiles (after_except never rb) = found_profiles (fin_status rb)
          ∧ message (after_except never rb) = message (fin_status rb)) as [Hf Hm].
  { unfold after_except. by destruct (fin_outcome rb). }
  cbn [fin_status fin_log]. split_and!.
  - done.
  - eauto.
  - by rewrite Hfound'.
  - rewrite Hst. simpl. by rewrite Hm.
  - destruct (fin_bound rb).
    + destruct (Hclose eq_refl) as [-> _]. eexists. split; [done|]. by constructor.
    + destruct (Hunbound eq_refl) as [-> _]. exists []. by rewrite app_nil_r.
Qed.

Lemma guarded_stopped_exit e body b st n log :
  stopped_end st log (finish e never body b st n log) →
  stopped_exit e st log (finish e never (guarded body) b st n log).
Proof.
  intros (Hrun & Hfound & _ & Hmsg & new & Hlog & Hnew).
  destruct (guarded_frame e body b st n log) as (Hr & He & Hf & Hm & new' & Hlog' & Hnew').
  unfold stopped_exit. split_and!; [done|by rewrite Hf|done|by rewrite Hm|].
  exists (new ++ new'). split; [by rewrite Hlog', Hlog, app_assoc|]. by apply Forall_app.
Qed.

Lemma finish_call_ {X} e stops (c : call X) b st n log :
  finish e stops (call_ c) b st n log
  = mkFinal (interfere stops n st) (answer_call e n _ c) b (S n)
      (log ++ [Called c (answer_call e n _ c)]).
Proof. unfold call_. cbn [finish]. by destruct (answer_call e n X c). Qed.

Lemma finish_lift {A} e stops (r : result A) b st n log :
  finish e stops (lift r) b st n log = mkFinal st r b n log.
Proof. by destruct r. Qed.

Lemma finish_ask {X} e stops (q : query X) b st n log :
  finish e stops (ask q) b st n log
  = mkFinal (interfere stops n st) (Ok (answer_query e n _ q)) b (S n) log.
Proof. done. Qed.

Lemma saved_message_not_stop s : saved_message s → s ≠ stop_notice.
Proof. intros [->|[k ->]]; done. Qed.

(** A stop request served while an iteration is in flight: the iteration
    makes its search, and the worker leaves at the next check. *)
Lemma finish_iteration_stopped e total notice search ℓ cont rest b st n log :
  running st = false →
  notice ≠ stop_notice →
  (∀ ℓ' b' st' n' log', running st' = false →
     ∃ n'', finish e never (cont ℓ') b' st' n' log' = mkFinal st' (Ok ℓ') b' n'' log') →
  (∀ ℓ' b' st' n' log', running st' = false →
     stopped_end st' log' (finish e never (rest ℓ') b' st' n' log')) →
  let r := finish e never
             (guarded (pbind (search_iteration total notice search ℓ cont) rest))
             b st n log in
  running (fin_status r) = false
  ∧ (∃ m, end_time (fin_status r) = Some (answer_query e m _ Now))
  ∧ found_profiles (fin_status r) = found_after total ℓ st (answer_call e (S n) _ search)
  ∧ message (fin_status r) ≠ stop_notice
  ∧ ∃ new, fin_log r = log ++ Called search (answer_call e (S n) _ search) :: new
           ∧ Forall (obs_in not_search) new.
Proof.
  intros Hst Hnotice Hcont Hrest r. subst r.
  destruct (guarded_frame e (pbind (search_iteration total notice search ℓ cont) rest)
              b st n log) as (Hr & He & Hf & Hm & new' & Hlog' & Hnew').
  rewrite Hf, Hm, Hlog'. clear Hf Hm Hlog'.
  split; [done|]. split; [done|].
  unfold search_iteration.
  rewrite finish_pbind. rewrite (finish_pbind _ _ (put _)), finish_put.
  cbn [fin_outcome fin_status fin_bound fin_steps fin_log].
  rewrite (finish_pbind _ _ (call_ _)), finish_call_.
  cbn [fin_outcome fin_status fin_bound fin_steps fin_log].
  rewrite !interfere_never.
  set (st1 := apply_write (WMessage notice) st).
  destruct (answer_call e (S n) _ search) as [profiles|ex] eqn:Hans.
  2:{ cbn [fin_outcome fin_status fin_log found_after]. split_and!; [done|done|].
      exists new'. by rewrite <-app_assoc. }
  rewrite (finish_pbind _ _ (lift _)), finish_lift.
  cbn [fin_outcome fin_status fin_bound fin_steps fin_log].
  unfold search_progress, found_after. case_bool_decide as Htotal.
  { cbn [fin_outcome fin_status fin_log]. split_and!; [done|done|].
    exists new'. by rewrite <-app_assoc. }
  cbn [fin_outcome].
  rewrite (finish_pbind _ _ (put _)), finish_put.
  cbn [fin_outcome fin_status fin_bound fin_steps fin_log].
  rewrite (finish_pbind _ _ (put _)), finish_put.
  cbn [fin_outcome fin_status fin_bound fin_steps fin_log].
  rewrite (finish_pbind _ _ (ask _)), finish_ask.
  cbn [fin_outcome fin_status fin_bound fin_steps fin_log].
  rewrite !interfere_never.
  match goal with
  | |- context [finish e never (cont ?l) ?b' ?s ?k ?lg] =>
      destruct (Hcont l b' s k lg Hst) as [n'' ->];
      destruct (Hrest l b' s n'' lg Hst) as (_ & Hfound & _ & Hmsg & new & Hlog & Hnew)
  end.
  cbn [fin_outcome fin_status fin_bound fin_steps fin_log].
  split_and!.
  - by rewrite Hfound.
  - by apply saved_message_not_stop.
  - exists (new ++ new'). rewrite Hlog, <-!app_assoc. split; [done|]. by apply Forall_app.
Qed.

End controller.

(** C1, as amended.  A call with no new record returns the empty list, whatever
    the existing records are.  A call with new records returns fresh dicts and
    leaves every dict of the caller as it was; the returned records are the rows
    of the frame of existing-then-new with only the first record of each
    [profile_url] kept, in order, and these rows are the records themselves when
    all records have the same fields.  For existing [a], [b] and new [b], [c] the
    result is [a], [b], [c]. *)
Theorem dedup_first_seen fs self (σ : gmap nat (gmap string pyval))
    (new_profiles : list nat) (existing : list (gmap string pyval)) :
  (∀ existing_df, deduplicate_profiles fs self σ [] existing_df = Ok ([], σ))
  ∧ (new_profiles ≠ [] →
     Forall has_url (existing ++ (deref σ <$> new_profiles)) →
     ∃ out σ',
       deduplicate_profiles fs self σ new_profiles (Some (DataFrame_of_records existing))
         = Ok (out, σ')
       ∧ σ ⊆ σ'
       ∧ first_seen_wins
           (df_rows (DataFrame_of_records (existing ++ (deref σ <$> new_profiles))))
           (deref σ' <$> out)
       ∧ (same_fields (existing ++ (deref σ <$> new_profiles)) →
          first_seen_wins (existing ++ (deref σ <$> new_profiles)) (deref σ' <$> out)))
  ∧ (∃ out σ',
       deduplicate_profiles fs self heap_bc [0; 1]%nat
         (Some (DataFrame_of_records [url_only "a"; url_only "b"])) = Ok (out, σ')
       ∧ heap_bc ⊆ σ'
       ∧ deref σ' <$> out = [url_only "a"; url_only "b"; url_only "c"]).
Proof.
  split_and!.
  - done.
  - intros Hne Hurl. destruct (dedup_run fs self σ new_profiles existing Hne Hurl)
      as (out & σ' & Hrun & Hsub & Hrows).
    exists out, σ'. split_and!; [done|done| |].
    + rewrite Hrows. by apply first_occurrences_first_seen_wins, frame_rows_has_url.
    + intros Hsame. rewrite Hrows, same_fields_rows by done.
      by apply first_occurrences_first_seen_wins.
  - destruct (dedup_run fs self heap_bc [0; 1]%nat [url_only "a"; url_only "b"])
      as (out & σ' & Hrun & Hsub & Hrows).
    + done.
    + repeat constructor; eexists; (split; [reflexivity|done]).
    + exists out, σ'. split_and!; [done|done|]. rewrite Hrows. compute_done.
Qed.

Lemma dedup_first_seen_witness :
  [0; 1]%nat ≠ [] ∧
  Forall has_url ([url_only "a"; url_only "b"] ++ (deref heap_bc <$> [0; 1]%nat)) ∧
  ∃ out σ',
    deduplicate_profiles no_file processor heap_bc [0; 1]%nat
      (Some (DataFrame_of_records [url_only "a"; url_only "b"])) = Ok (out, σ')
    ∧ heap_bc ⊆ σ'
    ∧ first_seen_wins
        ([url_only "a"; url_only "b"] ++ (deref heap_bc <$> [0; 1]%nat))
        (deref σ' <$> out).
Proof.
  assert ([0; 1]%nat ≠ []) as Hne by done.
  assert (Forall has_url
            ([url_only "a"; url_only "b"] ++ (deref heap_bc <$> [0; 1]%nat))) as Hurl.
  { repeat constructor; eexists; (split; [reflexivity|done]). }
  split_and!; [done|done|].
  destruct (proj1 (proj2 (dedup_first_seen no_file processor heap_bc [0; 1]%nat
                            [url_only "a"; url_only "b"])) Hne Hurl)
    as (out & σ' & Hrun & Hsub & _ & Hsame).
  exists out, σ'. split_and!; [done|done|]. apply Hsame.
  apply (same_fields_of_dom _ {["profile_url"%string]}). compute_done.
Defined.

(** C1 as stated fails: with no new record the existing records are not
    returned, so the result is not the deduplicated union. *)
Lemma dedup_empty_new_drops_existing :
  Forall has_url [url_only "a"] ∧
  ∃ out σ',
    deduplicate_profiles no_file processor ∅ []
      (Some (DataFrame_of_records [url_only "a"])) = Ok (out, σ')
    ∧ deref σ' <$> out = []
    ∧ ¬ first_seen_wins ([url_only "a"] ++ []) (deref σ' <$> out).
Proof.
  split.
  - repeat constructor. eexists. split; [reflexivity|done].
  - exists [], ∅. split_and!; [done|done|].
    intros (_ & _ & _ & Hcov). destruct (Hcov (url_only "a")) as (r' & Hr' & _).
    + by left.
    + simpl in Hr'. by apply elem_of_nil in Hr'.
Qed.



(** C4.  On records whose scores are numbers or missing, the filter returns,
    in order, exactly the records whose confidence and completeness both
    reach their thresholds, a missing score counting as 0 and both bounds
    being inclusive.  A record that misses a score whose threshold is positive
    is dropped.  With the thresholds 0.7 and 0.6, confidence 0.69 with
    completeness 0.9 is dropped and confidence 0.7 with completeness 0.6 is
    kept. *)
Theorem filter_by_quality_spec (σ : gmap nat (gmap string pyval)) (profiles : list nat)
    (min_confidence min_completeness : Qc) :
  (∀ a, a ∈ profiles → numeric_scores (deref σ a)) →
  ∃ kept,
    filter_by_quality σ profiles min_confidence min_completeness = Ok kept
    ∧ kept = filter (λ a, passes min_confidence min_completeness (deref σ a)) profiles
    ∧ (∀ a, a ∈ kept ↔
            a ∈ profiles
            ∧ min_confidence ≤ score_or_zero (deref σ a) "confidence_score"
            ∧ min_completeness ≤ score_or_zero (deref σ a) "profile_completeness")
    ∧ (∀ a, (deref σ a !! "confidence_score" = None ∧ 0 < min_confidence)
            ∨ (deref σ a !! "profile_completeness" = None ∧ 0 < min_completeness) →
            a ∉ kept)
    ∧ filter_by_quality heap_filter [0; 1; 2]%nat (qc 7 10) (qc 6 10) = Ok [1%nat].
Proof.
  intros Hnum.
  exists (filter (λ a, passes min_confidence min_completeness (deref σ a)) profiles).
  split_and!.
  - unfold filter_by_quality. case_bool_decide as Hnil; [by subst|].
    by rewrite filter_loop.
  - done.
  - intros a. rewrite list_elem_of_filter. unfold passes. tauto.
  - intros a Hmiss [[Hc Hp] _]%list_elem_of_filter. unfold score_or_zero in Hc, Hp.
    destruct Hmiss as [[Hm Hpos]|[Hm Hpos]]; rewrite Hm in *; simpl in *.
    + by apply Qclt_not_le in Hpos.
    + by apply Qclt_not_le in Hpos.
  - compute_done.
Qed.

Lemma filter_by_quality_spec_witness :
  (∀ a, a ∈ [0; 1; 2]%nat → numeric_scores (deref heap_filter a))
  ∧ ∃ kept,
      filter_by_quality heap_filter [0; 1; 2]%nat (qc 7 10) (qc 6 10) = Ok kept
      ∧ (0%nat ∉ kept) ∧ (1%nat ∈ kept) ∧ (2%nat ∉ kept).
Proof.
  assert (∀ a, a ∈ [0; 1; 2]%nat → numeric_scores (deref heap_filter a)) as Hnum.
  { intros a Ha. repeat (apply elem_of_cons in Ha as [->|Ha]).
    - split; right; do 2 eexists; (split; [reflexivity|done]).
    - split; right; do 2 eexists; (split; [reflexivity|done]).
    - split; by left.
    - by apply elem_of_nil in Ha. }
  split; [done|].
  destruct (filter_by_quality_spec heap_filter [0; 1; 2]%nat (qc 7 10) (qc 6 10) Hnum)
    as (kept & Hrun & _ & Hiff & _).
  exists kept. split; [done|]. rewrite !Hiff. split; [|split].
  - intros (_ & Hc & _). revert Hc. apply Qclt_not_le. compute_done.
  - split_and!; compute_done.
  - intros (_ & Hc & _). revert Hc. apply Qclt_not_le. compute_done.
Defined.






(** C7, as amended.  A stop request fails with "No job running" exactly when
    the job is not running, and then changes nothing; on a running job it
    lowers the [running] flag and sets the message to the stopping notice,
    nothing else.  Both loops read the flag before each item and leave the
    loop when it is down.  When the request is served while the worker is at
    such a check, the worker makes no further search; when it is served while
    an iteration is in flight, the worker makes the search of that iteration
    only.  In both cases it then goes on to process and save what it has
    found, as a job that was not stopped does, and ends with [running]
    false, [end_time] set and [found_profiles] at the count accumulated; its
    message is not the stopping notice any more: at a check it is the
    processing notice or the success message. *)
Theorem stop_is_cooperative e data_processor total :
  (∀ st, (stop_scraping st).1 = BadRequest "No job running" ↔ running st = false)
  ∧ (∀ st, running st = false → (stop_scraping st).2 = st)
  ∧ (∀ st, running st = true →
       stop_scraping st
       = (Success "Stopping scraper...",
          mkJobStatus false (progress st) stop_notice (total_profiles st)
            (found_profiles st) (start_time st) (end_time st) (error st)))
  ∧ (∀ keyword keywords ℓ, ∃ k,
       from_keywords data_processor total (keyword :: keywords) ℓ = GetRunning k
       ∧ k false = from_companies data_processor total Config.TARGET_COMPANIES ℓ
       ∧ k true = from_keyword_search data_processor total keyword keywords ℓ)
  ∧ (∀ company companies ℓ, ∃ k,
       from_companies data_processor total (company :: companies) ℓ = GetRunning k
       ∧ k false = process_profiles data_processor (all_profiles ℓ)
       ∧ k true = from_company_search data_processor total company companies ℓ)
  ∧ (∀ st keywords ℓ b n log, running st = true →
       stopped_exit e st log
         (finish e never (guarded (from_keywords data_processor total keywords ℓ))
            b (stop_scraping st).2 n log))
  ∧ (∀ st companies ℓ b n log, running st = true →
       stopped_exit e st log
         (finish e never (guarded (from_companies data_processor total companies ℓ))
            b (stop_scraping st).2 n log))
  ∧ (∀ st keyword keywords ℓ b n log, running st = true →
       let r := finish e never
                  (guarded (from_keyword_search data_processor total keyword keywords ℓ))
                  b (stop_scraping st).2 n log in
       running (fin_status r) = false
       ∧ (∃ m, end_time (fin_status r) = Some (answer_query e m _ Now))
       ∧ found_profiles (fin_status r)
         = found_after total ℓ st (answer_call e (S n) _ (SearchProfiles keyword 2))
       ∧ message (fin_status r) ≠ stop_notice
       ∧ ∃ new,
           fin_log r
           = log ++ Called (SearchProfiles keyword 2)
                      (answer_call e (S n) _ (SearchProfiles keyword 2)) :: new
           ∧ Forall (obs_in not_search) new)
  ∧ (∀ st company companies ℓ b n log, running st = true →
       let r := finish e never
                  (guarded (from_company_search data_processor total company companies ℓ))
                  b (stop_scraping st).2 n log in
       running (fin_status r) = false
       ∧ (∃ m, end_time (fin_status r) = Some (answer_query e m _ Now))
       ∧ found_profiles (fin_status r)
         = found_after total ℓ st (answer_call e (S n) _ (SearchByCompany company))
       ∧ message (fin_status r) ≠ stop_notice
       ∧ ∃ new,
           fin_log r
           = log ++ Called (SearchByCompany company)
                      (answer_call e (S n) _ (SearchByCompany company)) :: new
           ∧ Forall (obs_in not_search) new).
Proof.
  assert (∀ st, running st = true →
            running (stop_scraping st).2 = false
            ∧ found_profiles (stop_scraping st).2 = found_profiles st) as Hstop.
  { intros st Hst. unfold stop_scraping. by rewrite Hst. }
  split_and!.
  - intros st. unfold stop_scraping. by destruct (running st).
  - intros st Hst. unfold stop_scraping. by rewrite Hst.
  - intros st Hst. unfold stop_scraping. by rewrite Hst.
  - intros. by eexists.
  - intros. by eexists.
  - intros st keywords ℓ b n log Hst. destruct (Hstop st Hst) as [Hrun Hfound].
    pose proof (guarded_stopped_exit e _ b _ n log
                  (finish_from_keywords_stopped e never data_processor total keywords ℓ
                     b _ n log Hrun)) as Hexit.
    unfold stopped_exit in *. by rewrite <-Hfound.
  - intros st companies ℓ b n log Hst. destruct (Hstop st Hst) as [Hrun Hfound].
    pose proof (guarded_stopped_exit e _ b _ n log
                  (finish_from_companies_stopped e never data_processor total companies ℓ
                     b _ n log Hrun)) as Hexit.
    unfold stopped_exit in *. by rewrite <-Hfound.
  - intros st keyword keywords ℓ b n log Hst. destruct (Hstop st Hst) as [Hrun Hfound].
    unfold from_keyword_search.
    assert (found_after total ℓ st (answer_call e (S n) _ (SearchProfiles keyword 2))
            = found_after total ℓ (stop_scraping st).2
                (answer_call e (S n) _ (SearchProfiles keyword 2))) as ->.
    { unfold found_after. by rewrite Hfound. }
    apply finish_iteration_stopped; [done|done| |].
    + intros. rewrite keyword_loop_stopped by done. eauto.
    + intros. by apply finish_from_companies_stopped.
  - intros st company companies ℓ b n log Hst. destruct (Hstop st Hst) as [Hrun Hfound].
    unfold from_company_search.
    assert (found_after total ℓ st (answer_call e (S n) _ (SearchByCompany company))
            = found_after total ℓ (stop_scraping st).2
                (answer_call e (S n) _ (SearchByCompany company))) as ->.
    { unfold found_after. by rewrite Hfound. }
    apply finish_iteration_stopped; [done|done| |].
    + intros. rewrite company_loop_stopped by done. eauto.
    + intros. by apply finish_process_stopped.
Qed.

Lemma stop_is_cooperative_witness :
  running status_searching = true
  ∧ stopped_exit world status_searching []
      (finish world never
         (guarded (from_keywords processor 39 (drop 1 Config.SEARCH_KEYWORDS)
                     (mkLocals [r_scored] 1)))
         true (stop_scraping status_searching).2 0 []).
Proof.
  split; [done|].
  exact (proj1 (proj2 (proj2 (proj2 (proj2 (proj2 (stop_is_cooperative world processor 39))))))
           status_searching (drop 1 Config.SEARCH_KEYWORDS) (mkLocals [r_scored] 1)
           true 0%nat [] eq_refl).
Defined.

(** C7 as stated fails: a job is stopped after its first keyword; once the
    worker has seen the flag, the message is not one of a stopped job: the
    worker saves the record it has found and ends with the message and the
    progress of a completed job. *)
Lemma stopped_run_reports_success :
  running (job_status (run world 0 (take 15 stopped_run) sys_initial)) = true
  ∧ message (job_status (run world 0 (take 16 stopped_run) sys_initial)) = stop_notice
  ∧ job_status (run world 0 stopped_run sys_initial)
    = mkJobStatus false (qc 100 1) "Successfully saved 1 profiles!" 1 1
        (Some "2024-01-01T00:00:00"%string) (Some "2024-01-01T00:00:10"%string) None
  ∧ job_status (run world 0 (stopped_run ++ replicate 10 (Step 0)) sys_initial)
    = job_status (run world 0 stopped_run sys_initial)
  ∧ message (job_status (run world 0 stopped_run sys_initial)) ≠ stop_notice.
Proof. split_and!; compute_done. Qed.



(** * Further properties of the code *)

Import Re.

(** ** Strings and digits *)

Section text.

Implicit Types (s w : string) (c : ascii).

Lemma string_app_nil_l s : ("" ++ s)%string = s.
Proof. done. Qed.

Lemma string_app_cons c s1 s2 : (String c s1 ++ s2)%string = String c (s1 ++ s2).
Proof. done. Qed.

Lemma string_app_nil_r s : (s ++ "")%string = s.
Proof. induction s as [|c s IH]; [done|]. by rewrite string_app_cons, IH. Qed.

Lemma string_app_assoc s1 s2 s3 : ((s1 ++ s2) ++ s3)%string = (s1 ++ s2 ++ s3)%string.
Proof. induction s1 as [|c s1 IH]; [done|]. by rewrite !string_app_cons, IH. Qed.

Lemma string_app_length s1 s2 :
  String.length (s1 ++ s2) = (String.length s1 + String.length s2)%nat.
Proof. induction s1 as [|c s1 IH]; [done|]. rewrite string_app_cons. simpl. by rewrite IH. Qed.

Lemma substring_prefix w s :
  substring 0 (String.length (w ++ s) - String.length s) (w ++ s) = w.
Proof.
  rewrite string_app_length.
  replace (String.length w + String.length s - String.length s)%nat
    with (String.length w) by lia.
  induction w as [|c w IH]; rewrite ?string_app_cons, ?string_app_nil_l; simpl.
  - by destruct s.
  - by rewrite IH.
Qed.

Lemma digits_nil : digits "".
Proof. constructor. Qed.

Lemma digits_cons c s : digits (String c s) ↔ isdigit c = true ∧ digits s.
Proof. unfold digits. simpl. apply (Forall_cons (λ c, isdigit c = true)). Qed.

Lemma digits_app s1 s2 : digits (s1 ++ s2) ↔ digits s1 ∧ digits s2.
Proof.
  induction s1 as [|c s1 IH]; rewrite ?string_app_cons, ?string_app_nil_l.
  - split; [intros; split; [apply digits_nil|done]|tauto].
  - rewrite !digits_cons, IH. tauto.
Qed.

Lemma digit_free_cons c s : digit_free (String c s) ↔ isdigit c = false ∧ digit_free s.
Proof. unfold digit_free. simpl. apply (Forall_cons (λ c, isdigit c = false)). Qed.

Lemma lower_app s1 s2 : lower (s1 ++ s2) = (lower s1 ++ lower s2)%string.
Proof.
  induction s1 as [|c s1 IH]; [done|].
  rewrite string_app_cons. simpl. by rewrite string_app_cons, IH.
Qed.

Lemma isdigit_lower c : isdigit (lower_ascii c) = isdigit c.
Proof. by destruct c as [[] [] [] [] [] [] [] []]. Qed.

Lemma isspace_lower c : isspace (lower_ascii c) = isspace c.
Proof. by destruct c as [[] [] [] [] [] [] [] []]. Qed.

Lemma lower_digit c : isdigit c = true → lower_ascii c = c.
Proof. by destruct c as [[] [] [] [] [] [] [] []]. Qed.

Lemma lower_space c : isspace c = true → lower_ascii c = c.
Proof. by destruct c as [[] [] [] [] [] [] [] []]. Qed.

Lemma lower_digits s : digits s → lower s = s.
Proof.
  induction s as [|c s IH]; [done|].
  rewrite digits_cons. intros [Hc Hs]. simpl. by rewrite lower_digit, IH.
Qed.

Lemma lower_blank s : blank s → lower s = s.
Proof.
  induction s as [|c s IH]; [done|].
  rewrite blank_cons. intros [Hc Hs]. simpl. by rewrite lower_space, IH.
Qed.

Lemma lower_digit_free s : digit_free s → digit_free (lower s).
Proof.
  induction s as [|c s IH]; [done|].
  rewrite digit_free_cons. intros [Hc Hs]. simpl.
  apply digit_free_cons. by rewrite isdigit_lower; auto.
Qed.

Lemma digit_not_space c : isdigit c = true → isspace c = false.
Proof. by destruct c as [[] [] [] [] [] [] [] []]. Qed.

Lemma digit_not_comma c : isdigit c = true → Ascii.eqb "," c = false.
Proof. by destruct c as [[] [] [] [] [] [] [] []]. Qed.

Lemma digit_not_letter c c' :
  isdigit c = true → isdigit c' = false → Ascii.eqb c' c = false.
Proof.
  intros Hc Hc'. apply Ascii.eqb_neq. intros ->. congruence.
Qed.

End text.

Section matcher.

Context {A : Type}.
Implicit Types (s w : string) (g : option string)
  (k : option string → string → option A).

Lemma repeat_loop_consumes body L keeps lo hi :
  consumes body L keeps →
  consumes (λ g s k, repeat_loop body lo hi k g s)
    (λ w, ∃ ws, w = chain ws ∧ (lo ≤ length ws ≤ hi)%nat ∧ Forall L ws) keeps.
Proof.
  intros Hbody. revert lo. induction hi as [|hi IH]; intros lo g s k a; simpl.
  - destruct lo; [|done]. intros Hk. exists ""%string, s, g.
    split_and!; [done| |done|done]. exists []. split_and!; [done|simpl; lia..|done].
  - destruct (body g s _) as [a'|] eqn:Hb.
    + intros [= ->]. apply Hbody in Hb as (w & s' & g' & -> & Hw & Hrest & Hg).
      apply IH in Hrest as (w2 & s'' & g'' & -> & (ws & -> & Hlen & Hws) & Hk & Hg').
      exists (w ++ chain ws)%string, s'', g''. split_and!.
      * by rewrite string_app_assoc.
      * exists (w :: ws). split_and!; [done|simpl; lia..|by constructor].
      * done.
      * intros Hkeeps. by rewrite Hg', Hg.
    + destruct lo; [|done]. intros Hk. exists ""%string, s, g.
      split_and!; [done| |done|done]. exists []. split_and!; [done|simpl; lia..|done].
Qed.

Lemma star_loop_consumes body L keeps n :
  consumes body L keeps →
  consumes (λ g s k, star_loop body n k g s)
    (λ w, ∃ ws, w = chain ws ∧ Forall L ws) keeps.
Proof.
  intros Hbody. induction n as [|n IH]; intros g s k a; simpl.
  - intros Hk. exists ""%string, s, g. split_and!; [done| |done|done]. by exists [].
  - destruct (body g s _) as [a'|] eqn:Hb.
    + intros [= ->]. apply Hbody in Hb as (w & s' & g' & -> & Hw & Hrest & Hg).
      apply IH in Hrest as (w2 & s'' & g'' & -> & (ws & -> & Hws) & Hk & Hg').
      exists (w ++ chain ws)%string, s'', g''. split_and!.
      * by rewrite string_app_assoc.
      * exists (w :: ws). split; [done|by constructor].
      * done.
      * intros Hkeeps. by rewrite Hg', Hg.
    + intros Hk. exists ""%string, s, g. split_and!; [done| |done|done]. by exists [].
Qed.

End matcher.

Lemma after_prefix_Some p s s' : after_prefix p s = Some s' ↔ s = (p ++ s')%string.
Proof.
  revert s. induction p as [|a p IH]; intros s; simpl.
  - split; [by intros [= ->]|by intros ->].
  - destruct s as [|b s]; [done|].
    destruct (Ascii.eqb_spec a b) as [->|Hab].
    + rewrite IH. split; [by intros ->|by intros [= ->]].
    + split; [done|]. by intros [= <- _].
Qed.

Lemma exec_consumes {A} (r : regex) : consumes (A:=A) (exec r) (lang r) (groupless r).
Proof.
  revert A. induction r as [c|p| | |r1 IH1 r2 IH2|lo hi r IH|r IH|r IH]; intros A g s k a; simpl.
  - destruct s as [|c' s]; [done|]. destruct (Ascii.eqb_spec c c') as [<-|]; [|done].
    intros Hk. by exists (String c ""), s, g.
  - destruct (after_prefix p s) as [s'|] eqn:Hp; [|done].
    apply after_prefix_Some in Hp as ->. intros Hk. by exists p, s', g.
  - destruct s as [|c s]; [done|]. destruct (isdigit c) eqn:Hc; [|done].
    intros Hk. exists (String c ""), s, g. split_and!; [done|by exists c|done|done].
  - destruct s as [|c s]; [done|]. destruct (isspace c) eqn:Hc; [|done].
    intros Hk. exists (String c ""), s, g. split_and!; [done|by exists c|done|done].
  - intros H. apply IH1 in H as (w1 & s1 & g1 & -> & Hw1 & H & Hg1).
    apply IH2 in H as (w2 & s2 & g2 & -> & Hw2 & H & Hg2).
    exists (w1 ++ w2)%string, s2, g2. split_and!.
    + by rewrite string_app_assoc.
    + by exists w1, w2.
    + done.
    + intros [? ?]%andb_true_iff. by rewrite Hg2, Hg1.
  - apply (repeat_loop_consumes (exec r) (lang r) (groupless r) lo hi (IH A)).
  - apply (star_loop_consumes (exec r) (lang r) (groupless r) _ (IH A)).
  - intros H. apply IH in H as (w & s' & g' & -> & Hw & H & _).
    rewrite substring_prefix in H. exists w, s', (Some w). by split_and!.
Qed.

(** A match of a grouped expression followed by a groupless one captures
    the word of the group. *)
Lemma match_at_group r t s m :
  groupless t = true →
  match_at (Seq (Group r) t) s = Some m →
  ∃ w post, s = (w ++ post)%string ∧ lang r w ∧ m.1 = Some w.
Proof.
  intros Ht. unfold match_at. cbn [exec]. intros H.
  apply exec_consumes in H as (w & s' & g' & -> & Hw & H & _).
  rewrite substring_prefix in H.
  apply exec_consumes in H as (w2 & s'' & g'' & -> & Hw2 & [= <-] & Hg).
  exists w, (w2 ++ s'')%string. split_and!; [done..|]. simpl. by apply Hg.
Qed.

Lemma search_Some r s m :
  search r s = Some m → ∃ pre s0, s = (pre ++ s0)%string ∧ match_at r s0 = Some m.
Proof.
  induction s as [|c s IH]; simpl.
  - destruct (match_at r "") eqn:H; [|done]. intros [= ->]. by exists ""%string, ""%string.
  - destruct (match_at r (String c s)) eqn:H.
    + intros [= ->]. by exists ""%string, (String c s).
    + intros (pre & s0 & -> & Hm)%IH. by exists (String c pre), s0.
Qed.

(** ** Follower counts ([utils.extract_follower_count]) *)

Section counts.

Implicit Types (s w d : string) (c : ascii) (g : option string).

Lemma isdigit_bounds c : isdigit c = true → (48 ≤ nat_of_ascii c ≤ 57)%nat.
Proof.
  unfold isdigit. intros [H1 H2]%andb_true_iff.
  apply Nat.leb_le in H1. apply Nat.leb_le in H2. lia.
Qed.

Lemma int_digits_decimal acc s :
  digits s →
  int_digits acc s
  = Some (foldl (λ n c, 10 * n + (Z.of_nat (nat_of_ascii c) - 48))%Z acc
            (list_ascii_of_string s)).
Proof.
  revert acc. induction s as [|c s IH]; intros acc; [done|].
  rewrite digits_cons. intros [Hc Hs]. simpl. rewrite Hc. by apply IH.
Qed.

Lemma int_digits_nonneg acc s n : (0 ≤ acc)%Z → int_digits acc s = Some n → (0 ≤ n)%Z.
Proof.
  revert acc. induction s as [|c s IH]; intros acc Hacc; simpl.
  - by intros [= <-].
  - destruct (isdigit c) eqn:Hc; [|done]. apply IH.
    apply isdigit_bounds in Hc. lia.
Qed.

Lemma py_int_digits s : digits s → s ≠ ""%string → py_int s = Ok (decimal s).
Proof.
  intros Hs Hne. unfold py_int, decimal. rewrite (int_digits_decimal 0 s Hs).
  by destruct s.
Qed.

Lemma numeral_nil : numeral "".
Proof. constructor. Qed.

Lemma numeral_cons c s :
  numeral (String c s) ↔ (isdigit c = true ∨ c = ","%char) ∧ numeral s.
Proof. unfold numeral. simpl. apply (Forall_cons (λ c, isdigit c = true ∨ c = ","%char)). Qed.

Lemma numeral_app s1 s2 : numeral s1 → numeral s2 → numeral (s1 ++ s2).
Proof.
  intros H1 H2. induction s1 as [|c s1 IH]; [done|].
  rewrite string_app_cons. apply numeral_cons in H1 as [Hc H1].
  apply numeral_cons. auto.
Qed.

Lemma chain_nil : chain [] = ""%string.
Proof. done. Qed.

Lemma chain_cons w ws : chain (w :: ws) = (w ++ chain ws)%string.
Proof. done. Qed.

Lemma numeral_chain ws : Forall numeral ws → numeral (chain ws).
Proof.
  induction 1 as [|w ws Hw Hws IH]; [apply numeral_nil|].
  rewrite chain_cons. by apply numeral_app.
Qed.

Lemma numeral_digits s : digits s → numeral s.
Proof.
  unfold digits, numeral. intros H. eapply Forall_impl; [exact H|]. auto.
Qed.

Lemma lang_digit_run lo hi w : lang (Repeat lo hi Digit) w → digits w.
Proof.
  intros (ws & -> & _ & Hws). induction Hws as [|w ws (c & Hc & ->) _ IH]; simpl.
  - apply digits_nil.
  - rewrite string_app_cons, string_app_nil_l. by apply digits_cons.
Qed.

(** A word of the count is a numeral that starts with a digit. *)
Lemma lang_count_digits w :
  lang count_digits w → numeral w ∧ head_is isdigit w = true.
Proof.
  intros (w1 & w2 & -> & Hw1 & ws & -> & Hws). split.
  - apply numeral_app; [by eapply numeral_digits, lang_digit_run|].
    apply numeral_chain. eapply Forall_impl; [exact Hws|].
    intros w (wc & wd & -> & -> & Hd). rewrite string_app_cons, string_app_nil_l.
    apply numeral_cons. split; [by right|]. by eapply numeral_digits, lang_digit_run.
  - destruct Hw1 as ([|w ws1] & -> & Hlen & Hws1); simpl in Hlen; [lia|].
    apply Forall_cons_1 in Hws1 as [(c & Hc & ->) _]. simpl.
    done.
Qed.

Lemma replace_comma_digits s : numeral s → digits (replace_char "," "" s).
Proof.
  induction s as [|c s IH]; [intros; apply digits_nil|].
  rewrite numeral_cons. intros [Hc Hs]. simpl.
  destruct (Ascii.eqb_spec c ","%char) as [->|Hne].
  - rewrite string_app_nil_l. auto.
  - apply digits_cons. destruct Hc; [auto|done].
Qed.

Lemma replace_comma_head s :
  head_is isdigit s = true → replace_char "," "" s ≠ ""%string.
Proof.
  destruct s as [|c s]; [done|]. simpl. intros Hc.
  destruct (Ascii.eqb_spec c ","%char) as [->|Hne]; done.
Qed.

Lemma replace_comma_id s : digits s → replace_char "," "" s = s.
Proof.
  induction s as [|c s IH]; [done|].
  rewrite digits_cons. intros [Hc Hs]. simpl.
  destruct (Ascii.eqb_spec c ","%char) as [->|Hne]; [done|]. by rewrite IH.
Qed.


Lemma follower_patterns_units :
  follower_patterns = count_pattern <$> ["follower"; "connection"; "member"]%string.
Proof. reflexivity. Qed.

Lemma groupless_unit_suffix unit : groupless (unit_suffix unit) = true.
Proof. done. Qed.

(** Whatever a pattern of a count finds, its group is a numeral that [int]
    reads once the commas are gone. *)
Lemma search_count_pattern unit s m :
  search (count_pattern unit) s = Some m →
  ∃ w n, m.1 = Some w ∧ py_int (replace_char "," "" w) = Ok n ∧ (0 ≤ n)%Z.
Proof.
  intros (pre & s0 & -> & Hm)%search_Some.
  apply match_at_group in Hm as (w & post & -> & Hw & Hg); [|done].
  apply lang_count_digits in Hw as [Hnum Hhead].
  exists w, (decimal (replace_char "," "" w)). split; [done|].
  pose proof (py_int_digits _ (replace_comma_digits w Hnum) (replace_comma_head w Hhead)) as Hint.
  split; [done|].
  unfold py_int in Hint. destruct (replace_char "," "" w) eqn:Hw; [done|].
  destruct (int_digits 0 _) as [n|] eqn:Hn; [|done].
  injection Hint as <-. by eapply int_digits_nonneg.
Qed.

Lemma extract_from_total units text :
  ∃ o, extract_from (count_pattern <$> units) text = Ok o ∧ ∀ n, o = Some n → (0 ≤ n)%Z.
Proof.
  induction units as [|unit units IH]; cbn [fmap list_fmap extract_from].
  - by exists None.
  - destruct (search _ _) as [[g rest]|] eqn:Hs; [|done].
    apply search_count_pattern in Hs as (w & n & Hg & Hint & Hn). simpl in Hg. subst g.
    rewrite Hint. exists (Some n). split; [done|]. by intros ? [= <-].
Qed.

(** *** Runs of the matcher *)

Lemma head_is_app_digits d s :
  digits d → head_is isdigit s = false → d = ""%string ∨ head_is isdigit (d ++ s) = true.
Proof.
  destruct d as [|c d]; [by left|]. rewrite digits_cons. intros [Hc _] _. by right.
Qed.

Lemma exec_seq {A} r1 r2 g s (k : option string → string → option A) :
  exec (Seq r1 r2) g s k = exec r1 g s (λ g' s', exec r2 g' s' k).
Proof. done. Qed.

Lemma exec_repeat {A} lo hi r g s (k : option string → string → option A) :
  exec (Repeat lo hi r) g s k = repeat_loop (exec r) lo hi k g s.
Proof. done. Qed.

Lemma exec_star {A} r g s (k : option string → string → option A) :
  exec (Star r) g s k = star_loop (exec r) (String.length s) k g s.
Proof. done. Qed.

Lemma exec_group {A} r g s (k : option string → string → option A) :
  exec (Group r) g s k
  = exec r g s (λ _ s', k (Some (substring 0 (String.length s - String.length s') s)) s').
Proof. done. Qed.

Lemma exec_chr_cons {A} c c' g s (k : option string → string → option A) :
  exec (Chr c) g (String c' s) k = if Ascii.eqb c c' then k g s else None.
Proof. done. Qed.

Lemma exec_digit_cons {A} c g s (k : option string → string → option A) :
  exec Digit g (String c s) k = if isdigit c then k g s else None.
Proof. done. Qed.

Lemma exec_space_cons {A} c g s (k : option string → string → option A) :
  exec Space g (String c s) k = if isspace c then k g s else None.
Proof. done. Qed.

Lemma repeat_loop_S {A} body lo hi (k : option string → string → option A) g s :
  repeat_loop body lo (S hi) k g s
  = match body g s (repeat_loop body (pred lo) hi k) with
    | Some a => Some a
    | None => if lo is O then k g s else None
    end.
Proof. done. Qed.

Lemma star_loop_S {A} body n (k : option string → string → option A) g s :
  star_loop body (S n) k g s
  = match body g s (star_loop body n k) with
    | Some a => Some a
    | None => k g s
    end.
Proof. done. Qed.

Lemma exec_lit_app {A} p g s (k : option string → string → option A) :
  exec (Lit p) g (p ++ s) k = k g s.
Proof.
  cbn [exec]. by rewrite (proj2 (after_prefix_Some p (p ++ s) s) eq_refl).
Qed.

Lemma exec_digit_head {A} g s (k : option string → string → option A) :
  head_is isdigit s = false → exec Digit g s k = None.
Proof. destruct s as [|c s]; simpl; [done|]. by intros ->. Qed.

Lemma exec_space_head {A} g s (k : option string → string → option A) :
  head_is isspace s = false → exec Space g s k = None.
Proof. destruct s as [|c s]; simpl; [done|]. by intros ->. Qed.

Lemma exec_chr_head {A} c g s (k : option string → string → option A) :
  head_is (Ascii.eqb c) s = false → exec (Chr c) g s k = None.
Proof. destruct s as [|c' s]; simpl; [done|]. by intros ->. Qed.

(** The greedy run of [\d{lo,hi}] over a string of digits. *)
Lemma repeat_digits_greedy {A} hi lo d s g (k : option string → string → option A) a :
  digits d → (lo ≤ String.length d ≤ hi)%nat →
  String.length d = hi ∨ head_is isdigit s = false →
  k g s = Some a →
  repeat_loop (exec Digit) lo hi k g (d ++ s) = Some a.
Proof.
  revert lo d. induction hi as [|hi IH]; intros lo d Hd Hlen Hend Hk.
  - destruct d; simpl in Hlen; [|lia]. destruct lo; [|lia]. done.
  - destruct d as [|c d].
    + simpl in Hlen. destruct lo; [|lia]. destruct Hend as [?|Hend]; [done|].
      rewrite repeat_loop_S, string_app_nil_l, (exec_digit_head _ _ _ Hend). done.
    + apply digits_cons in Hd as [Hc Hd]. simpl in Hlen.
      rewrite string_app_cons, repeat_loop_S, exec_digit_cons, Hc.
      rewrite (IH (pred lo) d); [done|done|lia| |done].
      destruct Hend as [Hend|Hend]; [left; simpl in Hend; lia|by right].
Qed.

(** The greedy run of [(?:,\d{3})*] over groups of three digits. *)
Lemma star_groups_greedy {A} n groups s g (k : option string → string → option A) a :
  Forall triple groups → (length groups ≤ n)%nat →
  head_is (Ascii.eqb ",") s = false →
  k g s = Some a →
  star_loop (exec (Seq (Chr ",") (Repeat 3 3 Digit))) n k g
    (chain ((λ gr, String "," gr) <$> groups) ++ s) = Some a.
Proof.
  intros Hgroups. revert n. induction Hgroups as [|gr groups [Hd Hlen] _ IH];
    intros n Hn Hs Hk; simpl in Hn.
  - rewrite fmap_nil, chain_nil, string_app_nil_l. destruct n; [done|].
    by rewrite star_loop_S, exec_seq, (exec_chr_head _ _ _ _ Hs).
  - destruct n as [|n]; [lia|]. rewrite fmap_cons, chain_cons.
    rewrite !string_app_cons, string_app_assoc, star_loop_S, exec_seq, exec_chr_cons.
    cbn [Ascii.eqb Bool.eqb]. rewrite exec_repeat.
    rewrite (repeat_digits_greedy 3 3 gr _ g _ a); [done|done|lia|by left|].
    apply IH; [lia|done|done].
Qed.

(** The greedy run of [\s*] over blanks. *)
Lemma star_spaces_greedy {A} n ws s g (k : option string → string → option A) a :
  blank ws → (String.length ws ≤ n)%nat →
  head_is isspace s = false →
  k g s = Some a →
  star_loop (exec Space) n k g (ws ++ s) = Some a.
Proof.
  revert n. induction ws as [|c ws IH]; intros n Hws Hn Hs Hk.
  - rewrite string_app_nil_l. destruct n; [done|].
    by rewrite star_loop_S, (exec_space_head _ _ _ Hs).
  - apply blank_cons in Hws as [Hc Hws]. simpl in Hn. destruct n as [|n]; [lia|].
    rewrite string_app_cons, star_loop_S, exec_space_cons, Hc.
    rewrite IH; [done|done|lia|done|done].
Qed.

Lemma chain_groups_length groups :
  (length groups ≤ String.length (chain ((λ gr, String "," gr) <$> groups)))%nat.
Proof.
  induction groups as [|gr groups IH]; [simpl; lia|].
  rewrite fmap_cons, chain_cons, string_app_length. simpl. lia.
Qed.

Lemma head_is_blank_follower ws rest :
  blank ws → head_is (Ascii.eqb ",") (ws ++ "follower" ++ rest) = false
             ∧ head_is isdigit (ws ++ "follower" ++ rest) = false.
Proof.
  destruct ws as [|c ws]; [done|]. rewrite blank_cons. intros [Hc _].
  rewrite string_app_cons. cbn [head_is]. split.
  - revert Hc. by destruct c as [[] [] [] [] [] [] [] []].
  - destruct (isdigit c) eqn:Hd; [|done]. apply digit_not_space in Hd. congruence.
Qed.

(** The unit, once the count is read. *)
Lemma exec_follower_suffix g ws rest :
  blank ws →
  ∃ rest', exec (unit_suffix "follower") g (ws ++ "follower" ++ rest)
             (λ g' s', Some (g', s')) = Some (g, rest').
Proof.
  intros Hws. unfold unit_suffix. rewrite exec_seq.
  assert (∃ rest', exec (Seq (Lit "follower") (Opt (Chr "s"))) g ("follower" ++ rest)
                     (λ g' s', Some (g', s')) = Some (g, rest')) as [rest' Hrest].
  { rewrite exec_seq, exec_lit_app. unfold Opt. rewrite exec_repeat, repeat_loop_S.
    destruct rest as [|c rest]; [by eexists|].
    rewrite exec_chr_cons. destruct (Ascii.eqb "s" c); by eexists. }
  exists rest'. rewrite exec_star. apply star_spaces_greedy; [done| |done|exact Hrest].
  rewrite string_app_length. lia.
Qed.

(** The count of a pattern over a count in groups: the greedy run reads it
    all and goes on with what follows. *)
Lemma exec_count_digits {A} d groups tail (k : option string → string → option A) a :
  digits d → (1 ≤ String.length d ≤ 3)%nat → Forall triple groups →
  head_is (Ascii.eqb ",") tail = false → head_is isdigit tail = false →
  k None tail = Some a →
  exec count_digits None (d ++ chain ((λ gr, String "," gr) <$> groups) ++ tail) k = Some a.
Proof.
  intros Hd Hlen Hgroups Hcomma Hdigit Hk.
  unfold count_digits. rewrite exec_seq, exec_repeat.
  apply repeat_digits_greedy; [done|done| |].
  { right. destruct groups as [|gr groups]; [by rewrite fmap_nil, chain_nil, string_app_nil_l|].
    by rewrite fmap_cons, chain_cons, !string_app_cons. }
  rewrite exec_star. apply star_groups_greedy; [done| |done|done].
  rewrite string_app_length. pose proof (chain_groups_length groups). lia.
Qed.

(** A count in groups, then blanks, then the unit: the pattern matches at
    the count and captures it. *)
Lemma match_at_grouped d groups ws rest :
  digits d → (1 ≤ String.length d ≤ 3)%nat → Forall triple groups → blank ws →
  ∃ rest',
    match_at (count_pattern "follower") (grouped d groups ++ ws ++ "follower" ++ rest)
    = Some (Some (grouped d groups), rest').
Proof.
  intros Hd Hlen Hgroups Hws.
  destruct (head_is_blank_follower ws rest Hws) as [Hcomma Hdigit].
  destruct (exec_follower_suffix (Some (grouped d groups)) ws rest Hws) as [rest' Hrest].
  exists rest'. unfold match_at, count_pattern. rewrite exec_seq, exec_group.
  set (s := (grouped d groups ++ ws ++ "follower" ++ rest)%string).
  cut (∀ x, x = (d ++ chain ((λ gr, String "," gr) <$> groups)
                   ++ ws ++ "follower" ++ rest)%string →
         exec count_digits None x
           (λ _ s', exec (unit_suffix "follower")
                      (Some (substring 0 (String.length s - String.length s') s)) s'
                      (λ g rest0, Some (g, rest0)))
         = Some (Some (grouped d groups), rest')).
  { intros H. apply (H s). unfold s, grouped. by rewrite string_app_assoc. }
  intros x ->. apply exec_count_digits; [done..|].
  unfold s. by rewrite substring_prefix.
Qed.

(** No match where the text has no digit. *)
Lemma match_at_no_digit unit s :
  head_is isdigit s = false → match_at (count_pattern unit) s = None.
Proof.
  intros Hs. unfold match_at, count_pattern, count_digits.
  by rewrite exec_seq, exec_group, exec_seq, exec_repeat, repeat_loop_S,
    (exec_digit_head _ _ _ Hs).
Qed.

Lemma search_digit_free unit s : digit_free s → search (count_pattern unit) s = None.
Proof.
  induction s as [|c s IH].
  - intros _. cbn [search]. by rewrite match_at_no_digit.
  - rewrite digit_free_cons. intros [Hc Hs]. cbn [search].
    rewrite match_at_no_digit by done. auto.
Qed.

Lemma search_skip unit pre s :
  digit_free pre → search (count_pattern unit) (pre ++ s) = search (count_pattern unit) s.
Proof.
  induction pre as [|c pre IH]; [done|].
  rewrite digit_free_cons. intros [Hc Hpre]. rewrite string_app_cons. cbn [search].
  rewrite match_at_no_digit by done. auto.
Qed.

(** No match at a digit that three digits follow: the count takes at most
    three of them, and neither a comma, a blank nor the unit comes next. *)
Lemma follower_tail_fails {A} g s0 s (k : option string → string → option A) :
  head_is isdigit s = true →
  exec (Star (Seq (Chr ",") (Repeat 3 3 Digit))) g s
    (λ _ s', exec (unit_suffix "follower")
               (Some (substring 0 (String.length s0 - String.length s') s0)) s' k)
  = None.
Proof.
  destruct s as [|c s]; [done|]. cbn [head_is]. intros Hc.
  rewrite exec_star. cbn [String.length]. rewrite star_loop_S, exec_seq, exec_chr_cons.
  rewrite (digit_not_comma c Hc). unfold unit_suffix.
  rewrite exec_seq, exec_star. cbn [String.length].
  rewrite star_loop_S, exec_space_cons, (digit_not_space c Hc), exec_seq.
  cbn [exec after_prefix]. destruct (Ascii.eqb_spec "f" c) as [<-|]; done.
Qed.

Lemma match_at_long_run c d s :
  isdigit c = true → digits d → (3 ≤ String.length d)%nat →
  match_at (count_pattern "follower") (String c (d ++ s)) = None.
Proof.
  intros Hc Hd Hlen.
  destruct d as [|c1 [|c2 [|c3 d]]]; simpl in Hlen; try lia.
  apply digits_cons in Hd as [Hc1 Hd]. apply digits_cons in Hd as [Hc2 Hd].
  apply digits_cons in Hd as [Hc3 Hd]. rewrite !string_app_cons.
  unfold match_at, count_pattern, count_digits.
  rewrite exec_seq, exec_group, exec_seq, exec_repeat.
  rewrite repeat_loop_S, exec_digit_cons, Hc. cbn [pred].
  rewrite repeat_loop_S, exec_digit_cons, Hc1. cbn [pred].
  rewrite repeat_loop_S, exec_digit_cons, Hc2. cbn [pred repeat_loop].
  rewrite !follower_tail_fails by done. done.
Qed.

Lemma search_skip_run d0 d s :
  digits d0 → digits d → (3 ≤ String.length d)%nat →
  search (count_pattern "follower") (d0 ++ d ++ s)
  = search (count_pattern "follower") (d ++ s).
Proof.
  induction d0 as [|c d0 IH]; [done|].
  rewrite digits_cons. intros [Hc Hd0] Hd Hlen. rewrite string_app_cons. cbn [search].
  rewrite <-string_app_assoc.
  rewrite match_at_long_run; [|done|by apply digits_app|rewrite string_app_length; lia].
  rewrite string_app_assoc. auto.
Qed.

Lemma search_at r s m : match_at r s = Some m → search r s = Some m.
Proof. intros H. destruct s; cbn [search]; by rewrite H. Qed.





Lemma extract_follower_count_ok text :
  ∃ o, extract_follower_count text = Ok o ∧ ∀ n, o = Some n → (0 ≤ n)%Z.
Proof.
  unfold extract_follower_count. destruct (String.eqb text ""); [by exists None|].
  rewrite follower_patterns_units. apply extract_from_total.
Qed.

End counts.

(** X1.  [extract_follower_count] never raises: what a pattern captures is a
    numeral that starts with a digit, which [int] reads; and the count it
    returns is never negative. *)
Theorem extract_follower_count_total (text : string) :
  ∃ o, extract_follower_count text = Ok o ∧ ∀ n, o = Some n → (0 ≤ n)%Z.
Proof. apply extract_follower_count_ok. Qed.

(** X2.  A text without a digit, the empty text among them, has no follower
    count. *)
Theorem extract_follower_count_no_digit (text : string) :
  digit_free text → extract_follower_count text = Ok None.
Proof.
  intros Htext. unfold extract_follower_count. destruct (String.eqb text ""); [done|].
  rewrite follower_patterns_units. simpl.
  by rewrite !search_digit_free by (by apply lower_digit_free).
Qed.

Lemma extract_follower_count_no_digit_witness :
  digit_free "Building AI agents at scale"
  ∧ extract_follower_count "Building AI agents at scale" = Ok None.
Proof.
  assert (digit_free "Building AI agents at scale") as H by (unfold digit_free; compute_done).
  split; [exact H|]. exact (extract_follower_count_no_digit _ H).
Defined.



(** X4.  A run of more than three digits that has no commas is cut: of the
    digits written before the word "follower" only the last three are read. *)
Theorem extract_follower_count_ungrouped
    (pre d0 d ws word rest : string) :
  digit_free pre → digits d0 → digits d → String.length d = 3%nat →
  blank ws → lower word = "follower"%string →
  extract_follower_count (pre ++ d0 ++ d ++ ws ++ word ++ rest) = Ok (Some (decimal d)).
Proof.
  intros Hpre Hd0 Hd Hlen Hws Hword. unfold extract_follower_count.
  destruct (String.eqb_spec (pre ++ d0 ++ d ++ ws ++ word ++ rest) "") as [He|_].
  { exfalso. apply (f_equal String.length) in He.
    rewrite !string_app_length in He. simpl in He. lia. }
  rewrite follower_patterns_units. cbn [fmap list_fmap extract_from].
  rewrite !lower_app, (lower_digits d0 Hd0), (lower_digits d Hd), (lower_blank ws Hws), Hword.
  rewrite search_skip by (by apply lower_digit_free).
  rewrite search_skip_run by (done || lia).
  destruct (match_at_grouped d [] ws (lower rest)) as [rest' Hm]; [done|lia|done|done|].
  unfold grouped in Hm. simpl in Hm. rewrite string_app_nil_r in Hm.
  rewrite (search_at _ _ _ Hm).
  rewrite replace_comma_id by done.
  rewrite py_int_digits; [done|done|]. destruct d; [simpl in Hlen; lia|done].
Qed.

Lemma extract_follower_count_ungrouped_witness :
  extract_follower_count "12345 followers" = Ok (Some 345%Z).
Proof.
  refine (extract_follower_count_ungrouped "" "12" "345" " " "follower" "s" _ _ _ _ _ _).
  - constructor.
  - unfold digits. compute_done.
  - unfold digits. compute_done.
  - reflexivity.
  - unfold blank. compute_done.
  - reflexivity.
Defined.

(** ** Cleaned text ([utils.clean_text]) *)

Section cleaning.

Implicit Types (s w : string) (c : ascii) (g : option string).

Lemma lstrip_length s : (String.length (lstrip s) ≤ String.length s)%nat.
Proof. induction s as [|c s IH]; simpl; [lia|]. destruct (isspace c); simpl; lia. Qed.

Lemma lstrip_head s : head_is isspace (lstrip s) = false.
Proof. induction s as [|c s IH]; simpl; [done|]. by destruct (isspace c) eqn:Hc. Qed.

Lemma lstrip_id s : head_is isspace s = false → lstrip s = s.
Proof. destruct s as [|c s]; simpl; [done|]. by intros ->. Qed.

(** The greedy run of [\s*] under the final continuation. *)
Lemma star_spaces_all n s g :
  (String.length s ≤ n)%nat →
  star_loop (exec Space) n (λ g' rest, Some (g', rest)) g s = Some (g, lstrip s).
Proof.
  revert n. induction s as [|c s IH]; intros n Hn.
  - by destruct n.
  - simpl in Hn. destruct n as [|n]; [lia|].
    rewrite star_loop_S, exec_space_cons. simpl.
    destruct (isspace c); [|done]. rewrite IH by lia. done.
Qed.

Lemma match_at_spaces c s :
  match_at (Plus Space) (String c s) = if isspace c then Some (None, lstrip s) else None.
Proof.
  unfold match_at, Plus. rewrite exec_seq, exec_space_cons.
  destruct (isspace c); [|done]. rewrite exec_star. by apply star_spaces_all.
Qed.

Lemma sub_from_skip r repl s :
  sub_from r repl (String.length s - String.length (lstrip s)) s
  = sub_from r repl 0 (lstrip s).
Proof.
  induction s as [|c s IH]; [done|]. cbn [lstrip]. destruct (isspace c).
  - pose proof (lstrip_length s).
    replace (String.length (String c s) - String.length (lstrip s))%nat
      with (S (String.length s - String.length (lstrip s))) by (simpl; lia).
    done.
  - by rewrite Nat.sub_diag.
Qed.

Lemma sub_spaces_cons c s :
  sub_from (Plus Space) " " 0 (String c s)
  = if isspace c then String " " (sub_from (Plus Space) " " 0 (lstrip s))
    else String c (sub_from (Plus Space) " " 0 s).
Proof.
  cbn [sub_from]. rewrite match_at_spaces. destruct (isspace c); [|done].
  pose proof (lstrip_length s).
  replace (String.length (String c s) - String.length (lstrip s))%nat
    with (S (String.length s - String.length (lstrip s))) by (simpl; lia).
  by rewrite sub_from_skip.
Qed.

Lemma squeeze_space c s :
  isspace c = true → squeeze (String c s) = String " " (squeeze (lstrip s)).
Proof.
  revert c. induction s as [|c' s IH]; intros c Hc.
  - simpl. by rewrite Hc.
  - change (squeeze (String c (String c' s)))
      with (if isspace c
            then if isspace c' then squeeze (String c' s) else String " " (squeeze (String c' s))
            else String c (squeeze (String c' s))).
    rewrite Hc. cbn [lstrip]. destruct (isspace c') eqn:Hc'; [|done]. by apply IH.
Qed.

Lemma sub_spaces s : sub (Plus Space) " " s = squeeze s.
Proof.
  unfold sub. remember (String.length s) as n eqn:Hn.
  assert (String.length s ≤ n)%nat as Hle by lia. clear Hn.
  revert s Hle. induction n as [|n IH]; intros [|c s] Hle; simpl in Hle; try done; try lia.
  rewrite sub_spaces_cons. destruct (isspace c) eqn:Hc.
  - rewrite squeeze_space by done. rewrite IH; [done|]. pose proof (lstrip_length s). lia.
  - simpl. rewrite Hc, IH; [done|lia].
Qed.

(** *** What [strip] leaves *)

Lemma rstrip_fixed c s :
  rstrip (String c s) = String c s ↔
  (s = ""%string ∧ isspace c = false) ∨ (s ≠ ""%string ∧ rstrip s = s).
Proof.
  simpl. destruct (rstrip s) as [|c' t] eqn:Ht.
  - destruct (isspace c) eqn:Hc; split.
    + done.
    + intros [[_ ?]|[? <-]]; done.
    + intros [= <-]. by left.
    + intros [[-> _]|[? <-]]; done.
  - split.
    + intros [= <-]. by right.
    + intros [[-> _]|[_ <-]]; done.
Qed.

Lemma rstrip_rstrip s : rstrip (rstrip s) = rstrip s.
Proof.
  induction s as [|c s IH]; [done|]. simpl.
  destruct (rstrip s) as [|c' t] eqn:Ht.
  - destruct (isspace c) eqn:Hc; simpl; by rewrite ?Hc.
  - apply rstrip_fixed. right. split; [done|]. exact IH.
Qed.

Lemma rstrip_head s : head_is isspace s = false → head_is isspace (rstrip s) = false.
Proof.
  destruct s as [|c s]; [done|]. simpl. intros Hc.
  destruct (rstrip s); by rewrite ?Hc.
Qed.

Lemma strip_clean s :
  head_is isspace (strip s) = false ∧ rstrip (strip s) = strip s.
Proof.
  unfold strip. split; [apply rstrip_head, lstrip_head|apply rstrip_rstrip].
Qed.

(** *** The shape of the result *)

Lemma squeeze_head s : head_is isspace s = false → head_is isspace (squeeze s) = false.
Proof. destruct s as [|c s]; [done|]. simpl. intros Hc. by rewrite Hc. Qed.

Lemma squeeze_spaced s : rstrip s = s → spaced (squeeze s).
Proof.
  induction s as [|c s IH]; [done|].
  intros [[-> Hc]|[Hne Hs]]%rstrip_fixed.
  - simpl. rewrite Hc. simpl. split; [|done]. intros; congruence.
  - specialize (IH Hs). simpl. destruct (isspace c) eqn:Hc.
    + destruct (head_is isspace s) eqn:Hhead; [done|].
      simpl. split; [|done]. intros _. split; [done|].
      destruct s as [|c' s]; [done|]. simpl in *. rewrite Hhead. simpl. by rewrite Hhead.
    + simpl. split; [|done]. intros; congruence.
Qed.

Lemma quote_not_space : isspace quote = false.
Proof. done. Qed.

Lemma replace_quote_cons c s :
  replace_char quote doubled_quote (String c s)
  = if Ascii.eqb c quote
    then String quote (String quote (replace_char quote doubled_quote s))
    else String c (replace_char quote doubled_quote s).
Proof. cbn [replace_char]. by destruct (Ascii.eqb c quote). Qed.

Lemma replace_quote_head s :
  head_is (λ c', negb (isspace c')) s = true →
  head_is (λ c', negb (isspace c')) (replace_char quote doubled_quote s) = true.
Proof.
  destruct s as [|c s]; [done|]. rewrite replace_quote_cons. cbn [head_is]. intros Hc.
  destruct (Ascii.eqb c quote); [done|]. done.
Qed.

Lemma replace_quote_spaced s : spaced s → spaced (replace_char quote doubled_quote s).
Proof.
  induction s as [|c s IH]; [done|]. intros [Hc Hs]. rewrite replace_quote_cons.
  destruct (Ascii.eqb_spec c quote) as [->|Hne].
  - cbn [spaced]. split_and!; [done|done|auto].
  - cbn [spaced]. split; [|auto]. intros [-> Hhead]%Hc. split; [done|].
    by apply replace_quote_head.
Qed.

Lemma replace_quote_head_space s :
  head_is isspace s = false → head_is isspace (replace_char quote doubled_quote s) = false.
Proof.
  destruct s as [|c s]; [done|]. rewrite replace_quote_cons. cbn [head_is]. intros Hc.
  destruct (Ascii.eqb c quote); [done|]. done.
Qed.


Lemma spaced_rstrip s : spaced s → rstrip s = s.
Proof.
  induction s as [|c s IH]; [done|]. intros [Hc Hs]. apply rstrip_fixed.
  destruct s as [|c' s].
  - left. split; [done|]. destruct (isspace c); [|done]. by destruct Hc.
  - right. split; [done|]. by apply IH.
Qed.



Lemma spaced_squeeze s : spaced s → squeeze s = s.
Proof.
  induction s as [|c s IH]; [done|]. intros [Hc Hs]. simpl. rewrite IH by done.
  destruct (isspace c) eqn:Hsp; [|done]. destruct Hc as [-> Hhead]; [done|].
  destruct s as [|c' s]; [done|]. simpl in *.
  by destruct (isspace c').
Qed.



(** The result of [clean_text], short of the quotes. *)
Lemma clean_text_squeeze text :
  clean_text text = replace_char quote doubled_quote (squeeze (strip text)).
Proof.
  unfold clean_text. rewrite sub_spaces.
  destruct (String.eqb_spec text "") as [->|]; done.
Qed.

Lemma clean_text_spaced text :
  head_is isspace (clean_text text) = false ∧ spaced (clean_text text).
Proof.
  rewrite clean_text_squeeze. destruct (strip_clean text) as [Hhead Htail]. split.
  - by apply replace_quote_head_space, squeeze_head.
  - by apply replace_quote_spaced, squeeze_spaced.
Qed.

(** *** The content of the result *)

Lemma unspaced_lstrip s : unspaced (lstrip s) = unspaced s.
Proof. induction s as [|c s IH]; [done|]. simpl. by destruct (isspace c) eqn:Hc; simpl; rewrite ?Hc. Qed.

Lemma unspaced_rstrip s : unspaced (rstrip s) = unspaced s.
Proof.
  induction s as [|c s IH]; [done|]. simpl. rewrite <-IH.
  destruct (rstrip s) as [|c' t]; destruct (isspace c) eqn:Hc; simpl; by rewrite ?Hc.
Qed.

Lemma unspaced_squeeze s : unspaced (squeeze s) = unspaced s.
Proof.
  induction s as [|c s IH]; [done|]. simpl. destruct (isspace c) eqn:Hc.
  - destruct (head_is isspace s); simpl; done.
  - simpl. by rewrite Hc, IH.
Qed.

Lemma unspaced_replace_quote s :
  unspaced (replace_char quote doubled_quote s) = replace_char quote doubled_quote (unspaced s).
Proof.
  induction s as [|c s IH]; [done|]. rewrite replace_quote_cons.
  destruct (Ascii.eqb_spec c quote) as [->|Hne].
  - cbn [unspaced]. rewrite quote_not_space, replace_quote_cons, Ascii.eqb_refl.
    by rewrite IH.
  - cbn [unspaced]. destruct (isspace c); [done|]. rewrite replace_quote_cons.
    destruct (Ascii.eqb_spec c quote); [done|]. by rewrite IH.
Qed.

(** *** Quotes *)

Lemma replace_quote_free s : quote ∉ chars s → replace_char quote doubled_quote s = s.
Proof.
  induction s as [|c s IH]; [done|]. rewrite replace_quote_cons.
  intros [Hc Hs]%not_elem_of_cons.
  destruct (Ascii.eqb_spec c quote) as [->|_]; [done|]. by rewrite IH.
Qed.

Lemma replace_quote_length s :
  quote ∈ chars s → (String.length s < String.length (replace_char quote doubled_quote s))%nat.
Proof.
  assert (∀ s, String.length s ≤ String.length (replace_char quote doubled_quote s))%nat as Hle.
  { clear s. induction s as [|c s IH]; [simpl; lia|]. rewrite replace_quote_cons.
    destruct (Ascii.eqb c quote); simpl; lia. }
  induction s as [|c s IH].
  - by intros ?%elem_of_nil.
  - rewrite replace_quote_cons. destruct (Ascii.eqb_spec c quote) as [->|Hne].
    + intros _. simpl. specialize (Hle s). lia.
    + intros [?|Hin]%elem_of_cons; [done|]. specialize (IH Hin). simpl. lia.
Qed.

Lemma chars_unspaced s c : c ∈ chars (unspaced s) ↔ c ∈ chars s ∧ isspace c = false.
Proof.
  induction s as [|c' s IH]; simpl.
  - split; [by intros ?%elem_of_nil|by intros [?%elem_of_nil _]].
  - destruct (isspace c') eqn:Hc'.
    + rewrite IH, elem_of_cons. split; [tauto|]. intros [[->|?] ?]; [congruence|done].
    + unfold chars in *. simpl. rewrite !elem_of_cons, IH. split.
      * intros [->|[? ?]]; auto.
      * intros [[->|?] ?]; auto.
Qed.

Lemma chars_replace_quote s : quote ∈ chars (replace_char quote doubled_quote s) ↔ quote ∈ chars s.
Proof.
  induction s as [|c s IH]; [done|]. rewrite replace_quote_cons.
  destruct (Ascii.eqb_spec c quote) as [->|Hne].
  - unfold chars. simpl. split; intros _; by left.
  - unfold chars in *. simpl. rewrite !elem_of_cons, IH. done.
Qed.

Lemma clean_text_quote text : quote ∈ chars (clean_text text) ↔ quote ∈ chars text.
Proof.
  trans (quote ∈ chars (unspaced (clean_text text))).
  { rewrite chars_unspaced. split; [done|tauto]. }
  rewrite clean_text_squeeze, unspaced_replace_quote, chars_replace_quote.
  unfold strip. rewrite unspaced_squeeze, unspaced_rstrip, unspaced_lstrip.
  rewrite chars_unspaced. split; [tauto|done].
Qed.

End cleaning.



(** X7.  A second pass of [clean_text] only doubles the quotes again: the
    function is idempotent exactly on the texts without a double quote. *)
Theorem clean_text_twice (text : string) :
  clean_text (clean_text text)
  = replace_char quote doubled_quote (clean_text text)
  ∧ (clean_text (clean_text text) = clean_text text ↔ quote ∉ chars text).
Proof.
  destruct (clean_text_spaced text) as [Hhead Hspaced].
  assert (clean_text (clean_text text)
          = replace_char quote doubled_quote (clean_text text)) as Htwice.
  { rewrite (clean_text_squeeze (clean_text text)). unfold strip.
    by rewrite (lstrip_id _ Hhead), spaced_rstrip, spaced_squeeze. }
  split; [done|]. rewrite Htwice, <-clean_text_quote. split.
  - intros Heq Hin. apply replace_quote_length in Hin. rewrite Heq in Hin. lia.
  - apply replace_quote_free.
Qed.

(** ** URLs ([utils.generate_search_url], [utils.is_valid_profile_url]) *)

Section urls.

Implicit Types (s w : string) (c : ascii).

Lemma chars_app s1 s2 : chars (s1 ++ s2) = chars s1 ++ chars s2.
Proof.
  induction s1 as [|c s1 IH]; [done|]. rewrite string_app_cons. unfold chars in *. simpl.
  by rewrite IH.
Qed.

Lemma pretty_N_char_digit n : isdigit (pretty_N_char n) = true.
Proof. unfold pretty_N_char. by repeat case_match. Qed.

Lemma pretty_N_go_digits (x : N) s :
  Forall (λ c, isdigit c = true ∨ c = "-"%char) (chars s) →
  Forall (λ c, isdigit c = true ∨ c = "-"%char) (chars (pretty_N_go x s)).
Proof.
  revert s. induction (N.lt_wf_0 x) as [x _ IH]; intros s Hs.
  destruct (decide (x = 0%N)) as [->|Hx].
  - by rewrite pretty_N_go_0.
  - rewrite pretty_N_go_step by lia. apply IH.
    + apply N.div_lt; lia.
    + unfold chars. simpl. constructor; [|done]. left. apply pretty_N_char_digit.
Qed.

Lemma pretty_N_digits (x : N) :
  Forall (λ c, isdigit c = true ∨ c = "-"%char) (chars (pretty x)).
Proof.
  unfold pretty, pretty_N. case_decide; [by repeat constructor|].
  apply pretty_N_go_digits. constructor.
Qed.

Lemma pretty_Z_digits (x : Z) :
  Forall (λ c, isdigit c = true ∨ c = "-"%char) (chars (pretty x)).
Proof.
  destruct x as [|p|p]; unfold pretty, pretty_Z.
  - by repeat constructor.
  - apply pretty_N_digits.
  - unfold chars. simpl. constructor; [by right|]. apply pretty_N_digits.
Qed.

Lemma replace_space_chars s : " "%char ∉ chars (replace_char " " "%20" s).
Proof.
  induction s as [|c s IH]; [by intros ?%elem_of_nil|]. cbn [replace_char].
  destruct (Ascii.eqb_spec c " ") as [->|Hne].
  - rewrite !string_app_cons, string_app_nil_l. unfold chars in *. simpl.
    rewrite !elem_of_cons. intros [?|[?|[?|?]]]; done.
  - unfold chars in *. simpl. rewrite elem_of_cons. intros [?|?]; done.
Qed.

Lemma replace_space_free s : " "%char ∉ chars s → replace_char " " "%20" s = s.
Proof.
  induction s as [|c s IH]; [done|]. cbn [replace_char].
  intros [Hc Hs]%not_elem_of_cons.
  destruct (Ascii.eqb_spec c " ") as [->|_]; [done|]. by rewrite IH.
Qed.

Lemma match_at_lit p s :
  is_Some (match_at (Lit p) s) ↔ ∃ post, s = (p ++ post)%string.
Proof.
  unfold match_at. cbn [exec]. destruct (after_prefix p s) as [s'|] eqn:Hp.
  - apply after_prefix_Some in Hp. split; [eauto|]. intros _. by eexists.
  - split; [by intros [? ?]|]. intros [post Hpost]. apply after_prefix_Some in Hpost. congruence.
Qed.

(** [re.search] of a literal pattern finds it wherever it occurs. *)
Lemma search_lit p s :
  is_Some (search (Lit p) s) ↔ ∃ pre post, s = (pre ++ p ++ post)%string.
Proof.
  induction s as [|c s IH]; cbn [search].
  - destruct (match_at (Lit p) "") as [m|] eqn:Hm.
    + split; [|by eexists]. intros _.
      destruct (proj1 (match_at_lit p "")) as [post Hpost]; [by rewrite Hm|].
      by exists ""%string, post.
    + split; [by intros [? ?]|]. intros (pre & post & Hs).
      destruct pre; [|done]. rewrite string_app_nil_l in Hs.
      destruct (proj2 (match_at_lit p "")) as [? ?]; [eauto|congruence].
  - destruct (match_at (Lit p) (String c s)) as [m|] eqn:Hm.
    + split; [|by eexists]. intros _.
      destruct (proj1 (match_at_lit p (String c s))) as [post Hpost]; [by rewrite Hm|].
      by exists ""%string, post.
    + rewrite IH. split.
      * intros (pre & post & ->). by exists (String c pre), post.
      * intros ([|c' pre] & post & Hs).
        -- rewrite string_app_nil_l in Hs.
           destruct (proj2 (match_at_lit p (String c s))) as [? ?]; [eauto|congruence].
        -- rewrite string_app_cons in Hs. injection Hs as -> ->. eauto.
Qed.

End urls.

(** X8.  The search URL never holds a space, whatever the keyword and the page:
    every space of the keyword is written [%20].  Nothing else is encoded: a
    keyword without a space is passed as it is. *)
Theorem generate_search_url_spaces (keyword : string) (page : Z) :
  (" "%char ∉ chars (generate_search_url keyword page))
  ∧ ((" "%char ∉ chars keyword) →
     generate_search_url keyword page
     = ("https://www.linkedin.com/search/results/people/?keywords=" ++ keyword
        ++ "&origin=GLOBAL_SEARCH_HEADER&page=" ++ pretty page)%string).
Proof.
  unfold generate_search_url. split.
  - assert (Forall (λ c, c ≠ " "%char)
              (chars "https://www.linkedin.com/search/results/people/?keywords=")) as H1
      by compute_done.
    assert (Forall (λ c, c ≠ " "%char) (chars "&origin=GLOBAL_SEARCH_HEADER&page=")) as H2
      by compute_done.
    rewrite !chars_app, !elem_of_app. intros [H|[H|[H|H]]].
    + by apply (proj1 (Forall_forall _ _) H1) in H.
    + by apply replace_space_chars in H.
    + by apply (proj1 (Forall_forall _ _) H2) in H.
    + pose proof (pretty_Z_digits page) as Hd.
      apply (proj1 (Forall_forall _ _) Hd) in H as [?|?]; done.
  - intros Hk. by rewrite replace_space_free.
Qed.

(** X9.  A URL is taken for a profile exactly when [linkedin.com/in/] or
    [linkedin.com/pub/] occurs somewhere in it: neither the scheme, the host
    nor what follows is looked at. *)
Theorem is_valid_profile_url_spec (url : string) :
  is_valid_profile_url url = true
  ↔ ∃ pre post, url = (pre ++ "linkedin.com/in/" ++ post)%string
                ∨ url = (pre ++ "linkedin.com/pub/" ++ post)%string.
Proof.
  unfold is_valid_profile_url, linkedin_patterns. cbn [existsb].
  rewrite orb_false_r.
  destruct (String.eqb_spec url "") as [->|Hne].
  - split; [done|]. intros ([|c pre] & post & [H|H]); done.
  - rewrite orb_true_iff, !bool_decide_eq_true, !search_lit. split.
    + intros [(pre & post & ->)|(pre & post & ->)]; exists pre, post; auto.
    + intros (pre & post & [->| ->]); eauto.
Qed.

(** ** The scraper ([linkedin_scraper.py]) *)

Section scraper.

Implicit Types (r p : gmap string pyval) (σ : gmap nat (gmap string pyval)).

Lemma scored_record_numeric r : scored_record r → numeric_scores r.
Proof.
  intros (c & p & Hc & Hp). split; right; eauto.
Qed.

Lemma field_counts_insert r k v f :
  k ≠ f → field_counts (<[k := v]> r) f = field_counts r f.
Proof. intros Hk. unfold field_counts. by rewrite lookup_insert_ne. Qed.

(** The completeness only reads the six fields it scores. *)
Lemma completeness_insert r k v :
  k ∉ required_fields ++ optional_fields →
  calculate_profile_completeness (<[k := v]> r) = calculate_profile_completeness r.
Proof.
  intros Hk. unfold calculate_profile_completeness, required_fields, optional_fields in *.
  cbn [foldl length]. rewrite !field_counts_insert; [done|..];
    intros ->; apply Hk; set_solver.
Qed.

Lemma confidence_insert r k v kw :
  k ∉ required_fields ++ optional_fields →
  calculate_confidence_score (<[k := v]> r) kw = calculate_confidence_score r kw.
Proof.
  intros Hk. unfold calculate_confidence_score.
  rewrite completeness_insert by done.
  rewrite !lookup_insert_ne; [done|..];
    intros ->; apply Hk; unfold required_fields, optional_fields; set_solver.
Qed.

(** With a follower count and a completeness of 0.6 at least, the confidence
    is 0.78 at least. *)
Lemma confidence_lower_bound r kw s :
  calculate_confidence_score r kw = Ok s →
  truthy (default VNone (r !! "follower_count")) = true →
  qc 6 10 ≤ calculate_profile_completeness r →
  qc 39 50 ≤ s.
Proof.
  unfold calculate_confidence_score. intros Hs Hf Hc. rewrite Hf in Hs.
  destruct (default (VStr "") (r !! "headline")); try done. cbn [bind] in Hs.
  injection Hs as <-. revert Hc.
  unfold calculate_profile_completeness, required_fields, optional_fields.
  cbn [foldl length].
  destruct (field_counts r "name"), (field_counts r "headline"),
    (field_counts r "location"), (field_counts r "profile_url"),
    (field_counts r "company"), (field_counts r "follower_count"),
    (contains _ _); intros Hc;
    first [ compute_done | exfalso; revert Hc; compute_done ].
Qed.

Lemma py_lt_score r k (m : Qc) :
  numeric_score r k →
  py_lt (default (VInt 0) (r !! k)) (VFloat m) = Ok (bool_decide (score_or_zero r k < m)).
Proof.
  unfold score_or_zero. intros [->|(v & q & -> & Hq)]; simpl.
  - by rewrite Z2Qc_inj_0.
  - destruct v; simplify_eq/=; done.
Qed.

(** What a record that passes [_validate_profile] has been checked for. *)
Lemma validate_profile_true r :
  _validate_profile r = Ok true →
  valid_url (default (VStr "") (r !! "profile_url")) = Ok true
  ∧ validate_follower_count (default VNone (r !! "follower_count"))
      Config.MIN_FOLLOWERS Config.MAX_FOLLOWERS = Ok true
  ∧ py_lt (default (VInt 0) (r !! "profile_completeness"))
      (VFloat Config.MIN_PROFILE_COMPLETENESS) = Ok false
  ∧ py_lt (default (VInt 0) (r !! "confidence_score"))
      (VFloat Config.CONFIDENCE_THRESHOLD) = Ok false.
Proof.
  unfold _validate_profile.
  destruct (valid_url _) as [[]|]; [|done..]. cbn [bind negb].
  destruct (validate_follower_count _ _ _) as [[]|]; [|done..]. cbn [bind negb].
  destruct (py_lt _ (VFloat Config.MIN_PROFILE_COMPLETENESS)) as [[]|]; [done| |done].
  cbn [bind].
  destruct (py_lt _ (VFloat Config.CONFIDENCE_THRESHOLD)) as [[]|]; done.
Qed.

Lemma validate_profile_passes r :
  numeric_scores r → _validate_profile r = Ok true →
  passes Config.CONFIDENCE_THRESHOLD Config.MIN_PROFILE_COMPLETENESS r.
Proof.
  intros [Hc Hp] (_ & _ & Hcompl & Hconf)%validate_profile_true.
  rewrite (py_lt_score _ _ _ Hp) in Hcompl. rewrite (py_lt_score _ _ _ Hc) in Hconf.
  injection Hcompl as Hcompl. injection Hconf as Hconf.
  apply bool_decide_eq_false in Hcompl, Hconf.
  split; by apply Qcnot_lt_le.
Qed.

Lemma validate_count_in_range v :
  validate_follower_count v Config.MIN_FOLLOWERS Config.MAX_FOLLOWERS = Ok true →
  ∃ q, as_number v = Some q
       ∧ Qc_of_Z Config.MIN_FOLLOWERS ≤ q ≤ Qc_of_Z Config.MAX_FOLLOWERS.
Proof.
  unfold validate_follower_count.
  destruct v as [|s|n|q|]; try done; cbn [py_ge as_number bind].
  - case_bool_decide as H1; [|done]. intros [= H2]. apply bool_decide_eq_true in H2.
    exists (Qc_of_Z n). split; [done|]. split; [exact H1|exact H2].
  - case_bool_decide as H1; [|done]. intros [= H2]. apply bool_decide_eq_true in H2.
    exists q. split; [done|]. split; [exact H1|exact H2].
Qed.

(** *** The record of an element *)

Lemma scored_profile_spec name headline location url company fc kw now p :
  scored_profile name headline location url company fc kw now = Ok p →
  dom p = scraped_fields
  ∧ p !! "name" = Some (VStr name) ∧ p !! "headline" = Some (VStr headline)
  ∧ p !! "location" = Some (VStr location) ∧ p !! "profile_url" = Some url
  ∧ p !! "company" = Some (VStr company)
  ∧ p !! "follower_count" = Some (from_option VInt VNone fc)
  ∧ p !! "keyword_matched" = Some (VStr kw) ∧ p !! "scraped_date" = Some (VStr now)
  ∧ p !! "profile_completeness" = Some (VFloat (calculate_profile_completeness p))
  ∧ ∃ s, p !! "confidence_score" = Some (VFloat s) ∧ calculate_confidence_score p kw = Ok s.
Proof.
  unfold scored_profile. cbv zeta.
  set (r0 := ({[ "name" := VStr name; "headline" := VStr headline;
                 "location" := VStr location; "profile_url" := url;
                 "company" := VStr company;
                 "follower_count" := from_option VInt VNone fc;
                 "keyword_matched" := VStr kw; "scraped_date" := VStr now ]}
              : gmap string pyval)%string).
  destruct (calculate_confidence_score _ kw) as [s|] eqn:Hs; [|done].
  cbn [bind]. intros [= <-].
  assert ("confidence_score"%string ∉ required_fields ++ optional_fields) as H1
    by compute_done.
  assert ("profile_completeness"%string ∉ required_fields ++ optional_fields) as H2
    by compute_done.
  split_and!.
  - rewrite !dom_insert_L. unfold r0. rewrite !dom_insert_L, dom_singleton_L.
    unfold scraped_fields. set_solver.
  - done.
  - done.
  - done.
  - done.
  - done.
  - done.
  - done.
  - done.
  - rewrite lookup_insert_ne by done. rewrite lookup_insert_eq.
    by rewrite !completeness_insert.
  - exists s. split; [by rewrite lookup_insert_eq|].
    by rewrite confidence_insert.
Qed.

Lemma extract_single_profile_scored el kw now p :
  _extract_single_profile el kw now = Some p →
  ∃ name headline location url company fc,
    scored_profile (clean_text name) (clean_text headline) (clean_text location) url
      company fc kw now = Ok p
    ∧ fc = _extract_follower_count_from_element el.
Proof.
  unfold _extract_single_profile.
  destruct (find_text el ".entity-result__title-text") as [name|]; [|done].
  destruct (find_text el ".entity-result__primary-subtitle") as [headline|]; [|done].
  destruct (find_text el ".entity-result__secondary-subtitle") as [location|]; [|done].
  destruct (find_href el "a[href*='/in/']") as [url|]; [|done].
  cbn [bind].
  destruct (match find_text el ".entity-result__tertiary-subtitle" with
            | Ok text => Ok (clean_text text)
            | Raise e => if is_no_such_element e then Ok ""%string else Raise e
            end) as [company|]; [|done].
  cbn [bind]. destruct (scored_profile _ _ _ _ _ _ _ _) as [p'|] eqn:Hp; [|done].
  intros [= <-].
  by exists name, headline, location, url, company, (_extract_follower_count_from_element el).
Qed.

(** The count an element gives is never 0 and never negative. *)
Lemma follower_count_from_positive el selectors n :
  follower_count_from el selectors = Ok (Some n) → (1 ≤ n)%Z.
Proof.
  induction selectors as [|sel selectors IH]; [done|]. cbn [follower_count_from].
  destruct (find_text el sel) as [text|e]; cbn [bind].
  - destruct (extract_follower_count_ok text) as (o & -> & Hn).
    destruct o as [m|]; [|done]. destruct (Z.eqb_spec m 0); [done|].
    intros [= <-]. specialize (Hn m eq_refl). lia.
  - destruct (is_no_such_element e); done.
Qed.

Lemma extract_count_from_element el :
  _extract_follower_count_from_element el = None
  ∨ ∃ n, _extract_follower_count_from_element el = Some n ∧ (1 ≤ n)%Z.
Proof.
  unfold _extract_follower_count_from_element.
  destruct (follower_count_from el follower_selectors) as [[n|]|] eqn:H; [|by left..].
  right. exists n. split; [done|]. by eapply follower_count_from_positive.
Qed.

(** *** The profiles of a page and of a search *)

Lemma page_loop_spec (P : gmap string pyval → Prop) kw clock
    (l : list (nat * element)) (acc : list (gmap string pyval)) :
  (∀ el now p, _extract_single_profile el kw now = Some p →
               _validate_profile p = Ok true → P p) →
  ∃ new,
    foldl
      (λ profiles '(i, element),
         match _extract_single_profile element kw (clock i) with
         | Some profile_data =>
             match _validate_profile profile_data with
             | Ok true => profiles ++ [profile_data]
             | _ => profiles
             end
         | None => profiles
         end) acc l = acc ++ new
    ∧ Forall P new ∧ (length new ≤ length l)%nat.
Proof.
  intros HP. revert acc. induction l as [|[i el] l IH]; intros acc; cbn [foldl].
  { exists []. by rewrite app_nil_r. }
  destruct (_extract_single_profile el kw (clock i)) as [p|] eqn:Hp.
  - destruct (_validate_profile p) as [[]|] eqn:Hv.
    + destruct (IH (acc ++ [p])) as (new & -> & Hnew & Hlen).
      exists (p :: new). rewrite <-app_assoc. split_and!; [done| |simpl; lia].
      constructor; [by eapply HP|done].
    + destruct (IH acc) as (new & -> & Hnew & Hlen). exists new.
      split_and!; [done|done|simpl; lia].
    + destruct (IH acc) as (new & -> & Hnew & Hlen). exists new.
      split_and!; [done|done|simpl; lia].
  - destruct (IH acc) as (new & -> & Hnew & Hlen). exists new.
    split_and!; [done|done|simpl; lia].
Qed.

Lemma extract_profiles_from_page_spec (P : gmap string pyval → Prop) elements kw clock :
  (∀ el now p, _extract_single_profile el kw now = Some p →
               _validate_profile p = Ok true → P p) →
  Forall P (_extract_profiles_from_page elements kw clock)
  ∧ (length (_extract_profiles_from_page elements kw clock)
     ≤ Config.MAX_PROFILES_PER_SEARCH)%nat.
Proof.
  intros HP. unfold _extract_profiles_from_page. destruct elements as [els|]; [|by split; [|simpl; lia]].
  destruct (page_loop_spec P kw clock
              (imap pair (take Config.MAX_PROFILES_PER_SEARCH els)) [] HP)
    as (new & -> & Hnew & Hlen).
  rewrite length_imap, length_take in Hlen. simpl. split; [done|lia].
Qed.

Lemma search_pages_spec (P : gmap string pyval → Prop) driver kw pages self profiles :
  (∀ el now p, _extract_single_profile el kw now = Some p →
               _validate_profile p = Ok true → P p) →
  ∃ new self',
    search_pages driver kw pages self profiles = (profiles ++ new, self')
    ∧ Forall P new
    ∧ (length new ≤ Config.MAX_PROFILES_PER_SEARCH * length pages)%nat
    ∧ (searches_completed self ≤ searches_completed self'
       ≤ searches_completed self + length pages)%nat
    ∧ (searches_completed self'
       ≤ searches_completed self `max` Config.MAX_SEARCHES_PER_HOUR)%nat
    ∧ (loads self ≤ loads self' ≤ loads self + length pages)%nat
    ∧ ((Config.MAX_SEARCHES_PER_HOUR ≤ searches_completed self)%nat →
       new = [] ∧ self' = self).
Proof.
  intros HP. revert self profiles.
  induction pages as [|page pages IH]; intros self profiles; cbn [search_pages].
  { exists [], self. rewrite app_nil_r. split_and!; simpl; (done || lia). }
  case_bool_decide as Hmax.
  { exists [], self. rewrite app_nil_r. split_and!; simpl; (done || lia). }
  destruct (driver (loads self) _) as [e|elements clock].
  - exists [], (mkScraper (searches_completed self) (S (loads self))).
    rewrite app_nil_r. split_and!; simpl; (done || lia).
  - destruct (extract_profiles_from_page_spec P elements kw clock HP) as [Hpage Hlen].
    destruct (IH (mkScraper (S (searches_completed self)) (S (loads self)))
                (profiles ++ _extract_profiles_from_page elements kw clock))
      as (new & self' & -> & Hnew & Hlen' & Hsc & Hcap & Hloads & _).
    exists (_extract_profiles_from_page elements kw clock ++ new), self'.
    simpl in *. rewrite <-app_assoc.
    split_and!;
      try (unfold Config.MAX_SEARCHES_PER_HOUR, Config.MAX_PROFILES_PER_SEARCH in *; lia).
    + done.
    + by apply Forall_app.
    + rewrite length_app. unfold Config.MAX_PROFILES_PER_SEARCH in *. lia.
Qed.

End scraper.

Section targets.

Implicit Types (r p : gmap string pyval) (σ : gmap nat (gmap string pyval)).

Lemma filter_all {A} (P : A → Prop) `{∀ x, Decision (P x)} (l : list A) :
  Forall P l → filter P l = l.
Proof.
  induction 1 as [|x l Hx Hl IH]; [done|].
  by rewrite filter_cons, decide_True, IH.
Qed.

Lemma extracted_target el kw now p :
  _extract_single_profile el kw now = Some p → _validate_profile p = Ok true →
  target_profile kw p.
Proof.
  intros (name & headline & location & url & company & fc & Hp & Hfc)%extract_single_profile_scored
    Hv.
  apply scored_profile_spec in Hp
    as (Hdom & _ & _ & _ & Hurl & _ & Hcount & Hkw & _ & Hcompl & s & Hconf & _).
  assert (scored_record p) as Hscored by (do 2 eexists; eauto).
  pose proof (validate_profile_passes p (scored_record_numeric p Hscored) Hv) as Hpass.
  apply validate_profile_true in Hv as (Hu & Hc & _ & _).
  split_and!; [done|done| | |done|done].
  - rewrite Hurl in Hu. simpl in Hu. destruct url as [|u| | |]; simplify_eq/=.
    + exists u. split; [done|]. by destruct (is_valid_profile_url u).
    + by destruct (_ =? _)%Z.
    + by destruct (bool_decide _).
  - rewrite Hcount in Hc. simpl in Hc.
    apply validate_count_in_range in Hc as (q & Hq & Hlo & Hhi).
    destruct fc as [n|]; [|done]. simpl in Hq. injection Hq as <-.
    exists n. split; [done|].
    apply Z2Qc_inj_le in Hlo, Hhi. done.
Qed.

Lemma search_profiles_spec driver self kw max_pages :
  ∃ new self',
    search_profiles driver self kw max_pages = (new, self')
    ∧ Forall (target_profile kw) new
    ∧ (length new ≤ Config.MAX_PROFILES_PER_SEARCH * max_pages)%nat
    ∧ (searches_completed self ≤ searches_completed self'
       ≤ searches_completed self + max_pages)%nat
    ∧ (searches_completed self'
       ≤ searches_completed self `max` Config.MAX_SEARCHES_PER_HOUR)%nat
    ∧ (loads self ≤ loads self' ≤ loads self + max_pages)%nat
    ∧ ((Config.MAX_SEARCHES_PER_HOUR ≤ searches_completed self)%nat →
       new = [] ∧ self' = self).
Proof.
  unfold search_profiles.
  destruct (search_pages_spec (target_profile kw) driver kw (Z.of_nat <$> seq 1 max_pages)
              self []) as (new & self' & Hrun & H).
  { intros el now p. apply extracted_target. }
  rewrite length_fmap, length_seq in H. exists new, self'. by rewrite Hrun.
Qed.

(** A loop of searches, as the two loops of [run_comprehensive_search]. *)
Lemma search_loop_spec {X} driver (keyword_of : X → string) (items : list X) all self :
  ∃ new self',
    foldl (λ '(all_profiles, self) item,
             let '(profiles, self) := search_profiles driver self (keyword_of item) 2 in
             (all_profiles ++ profiles, self))
          (all, self) items = (all ++ new, self')
    ∧ Forall (λ p, ∃ kw, target_profile kw p) new
    ∧ (searches_completed self ≤ searches_completed self'
       ≤ searches_completed self + 2 * length items)%nat.
Proof.
  revert all self. induction items as [|item items IH]; intros all self; cbn [foldl].
  { exists [], self. rewrite app_nil_r. split_and!; simpl; (done || lia). }
  destruct (search_profiles_spec driver self (keyword_of item) 2)
    as (new & self1 & -> & Hnew & _ & Hsc & _).
  destruct (IH (all ++ new) self1) as (new' & self' & -> & Hnew' & Hsc').
  exists (new ++ new'), self'. rewrite <-app_assoc. split_and!; [done| |simpl; lia..].
  apply Forall_app. split; [|done].
  eapply Forall_impl; [exact Hnew|]. intros p Hp. by exists (keyword_of item).
Qed.

End targets.

(** X10.  The record of an element has the ten fields of the CSV file; its text
    fields are cleaned texts, its follower count is missing or positive, and
    its two scores are the ones the scoring functions give on the finished
    record. *)
Theorem extract_single_profile_record (el : element) (kw now : string)
    (p : gmap string pyval) :
  _extract_single_profile el kw now = Some p →
  dom p = scraped_fields
  ∧ (∃ name headline location,
       p !! "name" = Some (VStr (clean_text name))
       ∧ p !! "headline" = Some (VStr (clean_text headline))
       ∧ p !! "location" = Some (VStr (clean_text location)))
  ∧ p !! "keyword_matched" = Some (VStr kw)
  ∧ p !! "scraped_date" = Some (VStr now)
  ∧ (p !! "follower_count" = Some VNone
     ∨ ∃ n, p !! "follower_count" = Some (VInt n) ∧ (1 ≤ n)%Z)
  ∧ p !! "profile_completeness" = Some (VFloat (calculate_profile_completeness p))
  ∧ ∃ s, p !! "confidence_score" = Some (VFloat s) ∧ calculate_confidence_score p kw = Ok s.
Proof.
  intros (name & headline & location & url & company & fc & Hp & Hfc)%extract_single_profile_scored.
  apply scored_profile_spec in Hp
    as (Hdom & Hname & Hhead & Hloc & _ & _ & Hcount & Hkw & Hnow & Hcompl & Hconf).
  split_and!; [done|by exists name, headline, location|done|done| |done|done].
  rewrite Hcount, Hfc.
  destruct (extract_count_from_element el) as [->|(n & -> & Hn)]; [by left|].
  right. by exists n.
Qed.

Lemma extract_single_profile_record_witness :
  dom ada_profile = scraped_fields
  ∧ ada_profile !! "name" = Some (VStr "Ada Lovelace")
  ∧ ada_profile !! "follower_count" = Some (VInt 1500)
  ∧ ada_profile !! "profile_completeness" = Some (VFloat (qc 3 4))
  ∧ calculate_confidence_score ada_profile "AI agent" = Ok (qc 37 40).
Proof.
  assert (_extract_single_profile ada_element "AI agent" "2024-01-01 00:00:00"
          = Some ada_profile) as H by (vm_compute; reflexivity).
  destruct (extract_single_profile_record _ _ _ _ H) as (Hdom & _).
  split; [exact Hdom|]. split_and!; compute_done.
Defined.

(** X11.  For a record of the scraper, the check of the confidence threshold is
    implied by the checks before it: with a follower count of the target
    range and a completeness at the threshold, the confidence is 0.78 at
    least and the last check of [_validate_profile] never rejects. *)
Theorem confidence_check_never_rejects (el : element) (kw now : string)
    (p : gmap string pyval) :
  _extract_single_profile el kw now = Some p →
  count_in_range p →
  Config.MIN_PROFILE_COMPLETENESS ≤ score_or_zero p "profile_completeness" →
  qc 39 50 ≤ score_or_zero p "confidence_score"
  ∧ py_lt (default (VInt 0) (p !! "confidence_score")) (VFloat Config.CONFIDENCE_THRESHOLD)
    = Ok false.
Proof.
  intros (name & headline & location & url & company & fc & Hp & Hfc)%extract_single_profile_scored
    (n & Hn & Hrange) Hcompl.
  apply scored_profile_spec in Hp as (_ & _ & _ & _ & _ & _ & _ & _ & _ & Hc & s & Hs & Hconf).
  unfold score_or_zero in *. rewrite Hc in Hcompl. rewrite Hs. simpl in *.
  assert (qc 39 50 ≤ s) as Hbound.
  { eapply confidence_lower_bound; [exact Hconf| |exact Hcompl].
    rewrite Hn. simpl. apply negb_true_iff, Z.eqb_neq.
    unfold Config.MIN_FOLLOWERS in Hrange. lia. }
  split; [done|]. f_equal. apply bool_decide_eq_false. apply Qcle_not_lt.
  trans (qc 39 50); [compute_done|done].
Qed.

Lemma confidence_check_never_rejects_witness :
  qc 39 50 ≤ score_or_zero ada_profile "confidence_score"
  ∧ py_lt (default (VInt 0) (ada_profile !! "confidence_score"))
      (VFloat Config.CONFIDENCE_THRESHOLD) = Ok false.
Proof.
  apply (confidence_check_never_rejects ada_element "AI agent" "2024-01-01 00:00:00").
  - vm_compute. reflexivity.
  - exists 1500%Z. split; [vm_compute; reflexivity|done].
  - compute_done.
Defined.


(** X13.  Every profile that [search_profiles] returns is a profile of the
    target: it has the ten fields and the keyword of the search, a LinkedIn
    profile URL, a follower count between 1000 and 10000, and scores that
    reach the thresholds; a page gives 50 profiles at most. *)
Theorem search_profiles_only_targets (driver : browser) (self : scraper)
    (kw : string) (max_pages : nat) :
  let result := search_profiles driver self kw max_pages in
  Forall (target_profile kw) result.1
  ∧ (length result.1 ≤ Config.MAX_PROFILES_PER_SEARCH * max_pages)%nat.
Proof.
  destruct (search_profiles_spec driver self kw max_pages)
    as (new & self' & -> & Hnew & Hlen & _).
  by split.
Qed.

(** X14.  The quality filter of the pipeline, at the thresholds of the
    configuration, keeps every record that has passed [_validate_profile]
    with scores that are numbers. *)
Theorem validated_profiles_pass_the_filter (σ : gmap nat (gmap string pyval))
    (profiles : list nat) :
  (∀ a, a ∈ profiles →
        numeric_scores (deref σ a) ∧ _validate_profile (deref σ a) = Ok true) →
  filter_by_quality σ profiles Config.CONFIDENCE_THRESHOLD Config.MIN_PROFILE_COMPLETENESS
  = Ok profiles.
Proof.
  intros H. unfold filter_by_quality. case_bool_decide as Hnil; [by subst|].
  rewrite filter_loop by (intros a Ha; by apply H). f_equal. simpl.
  apply filter_all, Forall_forall. intros a Ha.
  destruct (H a Ha). by apply validate_profile_passes.
Qed.

Lemma validated_profiles_pass_the_filter_witness :
  filter_by_quality {[ 0%nat := ada_profile ]} [0%nat]
    Config.CONFIDENCE_THRESHOLD Config.MIN_PROFILE_COMPLETENESS = Ok [0%nat].
Proof.
  apply validated_profiles_pass_the_filter.
  intros a ->%list_elem_of_singleton. split.
  - split; right; eexists _, _; (split; [vm_compute; reflexivity|reflexivity]).
  - vm_compute. reflexivity.
Defined.

(** X15.  A comprehensive search counts 78 searches at most (two pages for each
    of the 22 keywords and 17 companies): a scraper that starts it with no
    search counted stays under the limit of 100, and every profile it
    returns is a profile of the target. *)
Theorem comprehensive_search_within_limit (driver : browser) (self : scraper) :
  let result := run_comprehensive_search driver self in
  (searches_completed self ≤ searches_completed result.2
   ≤ searches_completed self + 78)%nat
  ∧ (searches_completed self = 0%nat →
     (searches_completed result.2 < Config.MAX_SEARCHES_PER_HOUR)%nat)
  ∧ Forall (λ p, ∃ kw, target_profile kw p) result.1.
Proof.
  unfold run_comprehensive_search. cbv zeta.
  destruct (search_loop_spec driver (λ keyword, keyword) Config.SEARCH_KEYWORDS [] self)
    as (new1 & self1 & H1 & Hnew1 & Hsc1).
  cbv beta in H1. rewrite H1.
  destruct (search_loop_spec driver (λ company, ("current company:" +:+ company)%string)
              Config.TARGET_COMPANIES ([] ++ new1) self1)
    as (new2 & self2 & H2 & Hnew2 & Hsc2).
  unfold search_by_company. cbv zeta. rewrite H2.
  change (length Config.SEARCH_KEYWORDS) with 22%nat in Hsc1.
  change (length Config.TARGET_COMPANIES) with 17%nat in Hsc2.
  cbn [fst snd]. split_and!; [lia..| |].
  - unfold Config.MAX_SEARCHES_PER_HOUR. lia.
  - rewrite app_nil_l. by apply Forall_app.
Qed.

(** ** The filter and the ranking, composed *)

Section processing.

Implicit Types (r p : gmap string pyval) (σ : gmap nat (gmap string pyval)).

(** One run of the filter. *)
Lemma filter_by_quality_run σ profiles (c p : Qc) :
  (∀ a, a ∈ profiles → numeric_scores (deref σ a)) →
  filter_by_quality σ profiles c p
  = Ok (filter (λ a, passes c p (deref σ a)) profiles).
Proof.
  intros Hnum. unfold filter_by_quality. case_bool_decide as Hnil; [by subst|].
  by rewrite filter_loop.
Qed.

Lemma passes_weaken (c p c' p' : Qc) r :
  c ≤ c' → p ≤ p' → passes c' p' r → passes c p r.
Proof.
  intros Hc Hp [H1 H2]. split; [by trans c'|by trans p'].
Qed.

Lemma filter_filter_weaker {A} (P Q : A → Prop)
    `{∀ x, Decision (P x)} `{∀ x, Decision (Q x)} (l : list A) :
  (∀ x, Q x → P x) → filter Q (filter P l) = filter Q l.
Proof.
  intros HPQ. induction l as [|x l IH]; [done|]. rewrite !filter_cons.
  destruct (decide (P x)) as [HP|HP].
  - rewrite filter_cons. by destruct (decide (Q x)); rewrite IH.
  - rewrite decide_False by (intros ?; apply HP; auto). done.
Qed.

(** The loop of [sort_by_quality] stores the quality into every record of
    the list. *)
Lemma quality_loop_lookup σ profiles :
  (∀ a, a ∈ profiles → numeric_scores (deref σ a)) →
  ∃ σ',
    for_each
      (λ σ profile,
         let confidence := default (VInt 0) (deref σ profile !! "confidence_score") in
         let completeness := default (VInt 0) (deref σ profile !! "profile_completeness") in
         quality ← py_add confidence completeness;
         Ok (<[profile := <["quality_score" := quality]> (deref σ profile)]> σ))
      σ profiles = Ok σ'
    ∧ (∀ a, a ∈ profiles → σ' !! a = Some (augment (deref σ a)))
    ∧ (∀ a, a ∉ profiles → σ' !! a = σ !! a).
Proof.
  revert σ. induction profiles as [|a profiles IH]; intros σ Hnum; simpl.
  { exists σ. split_and!; [done| |done]. by intros a ?%elem_of_nil. }
  destruct (quality_of_number (deref σ a)) as [-> _]; [apply Hnum; by left|].
  cbn [bind]. fold (augment (deref σ a)).
  destruct (IH (<[a := augment (deref σ a)]> σ)) as (σ' & Hrun & Hin & Hout).
  { intros b Hb. rewrite deref_insert. case_decide as Hab.
    - subst. apply numeric_scores_augment, Hnum. by left.
    - apply Hnum. by right. }
  exists σ'. split_and!; [exact Hrun| |].
  - intros b Hb. destruct (decide (b ∈ profiles)) as [Hb'|Hb'].
    + rewrite (Hin b Hb'), deref_insert. case_decide as Hab; [|done].
      subst. by rewrite augment_augment.
    + apply elem_of_cons in Hb as [->|?]; [|done].
      by rewrite (Hout a Hb'), lookup_insert_eq.
  - intros b Hb. apply not_elem_of_cons in Hb as [Hab Hb].
    by rewrite (Hout b Hb), lookup_insert_ne.
Qed.

(** The loop changes nothing where the quality is already stored. *)
Lemma quality_loop_fixed σ profiles :
  (∀ a, a ∈ profiles → ∃ r, σ !! a = Some r ∧ numeric_scores r ∧ augment r = r) →
  for_each
    (λ σ profile,
       let confidence := default (VInt 0) (deref σ profile !! "confidence_score") in
       let completeness := default (VInt 0) (deref σ profile !! "profile_completeness") in
       quality ← py_add confidence completeness;
       Ok (<[profile := <["quality_score" := quality]> (deref σ profile)]> σ))
    σ profiles = Ok σ.
Proof.
  induction profiles as [|a profiles IH]; intros H; [done|]. cbn [for_each].
  destruct (H a) as (r & Hr & Hnum & Hfix); [by left|].
  assert (deref σ a = r) as Hderef by (unfold deref; by rewrite Hr).
  cbv zeta. rewrite Hderef.
  destruct (quality_of_number r Hnum) as [-> _]. cbn [bind].
  fold (augment r). rewrite Hfix, (insert_id _ _ _ Hr).
  apply IH. intros b Hb. apply H. by right.
Qed.

(** Insertion sort leaves a list that is sorted already as it is. *)
Lemma sorted_desc_fixed (key : nat → pyval) (nk : nat → Qc) l :
  (∀ a, a ∈ l → as_number (key a) = Some (nk a)) →
  StronglySorted (λ a b, nk b ≤ nk a) l →
  sorted_desc key l = Ok l.
Proof.
  intros Hkey Hsorted. induction Hsorted as [|x l Hl IH Hx]; [done|].
  cbn [sorted_desc]. rewrite IH by (intros a Ha; apply Hkey; by right). cbn [bind].
  destruct l as [|y l]; [done|]. cbn [insert_desc].
  assert (py_lt (key x) (key y) = Ok false) as ->; [|done].
  pose proof (Hkey x ltac:(by left)) as Hkx.
  pose proof (Hkey y ltac:(right; by left)) as Hky.
  apply Forall_cons_1 in Hx as [Hxy _]. revert Hkx Hky Hxy.
  generalize (nk x), (nk y). intros q1 q2 Hkx Hky Hxy.
  unfold py_lt. destruct (key x), (key y); simplify_eq/=; f_equal;
    apply bool_decide_eq_false; by apply Qcle_not_lt.
Qed.

End processing.

(** X16.  Filtering twice is filtering once with the stricter thresholds: the
    filter gives back its own result, and a filter after a laxer one gives
    what it gives alone. *)
Theorem filter_by_quality_composes (σ : gmap nat (gmap string pyval)) (profiles : list nat)
    (c p c' p' : Qc) :
  (∀ a, a ∈ profiles → numeric_scores (deref σ a)) →
  c ≤ c' → p ≤ p' →
  ∃ kept,
    filter_by_quality σ profiles c p = Ok kept
    ∧ kept `sublist_of` profiles
    ∧ filter_by_quality σ kept c p = Ok kept
    ∧ filter_by_quality σ kept c' p' = filter_by_quality σ profiles c' p'.
Proof.
  intros Hnum Hc Hp.
  assert (∀ a, a ∈ filter (λ a, passes c p (deref σ a)) profiles →
               numeric_scores (deref σ a)) as Hnum'.
  { intros a [_ Ha]%list_elem_of_filter. by apply Hnum. }
  eexists. split; [by apply filter_by_quality_run|].
  rewrite !filter_by_quality_run by done. split_and!.
  - apply sublist_filter.
  - f_equal. apply filter_all, Forall_forall. by intros a [? _]%list_elem_of_filter.
  - f_equal. apply filter_filter_weaker. intros a. by apply passes_weaken.
Qed.

Lemma filter_by_quality_composes_witness :
  ∃ kept,
    filter_by_quality heap_filter [0; 1; 2]%nat (qc 6 10) (qc 6 10) = Ok kept
    ∧ kept `sublist_of` [0; 1; 2]%nat
    ∧ filter_by_quality heap_filter kept (qc 6 10) (qc 6 10) = Ok kept
    ∧ filter_by_quality heap_filter kept (qc 7 10) (qc 6 10)
      = filter_by_quality heap_filter [0; 1; 2]%nat (qc 7 10) (qc 6 10).
Proof.
  apply filter_by_quality_composes.
  - intros a Ha. repeat (apply elem_of_cons in Ha as [->|Ha]);
      [..|by apply elem_of_nil in Ha].
    + split; right; eexists _, _; (split; [vm_compute; reflexivity|reflexivity]).
    + split; right; eexists _, _; (split; [vm_compute; reflexivity|reflexivity]).
    + split; by left.
  - compute_done.
  - compute_done.
Defined.

(** X17.  Ranking is idempotent: ranking the ranked list again returns it in the
    same order and changes no record. *)
Theorem sort_by_quality_idempotent (σ σ' : gmap nat (gmap string pyval))
    (profiles out : list nat) :
  (∀ a, a ∈ profiles → numeric_scores (deref σ a)) →
  sort_by_quality σ profiles = Ok (out, σ') →
  sort_by_quality σ' out = Ok (out, σ').
Proof.
  intros Hnum Hsort. destruct (decide (profiles = [])) as [->|Hne].
  { unfold sort_by_quality in Hsort. simpl in Hsort. by injection Hsort as <- <-. }
  destruct (sort_by_quality_run σ profiles Hne Hnum)
    as (out0 & σ0 & Hrun & Hin & _ & Hkey & Hperm & Hsorted & _).
  rewrite Hrun in Hsort. injection Hsort as -> ->.
  destruct (quality_loop_lookup σ profiles Hnum) as (σ1 & Hloop & Hlook & _).
  assert (σ1 = σ') as ->.
  { revert Hrun. unfold sort_by_quality. rewrite bool_decide_eq_false_2 by done.
    cbv zeta in Hloop |- *. rewrite Hloop. cbn [bind].
    destruct (sorted_desc _ _); [|done]. by intros [= _ <-]. }
  assert (out ≠ []) as Hne'.
  { intros ->. by apply Permutation_nil_l in Hperm. }
  unfold sort_by_quality. rewrite bool_decide_eq_false_2 by done.
  rewrite quality_loop_fixed.
  - cbn [bind]. rewrite (sorted_desc_fixed _ (quality σ') out); [done| |done].
    intros a Ha. apply Hkey. by rewrite <-Hperm.
  - intros a Ha. rewrite Hperm in Ha. exists (augment (deref σ a)).
    split_and!; [by apply Hlook| |apply augment_augment].
    by apply numeric_scores_augment, Hnum.
Qed.

Lemma sort_by_quality_idempotent_witness :
  ∃ out σ',
    sort_by_quality heap_rank [2; 0; 1]%nat = Ok (out, σ')
    ∧ sort_by_quality σ' out = Ok (out, σ').
Proof.
  destruct (sort_by_quality heap_rank [2; 0; 1]%nat) as [[out σ']|] eqn:Hsort;
    [|by vm_compute in Hsort].
  exists out, σ'. split; [done|].
  apply (sort_by_quality_idempotent heap_rank σ' [2; 0; 1]%nat out); [|done].
  intros a Ha. repeat (apply elem_of_cons in Ha as [->|Ha]);
    [..|by apply elem_of_nil in Ha];
    split; right; eexists _, _; (split; [vm_compute; reflexivity|reflexivity]).
Defined.

(** ** The rows the worker saves ([web_app.run_scraping]) *)

Section saving.

Implicit Types (r : gmap string pyval) (σ : gmap nat (gmap string pyval)).

(** A score that [>=] finds at its threshold is a number, or is missing. *)
Lemma py_ge_true r k (m : Qc) :
  py_ge (default (VInt 0) (r !! k)) (VFloat m) = Ok true →
  numeric_score r k ∧ m ≤ score_or_zero r k.
Proof.
  unfold numeric_score, score_or_zero. destruct (r !! k) as [v|] eqn:Hv; simpl.
  - destruct v; simpl; try done.
    + intros [= H%bool_decide_eq_true]. split; [right; eauto|done].
    + intros [= H%bool_decide_eq_true]. split; [right; eauto|done].
  - intros [= H%bool_decide_eq_true]. split; [by left|done].
Qed.

(** Whatever the records hold, what the loop of the filter has kept is a
    part of the list, made of records that pass. *)
Lemma filter_loop_kept σ (c p : Qc) profiles acc kept :
  for_each
    (λ filtered_profiles profile,
       let confidence := default (VInt 0) (deref σ profile !! "confidence_score") in
       let completeness := default (VInt 0) (deref σ profile !! "profile_completeness") in
       c1 ← py_ge confidence (VFloat c);
       c ← (if c1 then py_ge completeness (VFloat p) else Ok false);
       Ok (if c then filtered_profiles ++ [profile] else filtered_profiles))
    acc profiles = Ok kept →
  ∃ new, kept = acc ++ new ∧ new `sublist_of` profiles
         ∧ Forall (λ a, numeric_scores (deref σ a) ∧ passes c p (deref σ a)) new.
Proof.
  revert acc. induction profiles as [|a profiles IH]; intros acc; cbn [for_each].
  { intros [= <-]. exists []. by rewrite app_nil_r. }
  cbv zeta.
  destruct (py_ge (default (VInt 0) (deref σ a !! "confidence_score")) (VFloat c))
    as [[]|] eqn:H1; cbn [bind]; [| |done].
  - destruct (py_ge (default (VInt 0) (deref σ a !! "profile_completeness")) (VFloat p))
      as [[]|] eqn:H2; cbn [bind]; [| |done].
    + intros (new & -> & Hsub & Hall)%IH. exists (a :: new).
      rewrite <-app_assoc. split_and!; [done|by constructor|].
      apply py_ge_true in H1 as [??], H2 as [??]. by constructor.
    + intros (new & -> & Hsub & Hall)%IH. exists new.
      split_and!; [done|by constructor|done].
  - intros (new & -> & Hsub & Hall)%IH. exists new.
    split_and!; [done|by constructor|done].
Qed.

Lemma filter_by_quality_kept σ (c p : Qc) profiles kept :
  filter_by_quality σ profiles c p = Ok kept →
  kept `sublist_of` profiles
  ∧ Forall (λ a, numeric_scores (deref σ a) ∧ passes c p (deref σ a)) kept.
Proof.
  unfold filter_by_quality. case_bool_decide.
  - intros [= <-]. split; [apply sublist_nil_l|done].
  - intros (new & -> & ? & ?)%filter_loop_kept. done.
Qed.

(** Whatever the file held, the records of the deduplicator differ in their
    [profile_url]. *)
Lemma deduplicate_profiles_nodup fs self σ new_profiles df out σ' :
  deduplicate_profiles fs self σ new_profiles (Some df) = Ok (out, σ') →
  NoDup (cell "profile_url" <$> (deref σ' <$> out)).
Proof.
  unfold deduplicate_profiles. case_bool_decide.
  { intros [= <- <-]. constructor. }
  cbv zeta. unfold drop_duplicates. case_bool_decide; [|done]. cbn [bind].
  unfold to_dict_records. cbn [df_rows].
  destruct (alloc_all σ _) as [refs σ1] eqn:Halloc. intros [= <- <-].
  apply alloc_all_spec in Halloc as (_ & -> & _).
  apply first_occurrences_spec.
Qed.

Lemma passes_augment (c p : Qc) r : passes c p (augment r) ↔ passes c p r.
Proof. unfold passes, score_or_zero. by rewrite !augment_scores. Qed.

Lemma cell_augment r : cell "profile_url" (augment r) = cell "profile_url" r.
Proof. unfold cell. by rewrite augment_scores. Qed.

Lemma total_score_augment r : total_score (augment r) = total_score r.
Proof. unfold total_score, score_or_zero. by rewrite !augment_scores. Qed.

(** The quality a ranked record holds is the sum of its scores. *)
Lemma quality_total_score r :
  numeric_scores r → score_or_zero (augment r) "quality_score" = total_score r.
Proof.
  intros [_ Hq]%quality_of_number. unfold score_or_zero, augment.
  rewrite lookup_insert_eq. simpl. by rewrite Hq.
Qed.

Lemma sorted_rows σ (l : list nat) :
  (∀ a, a ∈ l → quality σ a = total_score (deref σ a)) →
  StronglySorted (λ a b, quality σ b ≤ quality σ a) l →
  StronglySorted (λ r1 r2, total_score r2 ≤ total_score r1) (deref σ <$> l).
Proof.
  intros Hq Hs. induction Hs as [|a l Hl IH Ha]; [constructor|].
  rewrite fmap_cons. constructor.
  - apply IH. intros b Hb. apply Hq. by right.
  - apply Forall_fmap, Forall_forall. intros b Hb. simpl.
    rewrite <-!Hq by (by left || by right).
    by apply (proj1 (Forall_forall _ _) Ha).
Qed.

(** The pure part of the pipeline: the records that come out of the
    deduplicator, the filter and the ranking, in this order, are rows fit for
    the file as soon as there is one. *)
Lemma pipeline_rows fs self σ refs df out σ1 kept sorted σ2 :
  deduplicate_profiles fs self σ refs (Some df) = Ok (out, σ1) →
  filter_by_quality σ1 out Config.CONFIDENCE_THRESHOLD Config.MIN_PROFILE_COMPLETENESS
    = Ok kept →
  sort_by_quality σ1 kept = Ok (sorted, σ2) →
  sorted ≠ [] →
  clean_rows (deref σ2 <$> sorted).
Proof.
  intros Hd [Hsub Hkept]%filter_by_quality_kept Hs Hne.
  apply deduplicate_profiles_nodup in Hd.
  assert (kept ≠ []) as Hk.
  { intros ->. unfold sort_by_quality in Hs. simpl in Hs. by injection Hs as <- _. }
  destruct (sort_by_quality_run σ1 kept Hk)
    as (out' & σ' & Hrun & Haug & _ & _ & Hperm & Hsorted & _).
  { intros a Ha. by apply (proj1 (Forall_forall _ _) Hkept). }
  rewrite Hrun in Hs. injection Hs as -> ->.
  assert (∀ a, a ∈ sorted → deref σ2 a = augment (deref σ1 a)) as Haug'.
  { intros a Ha. apply Haug. by rewrite <-Hperm. }
  split_and!.
  - by destruct sorted.
  - rewrite <-list_fmap_compose.
    rewrite (Forall_fmap_ext_1 (cell "profile_url" ∘ deref σ2)
               (cell "profile_url" ∘ deref σ1) sorted).
    + rewrite Hperm. rewrite <-list_fmap_compose in Hd.
      eapply sublist_NoDup; [exact Hd|by apply fmap_sublist].
    + apply Forall_forall. intros a Ha. simpl. by rewrite Haug', cell_augment.
  - apply Forall_fmap, Forall_forall. intros a Ha. simpl.
    rewrite Haug' by done. apply passes_augment.
    rewrite Hperm in Ha. by apply (proj1 (Forall_forall _ _) Hkept) in Ha as [_ ?].
  - apply sorted_rows; [|done]. intros a Ha. unfold quality.
    rewrite Haug' by done. rewrite total_score_augment.
    apply quality_total_score.
    rewrite Hperm in Ha. by apply (proj1 (Forall_forall _ _) Hkept) in Ha as [? _].
Qed.

End saving.

(** X18.  Whatever the search has found, whatever the file held and whatever
    the outside world answers, the worker calls the CSV writer once at most,
    on the file of the processor, and the rows it hands over are fit for the
    file: one row at least, no two rows with the same [profile_url], every row
    at the two thresholds, in the order of decreasing sum of the scores. *)
Theorem saved_rows_are_clean e stops (data_processor : DataProcessor.t)
    (all : list (gmap string pyval)) b st n log :
  ∃ new,
    fin_log (finish e stops (process_profiles data_processor all) b st n log) = log ++ new
    ∧ (omap csv_rows new = []
       ∨ ∃ rows, omap csv_rows new = [(output_file data_processor, rows)]
                 ∧ clean_rows rows).
Proof.
  unfold process_profiles.
  rewrite !finish_pbind, !finish_put.
  cbn [fin_outcome fin_status fin_bound fin_steps fin_log].
  case_bool_decide as Hall.
  { rewrite finish_put. exists []. rewrite app_nil_r. split; [done|by left]. }
  destruct (alloc_all ∅ all) as [refs σ] eqn:Halloc.
  rewrite finish_pbind, finish_ask.
  cbn [fin_outcome fin_status fin_bound fin_steps fin_log].
  rewrite finish_pbind, finish_lift.
  cbn [fin_outcome fin_status fin_bound fin_steps fin_log].
  destruct (deduplicate_profiles _ _ _ _ _) as [[out σ1]|ex] eqn:Hd;
    [|exists []; rewrite app_nil_r; split; [done|by left]].
  rewrite finish_pbind, finish_lift.
  cbn [fin_outcome fin_status fin_bound fin_steps fin_log fst snd].
  destruct (filter_by_quality _ _ _ _) as [kept|ex] eqn:Hf;
    [|exists []; rewrite app_nil_r; split; [done|by left]].
  rewrite finish_pbind, finish_lift.
  cbn [fin_outcome fin_status fin_bound fin_steps fin_log fst snd].
  destruct (sort_by_quality _ _) as [[sorted σ2]|ex] eqn:Hs;
    [|exists []; rewrite app_nil_r; split; [done|by left]].
  cbn [fst snd]. rewrite finish_pbind. unfold save_profiles_to_csv.
  case_bool_decide as Hne.
  { cbn [finish fin_outcome fin_status fin_bound fin_steps fin_log].
    rewrite finish_put. exists []. rewrite app_nil_r. split; [done|by left]. }
  pose proof (pipeline_rows _ _ _ _ _ _ _ _ _ _ Hd Hf Hs Hne) as Hclean.
  cbn [finish fin_outcome fin_status fin_bound fin_steps fin_log].
  destruct (answer_call e _ _ (ToCsv _ _)) as [[]|ex] eqn:Hcsv.
  - rewrite !finish_pbind, finish_lift.
    cbn [fin_outcome fin_status fin_bound fin_steps fin_log].
    destruct (generate_summary_report σ2 sorted) as [summary|ex] eqn:Hsum.
    + cbn [pbind finish]. rewrite !finish_pbind, !finish_put.
      cbn [fin_outcome fin_status fin_bound fin_steps fin_log].
      eexists [_; _]. rewrite <-app_assoc. split; [done|]. right. eauto.
    + eexists [_]. split; [done|]. right. eauto.
  - rewrite finish_put. cbn [fin_log]. eexists [_]. split; [done|]. right. eauto.
Qed.

(** ** The summary ([DataProcessor.generate_summary_report]) *)

Section summary.

Implicit Types (r : gmap string pyval) (σ : gmap nat (gmap string pyval))
  (v : pyval) (series : list pyval).

(** The column of a frame of records holds the cells of the records. *)
Lemma column_of_records (l : list (gmap string pyval)) k :
  column (DataFrame_of_records l) k = cell k <$> l.
Proof.
  unfold column, DataFrame_of_records. cbn [df_rows]. rewrite <-list_fmap_compose.
  apply list_fmap_ext. intros _ r _. simpl. unfold cell, reindex.
  rewrite lookup_union. destruct (r !! k) as [v|] eqn:Hk; simpl.
  - by destruct (gset_to_gmap _ _ !! k).
  - rewrite (left_id_L None _), lookup_gset_to_gmap. by destruct (guard _).
Qed.

Lemma has_column (l : list (gmap string pyval)) k :
  k ∈ df_columns (DataFrame_of_records l) ↔ ∃ r, r ∈ l ∧ is_Some (r !! k).
Proof.
  unfold DataFrame_of_records. cbn [df_columns]. rewrite elem_of_union_list. split.
  - intros (X & (r & -> & Hr)%list_elem_of_fmap & Hk%elem_of_dom). eauto.
  - intros (r & Hr & Hk). exists (dom r). split; [|by apply elem_of_dom].
    apply list_elem_of_fmap. eauto.
Qed.

Lemma cell_number_or_null r k :
  number_or_null r k → isna (cell k r) = true ∨ is_Some (as_number (cell k r)).
Proof. unfold number_or_null, cell. destruct (r !! k); simpl; auto. Qed.

Lemma dropna_numbers series :
  Forall (λ v, isna v = true ∨ is_Some (as_number v)) series →
  Forall (λ v, is_Some (as_number v)) (dropna series).
Proof.
  intros H. unfold dropna. apply Forall_forall. intros v [Hv Hin]%list_elem_of_filter.
  apply (proj1 (Forall_forall _ _) H) in Hin as [Hna|?]; [congruence|done].
Qed.

(** The mean of numbers and nulls is computed without an exception. *)
Lemma mean_ok series :
  Forall (λ v, isna v = true ∨ is_Some (as_number v)) series →
  ∃ m, mean series = Ok m.
Proof.
  intros H%dropna_numbers. unfold mean.
  assert (∀ acc : Qc, ∃ total,
            for_each (λ acc v, match as_number v with
                               | Some q => Ok (acc + q)
                               | None => Raise TypeError
                               end) acc (dropna series) = Ok total) as Hsum.
  { induction H as [|v l [q Hq] _ IH]; intros acc; [by eexists|].
    cbn [for_each]. rewrite Hq. apply IH. }
  destruct (Hsum 0) as [total ->]. cbn [bind]. by eexists.
Qed.

(** The count of a range, on numbers. *)
Lemma count_between_loop series (lo hi : Z) (closed : bool) (n : nat) :
  Forall (λ v, is_Some (as_number v)) series →
  for_each (λ n v,
              a ← py_ge v (VInt lo);
              b ← (if closed then py_ge (VInt hi) v else py_lt v (VInt hi));
              Ok (if a && b then S n else n)) n series
  = Ok (n + length (filter (λ v, number_in lo hi closed v = true) series))%nat.
Proof.
  intros H. revert n. induction H as [|v l [q Hq] _ IH]; intros n.
  { simpl. by rewrite Nat.add_0_r. }
  cbn [for_each]. rewrite filter_cons.
  assert (number_in lo hi closed v
          = bool_decide (Qc_of_Z lo ≤ q)
            && (if closed then bool_decide (q ≤ Qc_of_Z hi)
                else bool_decide (q < Qc_of_Z hi))) as Hin.
  { unfold number_in. by rewrite Hq. }
  assert (py_ge v (VInt lo) = Ok (bool_decide (Qc_of_Z lo ≤ q))) as ->.
  { destruct v; simplify_eq/=; done. }
  cbn [bind].
  assert ((if closed then py_ge (VInt hi) v else py_lt v (VInt hi))
          = Ok (if closed then bool_decide (q ≤ Qc_of_Z hi)
                else bool_decide (q < Qc_of_Z hi))) as ->.
  { destruct closed, v; simplify_eq/=; done. }
  cbn [bind]. rewrite IH, <-Hin.
  destruct (number_in lo hi closed v) eqn:Hb.
  - rewrite decide_True by done. simpl. f_equal. lia.
  - rewrite decide_False by done. done.
Qed.

Lemma count_between_numbers series (lo hi : Z) (closed : bool) :
  Forall (λ v, is_Some (as_number v)) series →
  count_between series lo hi closed
  = Ok (length (filter (λ v, number_in lo hi closed v = true) series)).
Proof. intros H. unfold count_between. by rewrite count_between_loop. Qed.

(** Two ranges that meet at [mid] count what their union counts. *)
Lemma number_in_split (lo mid hi : Z) closed v :
  (lo ≤ mid)%Z → (mid ≤ hi)%Z →
  number_in lo hi closed v
  = number_in lo mid false v || number_in mid hi closed v
  ∧ ¬ (number_in lo mid false v = true ∧ number_in mid hi closed v = true).
Proof.
  intros Hlo Hhi. unfold number_in. destruct (as_number v) as [q|]; [|split; [done|by intros [? _]]].
  apply Z2Qc_inj_le in Hlo, Hhi.
  assert (∀ a b c : Qc, a < b → b ≤ c → a < c) as Hlt_le
    by (intros a b c; apply Qclt_le_trans).
  assert (∀ a b c : Qc, a ≤ b → b ≤ c → a ≤ c) as Hle
    by (intros a b c; apply Qcle_trans).
  destruct (Qclt_le_dec q (Qc_of_Z mid)) as [Hq|Hq].
  - rewrite (bool_decide_eq_true_2 (q < Qc_of_Z mid)) by done.
    rewrite (bool_decide_eq_false_2 (Qc_of_Z mid ≤ q)) by (by apply Qclt_not_le).
    rewrite andb_true_r, andb_false_l, orb_false_r. split; [|by intros [_ ?]].
    destruct closed.
    + rewrite (bool_decide_eq_true_2 (q ≤ Qc_of_Z hi)); [by rewrite andb_true_r|].
      apply Qclt_le_weak. by eapply Hlt_le.
    + rewrite (bool_decide_eq_true_2 (q < Qc_of_Z hi)); [by rewrite andb_true_r|].
      by eapply Hlt_le.
  - rewrite (bool_decide_eq_false_2 (q < Qc_of_Z mid)) by (by apply Qcle_not_lt).
    rewrite (bool_decide_eq_true_2 (Qc_of_Z mid ≤ q)) by done.
    rewrite (bool_decide_eq_true_2 (Qc_of_Z lo ≤ q)) by (by eapply Hle).
    rewrite andb_false_r. simpl. split; [done|]. by intros [? _].
Qed.

Lemma count_split (lo mid hi : Z) closed series :
  (lo ≤ mid)%Z → (mid ≤ hi)%Z →
  (length (filter (λ v, number_in lo mid false v = true) series)
   + length (filter (λ v, number_in mid hi closed v = true) series))%nat
  = length (filter (λ v, number_in lo hi closed v = true) series).
Proof.
  intros Hlo Hhi. induction series as [|v l IH]; [done|]. rewrite !filter_cons.
  destruct (number_in_split lo mid hi closed v Hlo Hhi) as [-> Hnot].
  destruct (number_in lo mid false v) eqn:H1, (number_in mid hi closed v) eqn:H2.
  - by destruct Hnot.
  - rewrite !decide_True, decide_False by done. simpl. lia.
  - rewrite decide_False, !decide_True by done. simpl. lia.
  - rewrite !decide_False by done. done.
Qed.

(** The nulls of a column are in no range. *)
Lemma filter_dropna (lo hi : Z) (closed : bool) series :
  filter (λ v, number_in lo hi closed v = true) (dropna series)
  = filter (λ v, number_in lo hi closed v = true) series.
Proof.
  unfold dropna. induction series as [|v l IH]; [done|]. rewrite !filter_cons.
  destruct (decide (isna v = false)) as [Hv|Hv].
  - rewrite filter_cons. by rewrite IH.
  - rewrite IH. rewrite decide_False; [done|].
    unfold number_in. destruct v; simpl in *; done.
Qed.

Lemma filter_cells (lo hi : Z) (l : list (gmap string pyval)) :
  length (filter (λ v, number_in lo hi true v = true) (cell "follower_count" <$> l))
  = length (filter (followers_within lo hi) l).
Proof.
  induction l as [|r l IH]; [done|]. rewrite fmap_cons, !filter_cons.
  unfold followers_within at 1.
  destruct (decide (number_in lo hi true (cell "follower_count" r) = true)); simpl;
    by rewrite IH.
Qed.

Lemma count_in_range_within r :
  count_in_range r → followers_within Config.MIN_FOLLOWERS Config.MAX_FOLLOWERS r.
Proof.
  intros (n & Hn & Hlo & Hhi). unfold followers_within, number_in, cell.
  rewrite Hn. change (as_number (default VNaN (Some (VInt n)))) with (Some (Qc_of_Z n)).
  apply andb_true_iff. split; apply bool_decide_eq_true, (proj1 (Z2Qc_inj_le _ _)); done.
Qed.

Lemma summary_ranges σ profiles :
  (∀ a, a ∈ profiles →
        number_or_null (deref σ a) "confidence_score"
        ∧ number_or_null (deref σ a) "profile_completeness"
        ∧ number_or_null (deref σ a) "follower_count") →
  (∃ a, a ∈ profiles ∧ is_Some (deref σ a !! "follower_count")) →
  ∃ summary (n1 n2 n3 : nat),
    generate_summary_report σ profiles = Ok summary
    ∧ summary !! "total_profiles" = Some (SVal (VInt (Z.of_nat (length profiles))))
    ∧ summary !! "follower_ranges"
      = Some (SRanges [("1k-2k", n1); ("2k-5k", n2); ("5k-10k", n3)]%string)
    ∧ (n1 + n2 + n3)%nat
      = length (filter (followers_within 1000 10000) (deref σ <$> profiles)).
Proof.
  intros Hnum (a0 & Ha0 & Hfc). unfold generate_summary_report.
  rewrite bool_decide_eq_false_2 by (intros ->; by apply elem_of_nil in Ha0).
  cbv zeta. set (rows := deref σ <$> profiles).
  assert (∀ k, (∀ a, a ∈ profiles → number_or_null (deref σ a) k) →
               ∃ m, (if bool_decide (k ∈ df_columns (DataFrame_of_records rows))
                     then mean (column (DataFrame_of_records rows) k)
                     else Ok (VInt 0)) = Ok m) as Hmean.
  { intros k Hk. case_bool_decide; [|by eexists]. apply mean_ok.
    rewrite column_of_records. apply Forall_fmap, Forall_forall.
    intros r (a & -> & Ha)%list_elem_of_fmap. apply cell_number_or_null. by apply Hk. }
  destruct (Hmean "confidence_score"%string) as [m1 ->]; [intros a Ha; by apply Hnum|].
  destruct (Hmean "profile_completeness"%string) as [m2 ->]; [intros a Ha; by apply Hnum|].
  destruct (Hmean "follower_count"%string) as [m3 ->]; [intros a Ha; by apply Hnum|].
  cbn [bind].
  rewrite (bool_decide_eq_true_2 ("follower_count"%string ∈ _)).
  2: { apply has_column. exists (deref σ a0). split; [|done].
       apply list_elem_of_fmap. eauto. }
  assert (Forall (λ v, is_Some (as_number v))
            (dropna (column (DataFrame_of_records rows) "follower_count"))) as Hcol.
  { apply dropna_numbers. rewrite column_of_records. apply Forall_fmap, Forall_forall.
    intros r (a & -> & Ha)%list_elem_of_fmap. apply cell_number_or_null. by apply Hnum. }
  rewrite !count_between_numbers by done. cbn [bind].
  rewrite !filter_dropna, column_of_records.
  eexists _, _, _, _. split; [done|]. split_and!.
  - rewrite lookup_insert_ne by done. by rewrite lookup_insert_eq.
  - by rewrite lookup_insert_eq.
  - rewrite (count_split 1000 2000 5000 false) by lia.
    rewrite (count_split 1000 5000 10000 true) by lia.
    apply filter_cells.
Qed.

End summary.

(** X19.  The three follower ranges of the summary share out the counts from 1000
    to 10000: on records whose scores and follower counts are numbers or
    null, one of which at least has a follower count, the summary is computed
    without an exception, its total is the number of records, and its three
    ranges add up to the number of records with a follower count from 1000 to
    10000, both included; for records in the range of the configuration, as
    the scraper returns them, they add up to the total. *)
Theorem summary_follower_ranges (σ : gmap nat (gmap string pyval)) (profiles : list nat) :
  (∀ a, a ∈ profiles →
        number_or_null (deref σ a) "confidence_score"
        ∧ number_or_null (deref σ a) "profile_completeness"
        ∧ number_or_null (deref σ a) "follower_count") →
  (∃ a, a ∈ profiles ∧ is_Some (deref σ a !! "follower_count")) →
  ∃ summary (n1 n2 n3 : nat),
    generate_summary_report σ profiles = Ok summary
    ∧ summary !! "total_profiles" = Some (SVal (VInt (Z.of_nat (length profiles))))
    ∧ summary !! "follower_ranges"
      = Some (SRanges [("1k-2k", n1); ("2k-5k", n2); ("5k-10k", n3)]%string)
    ∧ (n1 + n2 + n3)%nat
      = length (filter (followers_within 1000 10000) (deref σ <$> profiles))
    ∧ (n1 + n2 + n3 ≤ length profiles)%nat
    ∧ (Forall count_in_range (deref σ <$> profiles) →
       (n1 + n2 + n3)%nat = length profiles).
Proof.
  intros Hnum Hfc.
  destruct (summary_ranges σ profiles Hnum Hfc) as (summary & n1 & n2 & n3 & H1 & H2 & H3 & H4).
  exists summary, n1, n2, n3. split_and!; [done..| |].
  - rewrite H4. etrans; [apply length_filter|]. by rewrite length_fmap.
  - intros Hall. rewrite H4, filter_all, length_fmap; [done|].
    eapply Forall_impl; [exact Hall|]. intros r. apply count_in_range_within.
Qed.

Lemma summary_follower_ranges_witness :
  ∃ summary (n1 n2 n3 : nat),
    generate_summary_report heap_scraped [0; 1]%nat = Ok summary
    ∧ summary !! "total_profiles" = Some (SVal (VInt 2))
    ∧ summary !! "follower_ranges"
      = Some (SRanges [("1k-2k", n1); ("2k-5k", n2); ("5k-10k", n3)]%string)
    ∧ (n1 + n2 + n3)%nat
      = length (filter (followers_within 1000 10000) (deref heap_scraped <$> [0; 1]%nat))
    ∧ (n1 + n2 + n3 ≤ 2)%nat
    ∧ (Forall count_in_range (deref heap_scraped <$> [0; 1]%nat) →
       (n1 + n2 + n3)%nat = 2%nat).
Proof.
  apply (summary_follower_ranges heap_scraped [0; 1]%nat).
  - intros a Ha. repeat (apply elem_of_cons in Ha as [->|Ha]);
      [..|by apply elem_of_nil in Ha];
      (split_and!; unfold number_or_null; vm_compute; right; eexists; reflexivity).
  - exists 0%nat. split; [by left|]. vm_compute. eexists. reflexivity.
Defined.

(** ** A job that is started again ([web_app.start_scraping], [web_app.stop_scraping]) *)

Section restart.

Lemma start_scraping_fresh (data : gmap string pyval) (now : string) (s : sys) :
  running (job_status s) = false →
  truthy (default VNone (data !! "email")) = true →
  truthy (default VNone (data !! "password")) = true →
  (start_scraping data now s).2
  = mkSys (mkJobStatus true 0 "Initializing scraper..." 0 0 (Some now) None None)
      (threads s ++ [mkThread (run_scraping (default VNone (data !! "email"))
                                 (default VNone (data !! "password"))) false]).
Proof. intros Hrun He Hp. unfold start_scraping. by rewrite Hrun, He, Hp. Qed.

Lemma step_at_check e n (st : JobStatus) (t : thread) (k : bool → prog unit) :
  code t = GetRunning k →
  step e n st t = (st, mkThread (k (running st)) (scraper_bound t), []).
Proof. intros Hk. unfold step. by rewrite Hk. Qed.

End restart.

(** X20.  A stop request is undone by the next start request.  Of a running job,
    let a worker be at a check of its flag when the job is stopped.  If the
    worker takes its step first, it reads the flag down and leaves its loop;
    if a start request with credentials is served first, it is accepted (the
    job counts as not running), a second worker is added beside the first,
    and the first worker reads the flag up at its check and goes on with its
    searches: the request to stop it is lost. *)
Theorem restart_revives_the_stopped_worker e n (s : sys) (data : gmap string pyval)
    (now : string) (i : nat) (t : thread) (k : bool → prog unit) :
  running (job_status s) = true →
  truthy (default VNone (data !! "email")) = true →
  truthy (default VNone (data !! "password")) = true →
  threads s !! i = Some t →
  code t = GetRunning k →
  let stopped := handle e n Stop s in
  let restarted := handle e (S n) (Start data now) stopped in
  running (job_status stopped) = false
  ∧ threads (handle e (S n) (Step i) stopped) !! i
    = Some (mkThread (k false) (scraper_bound t))
  ∧ running (job_status restarted) = true
  ∧ threads restarted
    = threads s ++ [mkThread (run_scraping (default VNone (data !! "email"))
                                (default VNone (data !! "password"))) false]
  ∧ threads (handle e (S (S n)) (Step i) restarted) !! i
    = Some (mkThread (k true) (scraper_bound t)).
Proof.
  intros Hrun He Hp Ht Hk stopped restarted.
  assert (running (job_status stopped) = false) as Hdown.
  { subst stopped. cbn [handle job_status]. unfold stop_scraping. by rewrite Hrun. }
  assert (threads stopped = threads s) as Hthreads by done.
  assert (restarted
          = mkSys (mkJobStatus true 0 "Initializing scraper..." 0 0 (Some now) None None)
              (threads s ++ [mkThread (run_scraping (default VNone (data !! "email"))
                                         (default VNone (data !! "password"))) false]))
    as Hre.
  { subst restarted. cbn [handle]. rewrite start_scraping_fresh by done.
    by rewrite Hthreads. }
  split_and!.
  - exact Hdown.
  - cbn [handle]. rewrite Hthreads, Ht, (step_at_check _ _ _ _ k Hk), Hdown.
    cbn [threads]. rewrite list_lookup_insert_eq; [done|].
    by eapply lookup_lt_Some.
  - by rewrite Hre.
  - by rewrite Hre.
  - rewrite Hre. cbn [handle threads job_status].
    rewrite (lookup_app_l_Some _ _ _ _ Ht), (step_at_check _ _ _ _ k Hk).
    cbn [running threads]. rewrite list_lookup_insert_eq; [done|].
    rewrite length_app. apply lookup_lt_Some in Ht. lia.
Qed.

Lemma restart_revives_the_stopped_worker_witness :
  running (job_status (handle world 15 Stop sys_at_check)) = false
  ∧ threads (handle world 16 (Step 0) (handle world 15 Stop sys_at_check)) !! 0%nat
    = Some (mkThread (after_check false) true)
  ∧ running (job_status (handle world 16 (Start credentials "2024-01-01T00:01:00")
                           (handle world 15 Stop sys_at_check))) = true
  ∧ threads (handle world 16 (Start credentials "2024-01-01T00:01:00")
               (handle world 15 Stop sys_at_check))
    = threads sys_at_check
      ++ [mkThread (run_scraping (default VNone (credentials !! "email"))
                      (default VNone (credentials !! "password"))) false]
  ∧ threads (handle world 17 (Step 0)
               (handle world 16 (Start credentials "2024-01-01T00:01:00")
                  (handle world 15 Stop sys_at_check))) !! 0%nat
    = Some (mkThread (after_check true) true).
Proof.
  refine (restart_revives_the_stopped_worker world 15 sys_at_check credentials
            "2024-01-01T00:01:00" 0 (mkThread (GetRunning after_check) true)
            after_check _ _ _ _ _); reflexivity.
Defined.

(** ** The command-line run ([main.py]) *)

Section orchestrator.

Implicit Types (e : env) (stops : nat → bool) (st : JobStatus) (log : list obs).

Lemma omap_csv_rows_none new :
  Forall (obs_in no_write_no_close) new → omap csv_rows new = [].
Proof.
  induction 1 as [|o new Ho _ IH]; [done|]. cbn [omap list_omap]. rewrite IH.
  destruct o as [X c r]. by destruct c.
Qed.

Lemma not_close_weaken new :
  Forall (obs_in no_write_no_close) new → Forall (obs_in not_close) new.
Proof.
  intros H. eapply Forall_impl; [exact H|]. intros [X c r]. by destruct c.
Qed.

(** The searches make search calls only. *)
Lemma finish_keyword_searches e stops keywords acc b st n log :
  ∃ st' n' new out,
    finish e stops (Orchestrator.keyword_searches keywords acc) b st n log
    = mkFinal st' out b n' (log ++ new)
    ∧ Forall (obs_in search_call) new
    ∧ ((∀ m kw p, answer_call e m _ (SearchProfiles kw p) = Ok []) → out = Ok acc).
Proof.
  revert acc st n log. induction keywords as [|kw keywords IH]; intros acc st n log.
  { exists st, n, [], (Ok acc). cbn [Orchestrator.keyword_searches finish].
    by rewrite app_nil_r. }
  cbn [Orchestrator.keyword_searches]. rewrite finish_pbind, finish_call_.
  cbn [fin_outcome fin_status fin_bound fin_steps fin_log].
  destruct (answer_call e n _ (SearchProfiles kw 2)) as [profiles|ex] eqn:Hans.
  - destruct (IH (acc ++ profiles) (interfere stops n st) (S n)
                (log ++ [Called (SearchProfiles kw 2) (Ok profiles)]))
      as (st' & n' & new & out & -> & Hnew & Hout).
    exists st', n', (Called (SearchProfiles kw 2) (Ok profiles) :: new), out.
    rewrite <-app_assoc. split_and!; [done|by constructor|].
    intros Hnone. rewrite Hout by done. rewrite Hnone in Hans.
    injection Hans as <-. by rewrite app_nil_r.
  - eexists _, _, [_], _. split_and!; [done|by repeat constructor|].
    intros Hnone. by rewrite Hnone in Hans.
Qed.

Lemma finish_company_searches e stops companies acc b st n log :
  ∃ st' n' new out,
    finish e stops (Orchestrator.company_searches companies acc) b st n log
    = mkFinal st' out b n' (log ++ new)
    ∧ Forall (obs_in search_call) new
    ∧ ((∀ m c, answer_call e m _ (SearchByCompany c) = Ok []) → out = Ok acc).
Proof.
  revert acc st n log. induction companies as [|c companies IH]; intros acc st n log.
  { exists st, n, [], (Ok acc). cbn [Orchestrator.company_searches finish].
    by rewrite app_nil_r. }
  cbn [Orchestrator.company_searches]. rewrite finish_pbind, finish_call_.
  cbn [fin_outcome fin_status fin_bound fin_steps fin_log].
  destruct (answer_call e n _ (SearchByCompany c)) as [profiles|ex] eqn:Hans.
  - destruct (IH (acc ++ profiles) (interfere stops n st) (S n)
                (log ++ [Called (SearchByCompany c) (Ok profiles)]))
      as (st' & n' & new & out & -> & Hnew & Hout).
    exists st', n', (Called (SearchByCompany c) (Ok profiles) :: new), out.
    rewrite <-app_assoc. split_and!; [done|by constructor|].
    intros Hnone. rewrite Hout by done. rewrite Hnone in Hans.
    injection Hans as <-. by rewrite app_nil_r.
  - eexists _, _, [_], _. split_and!; [done|by repeat constructor|].
    intros Hnone. by rewrite Hnone in Hans.
Qed.

Lemma search_call_quiet new :
  Forall (obs_in search_call) new → Forall (obs_in no_write_no_close) new.
Proof.
  intros H. eapply Forall_impl; [exact H|]. intros [X c r]. by destruct c.
Qed.

(** The search of the run never raises: an exception of a search is
    answered by the empty list. *)
Lemma finish_run_comprehensive_search e stops b st n log :
  ∃ st' n' new profiles,
    finish e stops Orchestrator.run_comprehensive_search b st n log
    = mkFinal st' (Ok profiles) b n' (log ++ new)
    ∧ Forall (obs_in no_write_no_close) new
    ∧ ((∀ m kw p, answer_call e m _ (SearchProfiles kw p) = Ok []) →
       (∀ m c, answer_call e m _ (SearchByCompany c) = Ok []) → profiles = []).
Proof.
  unfold Orchestrator.run_comprehensive_search.
  rewrite finish_try_except, finish_pbind.
  destruct (finish_keyword_searches e stops Config.SEARCH_KEYWORDS [] b st n log)
    as (st1 & n1 & new1 & out1 & -> & Hnew1 & Hout1).
  cbn [fin_outcome fin_status fin_bound fin_steps fin_log].
  destruct out1 as [acc|ex].
  - destruct (finish_company_searches e stops Config.TARGET_COMPANIES acc b st1 n1
                (log ++ new1)) as (st2 & n2 & new2 & out2 & -> & Hnew2 & Hout2).
    cbn [fin_outcome fin_status fin_bound fin_steps fin_log].
    destruct out2 as [all|ex].
    + exists st2, n2, (new1 ++ new2), all. rewrite app_assoc.
      split_and!; [done|apply search_call_quiet; by apply Forall_app|].
      intros H1 H2. specialize (Hout1 H1). specialize (Hout2 H2). congruence.
    + cbn [finish]. exists st2, n2, (new1 ++ new2), []. rewrite app_assoc.
      split_and!; [done|apply search_call_quiet; by apply Forall_app|done].
  - cbn [finish]. exists st1, n1, new1, [].
    split_and!; [done|by apply search_call_quiet|done].
Qed.

(** The processing of the run never raises, does not close the scraper, and
    answers [True] only when it has handed rows fit for the file to the CSV
    writer, which has written them. *)
Lemma finish_process_and_save e stops data_processor profiles b st n log :
  ∃ st' n' new success,
    finish e stops (Orchestrator.process_and_save_profiles data_processor profiles)
      b st n log
    = mkFinal st' (Ok success) b n' (log ++ new)
    ∧ Forall (obs_in not_close) new
    ∧ (success = true →
       ∃ rows, omap csv_rows new = [(output_file data_processor, rows)]
               ∧ clean_rows rows
               ∧ Called (ToCsv (output_file data_processor) rows) (Ok tt) ∈ new).
Proof.
  unfold Orchestrator.process_and_save_profiles. rewrite finish_try_except.
  case_bool_decide as Hall.
  { cbn [finish fin_outcome]. exists st, n, [], false. by rewrite app_nil_r. }
  destruct (alloc_all ∅ profiles) as [refs σ] eqn:Halloc.
  rewrite finish_pbind, finish_ask.
  cbn [fin_outcome fin_status fin_bound fin_steps fin_log].
  rewrite finish_pbind, finish_lift.
  cbn [fin_outcome fin_status fin_bound fin_steps fin_log].
  destruct (deduplicate_profiles _ _ _ _ _) as [[out σ1]|ex] eqn:Hd.
  2: { cbn [fin_outcome finish]. eexists _, _, [], false. by rewrite app_nil_r. }
  rewrite finish_pbind, finish_lift.
  cbn [fin_outcome fin_status fin_bound fin_steps fin_log fst snd].
  destruct (filter_by_quality _ _ _ _) as [kept|ex] eqn:Hf.
  2: { cbn [fin_outcome finish]. eexists _, _, [], false. by rewrite app_nil_r. }
  rewrite finish_pbind, finish_lift.
  cbn [fin_outcome fin_status fin_bound fin_steps fin_log fst snd].
  destruct (sort_by_quality _ _) as [[sorted σ2]|ex] eqn:Hs.
  2: { cbn [fin_outcome finish]. eexists _, _, [], false. by rewrite app_nil_r. }
  cbn [fst snd]. cbv zeta. rewrite finish_pbind. unfold save_profiles_to_csv.
  case_bool_decide as Hne.
  { cbn [finish fin_outcome fin_status fin_bound fin_steps fin_log].
    eexists _, _, [], false. by rewrite app_nil_r. }
  pose proof (pipeline_rows _ _ _ _ _ _ _ _ _ _ Hd Hf Hs Hne) as Hclean.
  cbn [finish fin_outcome fin_status fin_bound fin_steps fin_log].
  destruct (answer_call e _ _ (ToCsv _ _)) as [[]|ex] eqn:Hcsv.
  - rewrite finish_pbind, finish_lift.
    cbn [fin_outcome fin_status fin_bound fin_steps fin_log].
    destruct (generate_summary_report σ2 sorted) as [summary|ex] eqn:Hsum.
    + cbn [finish fin_outcome fin_status fin_bound fin_steps fin_log].
      eexists _, _, [_; _], true. rewrite <-app_assoc.
      split_and!; [done|by repeat constructor|].
      intros _. eexists. split_and!; [done|done|]. apply elem_of_cons. by left.
    + cbn [finish fin_outcome fin_status fin_bound fin_steps fin_log].
      eexists _, _, [_], false. split_and!; [done|by repeat constructor|done].
  - cbn [finish fin_outcome fin_status fin_bound fin_steps fin_log].
    eexists _, _, [_], false. split_and!; [done|by repeat constructor|done].
Qed.

(** The start of the run: the scraper is made and logs in. *)
Lemma finish_initialize e stops b st n log :
  ∃ st' n' new ok b',
    finish e stops Orchestrator.initialize b st n log
    = mkFinal st' (Ok ok) b' n' (log ++ new)
    ∧ Forall (obs_in no_write_no_close) new
    ∧ (ok = true → b' = true)
    ∧ (answer_call e n _ NewScraper = Ok tt →
       b' = true
       ∧ new = [Called NewScraper (Ok tt); Called Login (answer_call e (S (S n)) _ Login)]
       ∧ (ok = true ↔ answer_call e (S (S n)) _ Login = Ok true)).
Proof.
  unfold Orchestrator.initialize. rewrite finish_try_except, finish_pbind, finish_call_.
  cbn [fin_outcome fin_status fin_bound fin_steps fin_log].
  destruct (answer_call e n _ NewScraper) as [[]|ex] eqn:Hnew.
  2: { cbn [finish]. eexists _, _, [_], false, b.
       split_and!; [done|by repeat constructor|done|done]. }
  rewrite finish_pbind.
  cbn [finish fin_outcome fin_status fin_bound fin_steps fin_log].
  rewrite finish_pbind, finish_call_.
  cbn [fin_outcome fin_status fin_bound fin_steps fin_log].
  destruct (answer_call e (S (S n)) _ Login) as [[]|ex] eqn:Hlogin;
    cbn [negb finish fin_outcome fin_status fin_bound fin_steps fin_log].
  - eexists _, _, [_; _], true, true. rewrite <-app_assoc.
    split_and!; [done|by repeat constructor|done|done].
  - eexists _, _, [_; _], false, true. rewrite <-app_assoc.
    split_and!; [done|by repeat constructor|done|]. intros _. split_and!; [done..|].
    split; congruence.
  - eexists _, _, [_; _], false, true. rewrite <-app_assoc.
    split_and!; [done|by repeat constructor|done|]. intros _. split_and!; [done..|].
    split; congruence.
Qed.

Lemma finish_cleanup e stops b st n log :
  finish e stops Orchestrator.cleanup b st n log
  = if b then mkFinal (interfere stops (S n) (interfere stops n st))
                (answer_call e (S n) _ Close) b (S (S n))
                (log ++ [Called Close (answer_call e (S n) _ Close)])
    else mkFinal (interfere stops n st) (Ok tt) b (S n) log.
Proof.
  unfold Orchestrator.cleanup. cbn [finish]. destruct b; [|done].
  by rewrite finish_call_.
Qed.

(** The run, case by case. *)
Lemma finish_run e stops st n log :
  ∃ new,
    fin_log (finish e stops Orchestrator.run false st n log) = log ++ new
    ∧ (fin_outcome (finish e stops Orchestrator.run false st n log) = Ok true →
       ∃ rows new',
         new = new' ++ [Called Close (Ok tt)]
         ∧ omap csv_rows new' = [(Config.OUTPUT_CSV, rows)]
         ∧ clean_rows rows
         ∧ Called (ToCsv Config.OUTPUT_CSV rows) (Ok tt) ∈ new')
    ∧ (∀ ex, fin_outcome (finish e stops Orchestrator.run false st n log) = Raise ex →
         ∃ new', new = new' ++ [Called Close (Raise ex)])
    ∧ (answer_call e n _ NewScraper = Ok tt →
       answer_call e (S (S n)) _ Login ≠ Ok true
       ∨ ((∀ m kw p, answer_call e m _ (SearchProfiles kw p) = Ok [])
          ∧ (∀ m c, answer_call e m _ (SearchByCompany c) = Ok [])) →
       fin_outcome (finish e stops Orchestrator.run false st n log) = Ok false
       ∧ fin_bound (finish e stops Orchestrator.run false st n log) = true
       ∧ Forall (obs_in not_close) new).
Proof.
  unfold Orchestrator.run. cbv zeta. rewrite finish_try_except, finish_pbind.
  destruct (finish_initialize e stops false st n log)
    as (st1 & n1 & new1 & ok & b1 & -> & Hq1 & Hbound & Hinit).
  cbn [fin_outcome fin_status fin_bound fin_steps fin_log].
  destruct ok; cbn [negb].
  2: { cbn [finish fin_outcome fin_log fin_bound]. exists new1.
       split_and!; [done|done|done|].
       intros Hnew _. destruct (Hinit Hnew) as (-> & _ & _).
       split_and!; [done|done|by apply not_close_weaken]. }
  rewrite finish_pbind.
  destruct (finish_run_comprehensive_search e stops b1 st1 n1 (log ++ new1))
    as (st2 & n2 & new2 & profiles & -> & Hq2 & Hnone).
  cbn [fin_outcome fin_status fin_bound fin_steps fin_log].
  case_bool_decide as Hprofiles.
  { cbn [finish fin_outcome fin_log fin_bound]. exists (new1 ++ new2).
    rewrite app_assoc. split_and!; [done|done|done|].
    intros Hnew _. destruct (Hinit Hnew) as (-> & _ & _).
    split_and!; [done|done|]. apply not_close_weaken. by apply Forall_app. }
  rewrite finish_pbind.
  destruct (finish_process_and_save e stops (DataProcessor.mk Config.OUTPUT_CSV)
              profiles b1 st2 n2 ((log ++ new1) ++ new2))
    as (st3 & n3 & new3 & success & -> & Hq3 & Hsaved).
  cbn [fin_outcome fin_status fin_bound fin_steps fin_log].
  rewrite finish_pbind, finish_cleanup.
  pose proof (omap_csv_rows_none new1 Hq1) as Hquiet1.
  pose proof (omap_csv_rows_none new2 Hq2) as Hquiet2.
  assert (∀ P : Prop,
            (answer_call e n _ NewScraper = Ok tt →
             answer_call e (S (S n)) _ Login ≠ Ok true
             ∨ ((∀ m kw p, answer_call e m _ (SearchProfiles kw p) = Ok [])
                ∧ (∀ m c, answer_call e m _ (SearchByCompany c) = Ok [])) → P)) as Hnot.
  { intros P Hnew [Hlogin|[H1 H2]].
    - destruct (Hinit Hnew) as (_ & _ & Hok). destruct Hlogin. by apply Hok.
    - destruct Hprofiles. by apply Hnone. }
  rewrite (Hbound eq_refl).
  cbn [fin_outcome fin_status fin_bound fin_steps fin_log].
  destruct (answer_call e (S n3) _ Close) as [[]|ex] eqn:Hclose.
  + cbn [finish fin_outcome fin_log fin_bound].
    exists (new1 ++ new2 ++ new3 ++ [Called Close (Ok tt)]).
    rewrite <-!app_assoc. split_and!; [done| |done|apply Hnot].
    intros [= ->]. destruct (Hsaved eq_refl) as (rows & Hrows & Hclean & Hin).
    exists rows, (new1 ++ new2 ++ new3). split_and!.
    * by rewrite <-!app_assoc.
    * rewrite !omap_app, Hquiet1, Hquiet2, Hrows. done.
    * done.
    * rewrite !elem_of_app. auto.
  + cbn [finish fin_outcome fin_log fin_bound fin_status fin_steps].
    rewrite finish_pbind, finish_cleanup.
    cbn [fin_outcome fin_status fin_bound fin_steps fin_log].
    destruct (answer_call e (S (S (S n3))) _ Close) as [[]|ex'] eqn:Hclose'.
    * cbn [finish fin_outcome fin_log fin_bound].
      eexists (new1 ++ new2 ++ new3 ++ [_; _]).
      rewrite <-!app_assoc. split_and!; [done|done|done|apply Hnot].
    * cbn [fin_outcome fin_log].
      exists (new1 ++ new2 ++ new3
              ++ [Called Close (Raise ex); Called Close (Raise ex')]).
      rewrite <-!app_assoc. split_and!; [done|done| |apply Hnot].
      intros ? [= <-].
      exists (new1 ++ new2 ++ new3 ++ [Called Close (Raise ex)]).
      by rewrite <-!app_assoc.
Qed.

End orchestrator.

(** X21.  When the login is refused, or when the searches find nothing, the run
    answers [False] and leaves the browser open: the scraper has been made,
    and no call closes it. *)
Theorem run_leaves_the_browser_open e stops (st : JobStatus) (n : nat) (log : list obs) :
  answer_call e n _ NewScraper = Ok tt →
  answer_call e (S (S n)) _ Login ≠ Ok true
  ∨ ((∀ m kw p, answer_call e m _ (SearchProfiles kw p) = Ok [])
     ∧ (∀ m c, answer_call e m _ (SearchByCompany c) = Ok [])) →
  let r := finish e stops Orchestrator.run false st n log in
  fin_outcome r = Ok false
  ∧ fin_bound r = true
  ∧ ∃ new, fin_log r = log ++ new ∧ Forall (obs_in not_close) new.
Proof.
  intros Hnew Hcase r. subst r.
  destruct (finish_run e stops st n log) as (new & Hlog & _ & _ & Hopen).
  destruct (Hopen Hnew Hcase) as (? & ? & ?). eauto.
Qed.

Lemma run_leaves_the_browser_open_witness :
  fin_outcome (finish world_login_raises never Orchestrator.run false job_status_initial 0 [])
  = Ok false
  ∧ fin_bound (finish world_login_raises never Orchestrator.run false job_status_initial 0 [])
    = true
  ∧ ∃ new,
      fin_log (finish world_login_raises never Orchestrator.run false job_status_initial 0 [])
      = [] ++ new
      ∧ Forall (obs_in not_close) new.
Proof.
  apply (run_leaves_the_browser_open world_login_raises never job_status_initial 0 []).
  - reflexivity.
  - left. discriminate.
Defined.

(** X22.  The run answers [True] only when the CSV writer has written rows fit
    for the file, on the file of the configuration, and the scraper has
    then been closed, as the last call of the run.  The run never lets an
    exception through but the one of its last call, which closes the
    scraper. *)
Theorem run_succeeds_only_after_saving e stops (st : JobStatus) (n : nat) (log : list obs) :
  let r := finish e stops Orchestrator.run false st n log in
  (fin_outcome r = Ok true →
   ∃ rows new',
     fin_log r = log ++ new' ++ [Called Close (Ok tt)]
     ∧ omap csv_rows new' = [(Config.OUTPUT_CSV, rows)]
     ∧ clean_rows rows
     ∧ Called (ToCsv Config.OUTPUT_CSV rows) (Ok tt) ∈ new')
  ∧ (∀ ex, fin_outcome r = Raise ex →
       ∃ new', fin_log r = log ++ new' ++ [Called Close (Raise ex)]).
Proof.
  intros r. subst r.
  destruct (finish_run e stops st n log) as (new & Hlog & Htrue & Hraise & _). split.
  - intros (rows & new' & -> & ? & ? & ?)%Htrue. eauto 10.
  - intros ex (new' & ->)%Hraise. eauto.
Qed.

Lemma run_succeeds_only_after_saving_witness :
  fin_outcome (finish world never Orchestrator.run false job_status_initial 0 []) = Ok true
  ∧ ∃ rows new',
      fin_log (finish world never Orchestrator.run false job_status_initial 0 [])
      = [] ++ new' ++ [Called Close (Ok tt)]
      ∧ omap csv_rows new' = [(Config.OUTPUT_CSV, rows)]
      ∧ clean_rows rows
      ∧ Called (ToCsv Config.OUTPUT_CSV rows) (Ok tt) ∈ new'.
Proof.
  assert (fin_outcome (finish world never Orchestrator.run false job_status_initial 0 [])
          = Ok true) as H by (vm_compute; reflexivity).
  split; [exact H|].
  exact (proj1 (run_succeeds_only_after_saving world never job_status_initial 0 []) H).
Defined.
